(** * CYCLISTE page script (Script.js): a shallow embedding and its properties

    The script wires a static page: it caches element references, registers
    event listeners, and reacts to scroll, click, submit, timer and
    intersection events by editing class lists, inline styles and attributes.

    The embedding follows the script function by function.  The document is a
    store of elements addressed by node references, so that two references to
    one element alias, as they do in the browser.  What the browser contributes
    (which elements the queries select, the scroll offset, when timers fire,
    which intersection entries are delivered) is part of the page state or an
    argument of the event.

    Left out, as nothing else in the script depends on them: [initAOS],
    [logPerformance], the console banner, and the clean-up on [beforeunload].
    The utilities [isInViewport], [addEvents] and [removeEvents], which the
    script never calls, come after the script itself.

    The file has three parts: the script, the notions used to state its
    properties, and the properties.  In the last two, what is about one
    function or one feature comes first, and what is about the whole script,
    on every page it can reach, comes second. *)

From stdpp Require Import base numbers list strings gmap.
From Stdlib Require Import Ascii QArith Lqa.

Local Open Scope Z_scope.

(** ** CONFIGURATION (Script.js, lines 11-16) *)

Module CONFIG.
Definition scrollThreshold : Z := 50.
Definition backToTopThreshold : Z := 300.
Definition debounceDelay : Z := 150.
Definition loadingDelay : Z := 800.
End CONFIG.

(** ** Elements *)

(** A form control, as far as [HTMLFormElement.reset] is concerned: the
    current value and the default value given by the markup. *)
Record Control := {
  value : string;
  defaultValue : string
}.

(** The part of an element the script reads or writes.  [attributes] is what
    [getAttribute], [removeAttribute], [dataset] and the reflected [src]
    property work on; [style] is the inline style declaration (a property
    that is not set reads as absent); [controls] is the list of controls of a
    form element (empty for any other element). *)
Record Element := {
  attributes : gmap string string;
  classList : list string;
  style : gmap string string;
  offsetTop : Z;
  controls : list Control
}.

Definition with_attributes (f : gmap string string → gmap string string) (e : Element) : Element :=
  {| attributes := f (attributes e); classList := classList e; style := style e;
     offsetTop := offsetTop e; controls := controls e |}.

Definition with_classList (f : list string → list string) (e : Element) : Element :=
  {| attributes := attributes e; classList := f (classList e); style := style e;
     offsetTop := offsetTop e; controls := controls e |}.

Definition with_style (f : gmap string string → gmap string string) (e : Element) : Element :=
  {| attributes := attributes e; classList := classList e; style := f (style e);
     offsetTop := offsetTop e; controls := controls e |}.

Definition with_controls (f : list Control → list Control) (e : Element) : Element :=
  {| attributes := attributes e; classList := classList e; style := style e;
     offsetTop := offsetTop e; controls := f (controls e) |}.

(** [DOMTokenList]: [add] appends a token that is not there yet, [remove]
    deletes every occurrence. *)
Module DOMTokenList.
Definition contains (token : string) (l : list string) : bool :=
  bool_decide (token ∈ l).
Definition add (token : string) (l : list string) : list string :=
  if contains token l then l else l ++ [token].
Definition remove (token : string) (l : list string) : list string :=
  filter (λ t, t ≠ token) l.
End DOMTokenList.

(** [form.reset()]: every control goes back to its default value. *)
Definition reset_control (c : Control) : Control :=
  {| value := defaultValue c; defaultValue := defaultValue c |}.

(** ** The page *)

(** Result of [document.querySelector]: the selector is not valid CSS (a
    [SyntaxError] is thrown), or it is valid and selects nothing ([null]), or
    it selects a node. *)
Inductive Selected :=
  | Invalid
  | NoMatch
  | Match (node : nat).

(** The [DOM] cache of the script (lines 21-33): every entry is [null], a node
    reference, or a static [NodeList] of node references. *)
Record DOMCache := {
  loader : option nat;
  navbar : option nat;
  mobileToggle : option nat;
  mobileMenu : option nat;
  mobileClose : option nat;
  mobileLinks : option (list nat);
  filterBtns : option (list nat);
  bikeCards : option (list nat);
  backToTop : option nat;
  contactForm : option nat;
  navLinks : option (list nat)
}.

(** Functions handed to [setTimeout], one constructor per closure of the
    source: lines 100-107 and 103-105 of [initLoader], the functions wrapped
    by [debounce] at lines 118 and 260, and the closure of line 227, which
    captures its card. *)
Inductive Callback :=
  | LoaderFade
  | LoaderHide
  | NavbarScroll
  | BackToTop
  | HideCard (card : nat).

#[global] Instance Callback_eq_dec : EqDecision Callback.
Proof. solve_decision. Defined.

Record Timer := {
  timer_id : nat;
  due : Z;
  callback : Callback
}.

(** Event targets and the listeners the script registers, one constructor per
    function passed to [addEventListener]. *)
Inductive Target :=
  | Window
  | Node (node : nat).

#[global] Instance Target_eq_dec : EqDecision Target.
Proof. solve_decision. Defined.

Inductive Handler :=
  | OnLoad              (* line 99 *)
  | OnNavbarScroll      (* handleNavbarScroll, line 148 *)
  | OnMenuOpen          (* line 152 *)
  | OnMenuClose         (* lines 157 and 163 *)
  | OnMenuOutside       (* line 169 *)
  | OnAnchorClick       (* line 184 *)
  | OnFilterClick       (* line 241 *)
  | OnBackToTopScroll   (* handleBackToTop, line 277 *)
  | OnBackToTopClick    (* line 280 *)
  | OnSubmit.           (* line 294 *)

Record Listener := {
  listener_target : Target;
  listener_type : string;
  listener_handler : Handler
}.

(** Calls that leave the page: scroll requests, alerts, and the fetch started
    by assigning an image's [src]. *)
Inductive Effect :=
  | ScrollTo (top : Z) (behavior : string)
  | Alert (message : string)
  | SetSrc (img : nat) (url : string).

(** The page.  The three queries say what the document's own queries
    return; they are fixed, as the script changes no id, class or attribute
    that a selector it uses tests, except [data-src], which is queried once,
    in [initLazyLoading].  A node reference that denotes no element reads as
    an element without attributes and is not written (no such reference
    exists in a browser). *)
Record Page := {
  (* document *)
  nodes : list Element;
  body : Element;
  getElementById : string → option nat;
  querySelectorAll : string → list nat;
  querySelector : string → Selected;
  (* window *)
  scrollY : Q;
  hasIntersectionObserver : bool;
  now : Z;
  timers : list Timer;
  next_timer : nat;
  listeners : list Listener;
  (* script *)
  DOM : DOMCache;
  navbar_timeout : option nat;
  backToTop_timeout : option nat;
  observed : list nat;
  (* the event being dispatched, and what has left the page *)
  defaultPrevented : bool;
  effects : list Effect
}.

(** Field updates. *)
Definition set_nodes (v : list Element) (s : Page) : Page :=
  {| nodes := v; body := body s; getElementById := getElementById s;
     querySelectorAll := querySelectorAll s; querySelector := querySelector s;
     scrollY := scrollY s; hasIntersectionObserver := hasIntersectionObserver s; now := now s;
     timers := timers s; next_timer := next_timer s; listeners := listeners s; DOM := DOM s;
     navbar_timeout := navbar_timeout s; backToTop_timeout := backToTop_timeout s;
     observed := observed s; defaultPrevented := defaultPrevented s; effects := effects s |}.

Definition set_body (v : Element) (s : Page) : Page :=
  {| nodes := nodes s; body := v; getElementById := getElementById s;
     querySelectorAll := querySelectorAll s; querySelector := querySelector s;
     scrollY := scrollY s; hasIntersectionObserver := hasIntersectionObserver s; now := now s;
     timers := timers s; next_timer := next_timer s; listeners := listeners s; DOM := DOM s;
     navbar_timeout := navbar_timeout s; backToTop_timeout := backToTop_timeout s;
     observed := observed s; defaultPrevented := defaultPrevented s; effects := effects s |}.

Definition set_scrollY (v : Q) (s : Page) : Page :=
  {| nodes := nodes s; body := body s; getElementById := getElementById s;
     querySelectorAll := querySelectorAll s; querySelector := querySelector s; scrollY := v;
     hasIntersectionObserver := hasIntersectionObserver s; now := now s; timers := timers s;
     next_timer := next_timer s; listeners := listeners s; DOM := DOM s;
     navbar_timeout := navbar_timeout s; backToTop_timeout := backToTop_timeout s;
     observed := observed s; defaultPrevented := defaultPrevented s; effects := effects s |}.

Definition set_now (v : Z) (s : Page) : Page :=
  {| nodes := nodes s; body := body s; getElementById := getElementById s;
     querySelectorAll := querySelectorAll s; querySelector := querySelector s;
     scrollY := scrollY s; hasIntersectionObserver := hasIntersectionObserver s; now := v;
     timers := timers s; next_timer := next_timer s; listeners := listeners s; DOM := DOM s;
     navbar_timeout := navbar_timeout s; backToTop_timeout := backToTop_timeout s;
     observed := observed s; defaultPrevented := defaultPrevented s; effects := effects s |}.

Definition set_timers (v : list Timer) (s : Page) : Page :=
  {| nodes := nodes s; body := body s; getElementById := getElementById s;
     querySelectorAll := querySelectorAll s; querySelector := querySelector s;
     scrollY := scrollY s; hasIntersectionObserver := hasIntersectionObserver s; now := now s;
     timers := v; next_timer := next_timer s; listeners := listeners s; DOM := DOM s;
     navbar_timeout := navbar_timeout s; backToTop_timeout := backToTop_timeout s;
     observed := observed s; defaultPrevented := defaultPrevented s; effects := effects s |}.

Definition set_next_timer (v : nat) (s : Page) : Page :=
  {| nodes := nodes s; body := body s; getElementById := getElementById s;
     querySelectorAll := querySelectorAll s; querySelector := querySelector s;
     scrollY := scrollY s; hasIntersectionObserver := hasIntersectionObserver s; now := now s;
     timers := timers s; next_timer := v; listeners := listeners s; DOM := DOM s;
     navbar_timeout := navbar_timeout s; backToTop_timeout := backToTop_timeout s;
     observed := observed s; defaultPrevented := defaultPrevented s; effects := effects s |}.

Definition set_listeners (v : list Listener) (s : Page) : Page :=
  {| nodes := nodes s; body := body s; getElementById := getElementById s;
     querySelectorAll := querySelectorAll s; querySelector := querySelector s;
     scrollY := scrollY s; hasIntersectionObserver := hasIntersectionObserver s; now := now s;
     timers := timers s; next_timer := next_timer s; listeners := v; DOM := DOM s;
     navbar_timeout := navbar_timeout s; backToTop_timeout := backToTop_timeout s;
     observed := observed s; defaultPrevented := defaultPrevented s; effects := effects s |}.

Definition set_DOM (v : DOMCache) (s : Page) : Page :=
  {| nodes := nodes s; body := body s; getElementById := getElementById s;
     querySelectorAll := querySelectorAll s; querySelector := querySelector s;
     scrollY := scrollY s; hasIntersectionObserver := hasIntersectionObserver s; now := now s;
     timers := timers s; next_timer := next_timer s; listeners := listeners s; DOM := v;
     navbar_timeout := navbar_timeout s; backToTop_timeout := backToTop_timeout s;
     observed := observed s; defaultPrevented := defaultPrevented s; effects := effects s |}.

Definition set_navbar_timeout (v : option nat) (s : Page) : Page :=
  {| nodes := nodes s; body := body s; getElementById := getElementById s;
     querySelectorAll := querySelectorAll s; querySelector := querySelector s;
     scrollY := scrollY s; hasIntersectionObserver := hasIntersectionObserver s; now := now s;
     timers := timers s; next_timer := next_timer s; listeners := listeners s; DOM := DOM s;
     navbar_timeout := v; backToTop_timeout := backToTop_timeout s; observed := observed s;
     defaultPrevented := defaultPrevented s; effects := effects s |}.

Definition set_backToTop_timeout (v : option nat) (s : Page) : Page :=
  {| nodes := nodes s; body := body s; getElementById := getElementById s;
     querySelectorAll := querySelectorAll s; querySelector := querySelector s;
     scrollY := scrollY s; hasIntersectionObserver := hasIntersectionObserver s; now := now s;
     timers := timers s; next_timer := next_timer s; listeners := listeners s; DOM := DOM s;
     navbar_timeout := navbar_timeout s; backToTop_timeout := v; observed := observed s;
     defaultPrevented := defaultPrevented s; effects := effects s |}.

Definition set_observed (v : list nat) (s : Page) : Page :=
  {| nodes := nodes s; body := body s; getElementById := getElementById s;
     querySelectorAll := querySelectorAll s; querySelector := querySelector s;
     scrollY := scrollY s; hasIntersectionObserver := hasIntersectionObserver s; now := now s;
     timers := timers s; next_timer := next_timer s; listeners := listeners s; DOM := DOM s;
     navbar_timeout := navbar_timeout s; backToTop_timeout := backToTop_timeout s;
     observed := v; defaultPrevented := defaultPrevented s; effects := effects s |}.

Definition set_defaultPrevented (v : bool) (s : Page) : Page :=
  {| nodes := nodes s; body := body s; getElementById := getElementById s;
     querySelectorAll := querySelectorAll s; querySelector := querySelector s;
     scrollY := scrollY s; hasIntersectionObserver := hasIntersectionObserver s; now := now s;
     timers := timers s; next_timer := next_timer s; listeners := listeners s; DOM := DOM s;
     navbar_timeout := navbar_timeout s; backToTop_timeout := backToTop_timeout s;
     observed := observed s; defaultPrevented := v; effects := effects s |}.

Definition set_effects (v : list Effect) (s : Page) : Page :=
  {| nodes := nodes s; body := body s; getElementById := getElementById s;
     querySelectorAll := querySelectorAll s; querySelector := querySelector s;
     scrollY := scrollY s; hasIntersectionObserver := hasIntersectionObserver s; now := now s;
     timers := timers s; next_timer := next_timer s; listeners := listeners s; DOM := DOM s;
     navbar_timeout := navbar_timeout s; backToTop_timeout := backToTop_timeout s;
     observed := observed s; defaultPrevented := defaultPrevented s; effects := v |}.

(** ** Script computations

    A computation runs on the page and either returns or throws; what it did
    to the page before throwing stays done. *)

Inductive Exception :=
  | TypeError
  | SyntaxError.

Inductive Outcome (A : Type) :=
  | Ok (a : A) (s : Page)
  | Throw (e : Exception) (s : Page).
Arguments Ok {A} a s.
Arguments Throw {A} e s.

Definition JS (A : Type) : Type := Page → Outcome A.

#[global] Instance JS_ret : MRet JS := λ A a s, Ok a s.

#[global] Instance JS_bind : MBind JS := λ A B f m s,
  match m s with
  | Ok a s' => f a s'
  | Throw e s' => Throw e s'
  end.

Definition throw {A} (e : Exception) : JS A := λ s, Throw e s.
Definition gets {A} (f : Page → A) : JS A := λ s, Ok (f s) s.
Definition modify (f : Page → Page) : JS unit := λ s, Ok tt (f s).

(** The page a computation leaves behind, returned or thrown. *)
Definition page_of {A} (o : Outcome A) : Page :=
  match o with
  | Ok _ s => s
  | Throw _ s => s
  end.

Definition returns {A} (o : Outcome A) : bool :=
  match o with
  | Ok _ _ => true
  | Throw _ _ => false
  end.

(** [if (x)] on a reference: [null] is falsy, any object is truthy (an empty
    [NodeList] too).  On a string or [undefined]: the empty string is falsy. *)
Definition truthy {A} (r : option A) : bool :=
  match r with
  | Some _ => true
  | None => false
  end.

Definition truthy_string (v : option string) : bool :=
  match v with
  | Some x => negb (String.eqb x "")
  | None => false
  end.

(** Reading a property of [null] throws a [TypeError]. *)
Definition deref {A} (r : option A) : JS A :=
  match r with
  | Some x => mret x
  | None => throw TypeError
  end.

(** Element access through a node reference. *)
Definition update (node : nat) (f : Element → Element) : JS unit :=
  modify (λ s, set_nodes (alter f node (nodes s)) s).

Definition getAttribute (node : nat) (name : string) : JS (option string) :=
  gets (λ s, e ← nodes s !! node; attributes e !! name).

Definition removeAttribute (node : nat) (name : string) : JS unit :=
  update node (with_attributes (delete name)).

Definition setAttribute (node : nat) (name v : string) : JS unit :=
  update node (with_attributes (<[name := v]>)).

Definition classList_add (node : nat) (token : string) : JS unit :=
  update node (with_classList (DOMTokenList.add token)).

Definition classList_remove (node : nat) (token : string) : JS unit :=
  update node (with_classList (DOMTokenList.remove token)).

(** [element.style.property = v]: the empty string removes the declaration. *)
Definition set_property (property v : string) (m : gmap string string) : gmap string string :=
  if String.eqb v "" then delete property m else <[property := v]> m.

Definition style_set (node : nat) (property v : string) : JS unit :=
  update node (with_style (set_property property v)).

Definition body_style_set (property v : string) : JS unit :=
  modify (λ s, set_body (with_style (set_property property v) (body s)) s).

(** [NodeList.prototype.forEach] and [Array.prototype.forEach]. *)
Fixpoint forEach {A} (l : list A) (f : A → JS unit) : JS unit :=
  match l with
  | [] => mret tt
  | x :: l' => f x;; forEach l' f
  end.

(** The calls that only leave a trace. *)
Definition emit (e : Effect) : JS unit :=
  modify (λ s, set_effects (effects s ++ [e]) s).

Definition preventDefault : JS unit := modify (set_defaultPrevented true).

Definition addEventListener (target : Target) (type : string) (h : Handler) : JS unit :=
  modify (λ s, set_listeners (listeners s ++
    [{| listener_target := target; listener_type := type; listener_handler := h |}]) s).

(** ** Timers

    [setTimeout] queues the callback with a fresh identifier and returns it;
    [clearTimeout] drops the timer with that identifier, and does nothing on
    [undefined]. *)
Definition setTimeout (f : Callback) (wait : Z) : JS nat := λ s,
  Ok (next_timer s)
     (set_next_timer (S (next_timer s))
        (set_timers (timers s ++
           [{| timer_id := next_timer s; due := now s + wait; callback := f |}]) s)).

Definition clearTimeout (id : option nat) : JS unit :=
  match id with
  | Some i => modify (λ s, set_timers (filter (λ t, timer_id t ≠ i) (timers s)) s)
  | None => mret tt
  end.

(** [debounce(func, wait)] (lines 42-48).  Each call of [debounce] creates one
    [timeout] variable; the script calls it twice, so there are two.  Both
    calls pass [wait], so the default [CONFIG.debounceDelay] is never used. *)
Inductive Debounced :=
  | ForNavbar
  | ForBackToTop.

Definition timeout (d : Debounced) (s : Page) : option nat :=
  match d with
  | ForNavbar => navbar_timeout s
  | ForBackToTop => backToTop_timeout s
  end.

Definition set_timeout (d : Debounced) (v : option nat) : Page → Page :=
  match d with
  | ForNavbar => set_navbar_timeout v
  | ForBackToTop => set_backToTop_timeout v
  end.

Definition debounce (d : Debounced) (func : Callback) (wait : Z) : JS unit :=
  old ← gets (timeout d);
  clearTimeout old;;
  id ← setTimeout func wait;
  modify (set_timeout d (Some id)).

(** ** The browser calls the script makes *)

Definition document_querySelector (selector : string) : JS (option nat) := λ s,
  match querySelector s selector with
  | Invalid => Throw SyntaxError s
  | NoMatch => Ok None s
  | Match node => Ok (Some node) s
  end.

Definition get_offsetTop (node : nat) : JS Z :=
  gets (λ s, default 0 (offsetTop <$> nodes s !! node)).

Definition window_scrollTo (top : Z) (behavior : string) : JS unit :=
  emit (ScrollTo top behavior).

Definition alert (message : string) : JS unit := emit (Alert message).

Definition form_reset (form : nat) : JS unit :=
  update form (with_controls (fmap reset_control)).

Definition observe (img : nat) : JS unit :=
  modify (λ s, if bool_decide (img ∈ observed s) then s
               else set_observed (observed s ++ [img]) s).

Definition unobserve (img : nat) : JS unit :=
  modify (λ s, set_observed (filter (λ i, i ≠ img) (observed s)) s).

(** [a === b] on values that are a string or [null]. *)
Definition strict_eq (a b : option string) : bool := bool_decide (a = b).

(** [window.scrollY > threshold]; the offset is a fraction of a pixel on some
    displays, the thresholds are whole. *)
Definition exceeds (y : Q) (threshold : Z) : bool :=
  negb (Qle_bool y (inject_Z threshold)).

(** The selector of line 91, which holds two double quotes. *)
Definition anchor_selector : string :=
  "a[href^=" ++ String "034"%char ("#" ++ String "034"%char "]").

(** ** CACHE DOM ELEMENTS (lines 80-92) *)

Definition cacheDOMElements : JS unit :=
  modify (λ s, set_DOM
    {| loader := getElementById s "loader";
       navbar := getElementById s "navbar";
       mobileToggle := getElementById s "mobile-toggle";
       mobileMenu := getElementById s "mobile-menu";
       mobileClose := getElementById s "mobile-close";
       mobileLinks := Some (querySelectorAll s ".mobile-link");
       filterBtns := Some (querySelectorAll s ".filter-btn");
       bikeCards := Some (querySelectorAll s ".bike-card");
       backToTop := getElementById s "backToTop";
       contactForm := getElementById s "contact-form";
       navLinks := Some (querySelectorAll s anchor_selector) |} s).

(** ** LOADING SCREEN (lines 97-109) *)

Definition loader_hide : JS unit :=
  l ← gets (λ s, loader (DOM s));
  node ← deref l;
  style_set node "display" "none".

Definition loader_fade : JS unit :=
  l ← gets (λ s, loader (DOM s));
  if truthy l then
    node ← deref l;
    style_set node "opacity" "0";;
    _ ← setTimeout LoaderHide 300;
    mret tt
  else mret tt.

Definition on_load : JS unit :=
  _ ← setTimeout LoaderFade CONFIG.loadingDelay;
  mret tt.

Definition initLoader : JS unit := addEventListener Window "load" OnLoad.

(** ** NAVIGATION (lines 118-175) *)

(** The function that [debounce] wraps at line 118. *)
Definition navbar_scroll : JS unit :=
  nav ← gets (λ s, navbar (DOM s));
  if negb (truthy nav) then mret tt
  else
    y ← gets scrollY;
    if exceeds y CONFIG.scrollThreshold then
      node ← deref nav;
      classList_add node "scrolled"
    else
      node ← deref nav;
      classList_remove node "scrolled".

Definition handleNavbarScroll : JS unit := debounce ForNavbar NavbarScroll 10.

Definition toggleMobileMenu (show : bool) : JS unit :=
  menu ← gets (λ s, mobileMenu (DOM s));
  if negb (truthy menu) then mret tt
  else if show then
    node ← deref menu;
    classList_add node "active";;
    body_style_set "overflow" "hidden"
  else
    node ← deref menu;
    classList_remove node "active";;
    body_style_set "overflow" "".

Definition initNavigation : JS unit :=
  addEventListener Window "scroll" OnNavbarScroll;;
  toggle ← gets (λ s, mobileToggle (DOM s));
  (if truthy toggle then
     node ← deref toggle;
     addEventListener (Node node) "click" OnMenuOpen
   else mret tt);;
  close ← gets (λ s, mobileClose (DOM s));
  (if truthy close then
     node ← deref close;
     addEventListener (Node node) "click" OnMenuClose
   else mret tt);;
  links ← gets (λ s, mobileLinks (DOM s));
  (if truthy links then
     l ← deref links;
     forEach l (λ link, addEventListener (Node link) "click" OnMenuClose)
   else mret tt);;
  menu ← gets (λ s, mobileMenu (DOM s));
  if truthy menu then
    node ← deref menu;
    addEventListener (Node node) "click" OnMenuOutside
  else mret tt.

(** The listener of lines 169-173; [target] is [e.target]. *)
Definition menu_outside_click (target : Target) : JS unit :=
  menu ← gets (λ s, mobileMenu (DOM s));
  if bool_decide (Some target = Node <$> menu) then toggleMobileMenu false
  else mret tt.

(** ** SMOOTH SCROLL (lines 180-202) *)

(** The listener of lines 184-200; [this] is the link. *)
Definition anchor_click (this : nat) : JS unit :=
  attr ← getAttribute this "href";
  href ← deref attr;
  if String.prefix "#" href then
    preventDefault;;
    target ← document_querySelector href;
    if truthy target then
      node ← deref target;
      top ← get_offsetTop node;
      window_scrollTo (top - 80) "smooth"
    else mret tt
  else mret tt.

Definition initSmoothScroll : JS unit :=
  links ← gets (λ s, navLinks (DOM s));
  if negb (truthy links) then mret tt
  else
    l ← deref links;
    forEach l (λ link, addEventListener (Node link) "click" OnAnchorClick).

(** ** CATEGORY FILTER (lines 211-251) *)

Definition filterBikes (category : option string) : JS unit :=
  cards ← gets (λ s, bikeCards (DOM s));
  if negb (truthy cards) then mret tt
  else
    l ← deref cards;
    forEach l (λ card,
      cardCategory ← getAttribute card "data-category";
      let shouldShow := strict_eq category (Some "all") || strict_eq cardCategory category in
      if shouldShow then
        style_set card "display" "block";;
        style_set card "opacity" "1";;
        style_set card "transform" "translateY(0)"
      else
        style_set card "opacity" "0";;
        style_set card "transform" "translateY(20px)";;
        _ ← setTimeout (HideCard card) 300;
        mret tt).

(** The closure of lines 227-229. *)
Definition hide_card (card : nat) : JS unit := style_set card "display" "none".

(** The listener of lines 241-249; [this] is the button. *)
Definition filter_click (this : nat) : JS unit :=
  btns ← gets (λ s, filterBtns (DOM s));
  l ← deref btns;
  forEach l (λ b, classList_remove b "active");;
  classList_add this "active";;
  category ← getAttribute this "data-category";
  filterBikes category.

Definition initCategoryFilter : JS unit :=
  btns ← gets (λ s, filterBtns (DOM s));
  if negb (truthy btns) then mret tt
  else
    l ← deref btns;
    forEach l (λ btn, addEventListener (Node btn) "click" OnFilterClick).

(** ** BACK TO TOP (lines 260-286) *)

(** The function that [debounce] wraps at line 260. *)
Definition back_to_top : JS unit :=
  btn ← gets (λ s, backToTop (DOM s));
  if negb (truthy btn) then mret tt
  else
    y ← gets scrollY;
    if exceeds y CONFIG.backToTopThreshold then
      node ← deref btn;
      classList_add node "visible"
    else
      node ← deref btn;
      classList_remove node "visible".

Definition handleBackToTop : JS unit := debounce ForBackToTop BackToTop 100.

Definition back_to_top_click : JS unit := window_scrollTo 0 "smooth".

Definition initBackToTop : JS unit :=
  btn ← gets (λ s, backToTop (DOM s));
  if negb (truthy btn) then mret tt
  else
    addEventListener Window "scroll" OnBackToTopScroll;;
    node ← deref btn;
    addEventListener (Node node) "click" OnBackToTopClick.

(** ** CONTACT FORM (lines 291-303) *)

Definition success_message : string := "شكراً لرسالتك! سنتواصل معك قريباً.".

(** The listener of lines 294-302; [this] is the form. *)
Definition contact_submit (this : nat) : JS unit :=
  preventDefault;;
  alert success_message;;
  form_reset this.

Definition initContactForm : JS unit :=
  form ← gets (λ s, contactForm (DOM s));
  if negb (truthy form) then mret tt
  else
    node ← deref form;
    addEventListener (Node node) "submit" OnSubmit.

(** ** LAZY LOADING IMAGES (lines 324-345) *)

Record IntersectionObserverEntry := {
  isIntersecting : bool;
  target : nat
}.

(** The observer callback of lines 326-337.  [img.dataset.src] is the
    [data-src] attribute, [img.src = v] sets the [src] attribute and starts
    the fetch. *)
Definition imageObserver_callback (entries : list IntersectionObserverEntry) : JS unit :=
  forEach entries (λ entry,
    if isIntersecting entry then
      let img := target entry in
      deferred ← getAttribute img "data-src";
      if truthy_string deferred then
        v ← deref deferred;
        setAttribute img "src" v;;
        emit (SetSrc img v);;
        removeAttribute img "data-src";;
        unobserve img
      else mret tt
    else mret tt).

Definition initLazyLoading : JS unit :=
  supported ← gets hasIntersectionObserver;
  if (supported : bool) then
    imgs ← gets (λ s, querySelectorAll s "img[data-src]");
    forEach imgs observe
  else mret tt.

(** ** INITIALIZATION (lines 369-397)

    [initAOS], [logPerformance] and the console banner touch nothing that the
    rest of the script reads, and are left out. *)
Definition init : JS unit :=
  cacheDOMElements;;
  initLoader;;
  initNavigation;;
  initSmoothScroll;;
  initCategoryFilter;;
  initBackToTop;;
  initContactForm;;
  initLazyLoading.

(** ** Running listeners and timers *)

(** A listener whose [this] must be an element: on the window the first
    element method it calls is missing. *)
Definition on_element (this : Target) (f : nat → JS unit) : JS unit :=
  match this with
  | Node node => f node
  | Window => throw TypeError
  end.

(** The body of each registered function; [this] is the target the listener
    was added to and [e_target] is [e.target]. *)
Definition handle (h : Handler) (this e_target : Target) : JS unit :=
  match h with
  | OnLoad => on_load
  | OnNavbarScroll => handleNavbarScroll
  | OnMenuOpen => toggleMobileMenu true
  | OnMenuClose => toggleMobileMenu false
  | OnMenuOutside => menu_outside_click e_target
  | OnAnchorClick => on_element this anchor_click
  | OnFilterClick => on_element this filter_click
  | OnBackToTopScroll => handleBackToTop
  | OnBackToTopClick => back_to_top_click
  | OnSubmit => on_element this contact_submit
  end.

Definition run_callback (f : Callback) : JS unit :=
  match f with
  | LoaderFade => loader_fade
  | LoaderHide => loader_hide
  | NavbarScroll => navbar_scroll
  | BackToTop => back_to_top
  | HideCard card => hide_card card
  end.

(** The timer that fires next: the earliest due, and among timers due at the
    same time the one queued first.  The rest of the queue keeps its order. *)
Fixpoint pop_earliest (l : list Timer) : option (Timer * list Timer) :=
  match l with
  | [] => None
  | t :: l' =>
    match pop_earliest l' with
    | Some (t', rest) => if due t' <? due t then Some (t', t :: rest) else Some (t, l')
    | None => Some (t, l')
    end
  end.

(** A timer fires at its due time or later; an exception thrown by its
    callback is reported and the event loop goes on. *)
Definition fire (t : Timer) (s : Page) : Page :=
  page_of (run_callback (callback t) (set_now (Z.max (now s) (due t)) s)).

(** How many timers a queued timer can make fire, itself included:
    [LoaderFade] queues one more. *)
Definition weight (t : Timer) : nat :=
  match callback t with
  | LoaderFade => 2
  | _ => 1
  end.

Definition budget (l : list Timer) : nat := sum_list_with weight l.

(** Fire, in order, the timers due up to [limit]. *)
Fixpoint run (fuel : nat) (limit : Z) (s : Page) : Page :=
  match fuel with
  | O => s
  | S fuel' =>
    match pop_earliest (timers s) with
    | Some (t, rest) =>
      if due t <=? limit then run fuel' limit (fire t (set_timers rest s)) else s
    | None => s
    end
  end.

(** [dt] milliseconds pass with no other event. *)
Definition elapse (dt : Z) (s : Page) : Page :=
  set_now (now s + dt) (run (budget (timers s)) (now s + dt) s).

(** The listeners added to [this] for events of type [type], in the order of
    registration. *)
Definition registered (this : Target) (type : string) (s : Page) : list Handler :=
  listener_handler <$>
    filter (λ l, listener_target l = this ∧ listener_type l = type) (listeners s).

Definition dispatch_at (this : Target) (type : string) (e_target : Target) (s : Page) : Page :=
  foldl (λ s h, page_of (handle h this e_target s)) s (registered this type s).

(** What happens to the page.  A click names its propagation path: the
    element clicked, then its ancestors. *)
Inductive Event :=
  | Scroll (y : Q)
  | Click (path : list nat)
  | Submit (form : nat)
  | PageLoad
  | Elapse (dt : Z)
  | Intersection (entries : list IntersectionObserverEntry).

Definition step (ev : Event) (s : Page) : Page :=
  match ev with
  | Scroll y =>
    dispatch_at Window "scroll" Window (set_defaultPrevented false (set_scrollY y s))
  | Click path =>
    match path with
    | [] => s
    | clicked :: _ =>
      dispatch_at Window "click" (Node clicked)
        (foldl (λ s node, dispatch_at (Node node) "click" (Node clicked) s)
           (set_defaultPrevented false s) path)
    end
  | Submit form =>
    dispatch_at (Node form) "submit" (Node form) (set_defaultPrevented false s)
  | PageLoad =>
    dispatch_at Window "load" Window (set_defaultPrevented false s)
  | Elapse dt => elapse dt s
  | Intersection entries =>
    page_of (imageObserver_callback (filter (λ e, target e ∈ observed s) entries) s)
  end.

(** ** A sample page, for concrete runs *)

Definition element (cls : list string) (attrs : list (string * string)) (top : Z) : Element :=
  {| attributes := list_to_map attrs; classList := cls; style := ∅;
     offsetTop := top; controls := [] |}.

Definition sample_form : Element :=
  {| attributes := {[ "id" := "contact-form" ]}; classList := []; style := ∅;
     offsetTop := 2000;
     controls := [ {| value := "Karim"; defaultValue := "" |};
                   {| value := "Bonjour"; defaultValue := "Votre message" |} ] |}.

Definition sample_nodes : list Element :=
  [ element [] [("id", "loader")] 0;                                   (* 0 *)
    element [] [("id", "navbar")] 0;                                   (* 1 *)
    element [] [("id", "mobile-menu")] 0;                              (* 2 *)
    element ["filter-btn"; "active"] [("data-category", "all")] 400;   (* 3 *)
    element ["filter-btn"] [("data-category", "trail")] 400;           (* 4 *)
    element ["filter-btn"] [("data-category", "sport")] 400;           (* 5 *)
    element ["bike-card"] [("data-category", "trail")] 500;            (* 6 *)
    element ["bike-card"] [("data-category", "sport")] 500;            (* 7 *)
    element ["bike-card"] [("data-category", "trail")] 900;            (* 8 *)
    element [] [("id", "backToTop")] 3000;                             (* 9 *)
    sample_form;                                                       (* 10 *)
    element [] [("href", "#bikes")] 0;                                 (* 11 *)
    element [] [("href", "#nowhere")] 0;                               (* 12 *)
    element [] [("id", "bikes")] 640;                                  (* 13 *)
    element [] [("data-src", "img/trail.jpg")] 520;                    (* 14 *)
    element [] [("data-src", "")] 920;                                 (* 15 *)
    element [] [("src", "img/logo.png")] 10;                           (* 16 *)
    element [] [("id", "mobile-toggle")] 0;                            (* 17 *)
    element [] [("id", "mobile-close")] 0;                             (* 18 *)
    element ["mobile-link"] [("href", "#bikes")] 40 ].                 (* 19 *)

Definition sample_getElementById (id : string) : option nat :=
  if String.eqb id "loader" then Some 0%nat
  else if String.eqb id "navbar" then Some 1%nat
  else if String.eqb id "mobile-menu" then Some 2%nat
  else if String.eqb id "mobile-toggle" then Some 17%nat
  else if String.eqb id "mobile-close" then Some 18%nat
  else if String.eqb id "backToTop" then Some 9%nat
  else if String.eqb id "contact-form" then Some 10%nat
  else None.

Definition sample_querySelectorAll (selector : string) : list nat :=
  if String.eqb selector ".filter-btn" then [3; 4; 5]%nat
  else if String.eqb selector ".bike-card" then [6; 7; 8]%nat
  else if String.eqb selector anchor_selector then [11; 12; 19]%nat
  else if String.eqb selector ".mobile-link" then [19]%nat
  else if String.eqb selector "img[data-src]" then [14; 15]%nat
  else [].

Definition sample_querySelector (selector : string) : Selected :=
  if String.eqb selector "#bikes" then Match 13
  else if String.eqb selector "#" then Invalid
  else NoMatch.

Definition sample_document : Page :=
  {| nodes := sample_nodes;
     body := element [] [] 0;
     getElementById := sample_getElementById;
     querySelectorAll := sample_querySelectorAll;
     querySelector := sample_querySelector;
     scrollY := 0%Q;
     hasIntersectionObserver := true;
     now := 0;
     timers := [];
     next_timer := 1;
     listeners := [];
     DOM := {| loader := None; navbar := None; mobileToggle := None; mobileMenu := None;
               mobileClose := None; mobileLinks := None; filterBtns := None;
               bikeCards := None; backToTop := None; contactForm := None;
               navLinks := None |};
     navbar_timeout := None;
     backToTop_timeout := None;
     observed := [];
     defaultPrevented := false;
     effects := [] |}.

(** The sample page once the script has started. *)
Definition sample : Page := page_of (init sample_document).

(** ** UTILITY FUNCTIONS the script defines and never calls (lines 53-75) *)

(** [element.getBoundingClientRect()]: the edges of the element's box, in
    pixels from the top left corner of the viewport. *)
Module DOMRect.
Record t := {
  top : Q;
  left : Q;
  bottom : Q;
  right : Q
}.
End DOMRect.

(** [isInViewport] (lines 53-61), on the box the browser reports for the
    element and on [window.innerWidth] and [window.innerHeight]. *)
Definition isInViewport (rect : DOMRect.t) (innerWidth innerHeight : Q) : bool :=
  Qle_bool 0 (DOMRect.top rect) &&
  Qle_bool 0 (DOMRect.left rect) &&
  Qle_bool (DOMRect.bottom rect) innerHeight &&
  Qle_bool (DOMRect.right rect) innerWidth.

(** [String.prototype.split] with a separator of one character: the pieces
    between the separators, empty pieces included; the empty string gives
    one empty piece. *)
Fixpoint split (separator : ascii) (s : string) : list string :=
  match s with
  | EmptyString => [EmptyString]
  | String c s' =>
    if Ascii.eqb c separator then EmptyString :: split separator s'
    else
      match split separator s' with
      | piece :: pieces => String c piece :: pieces
      | [] => [String c EmptyString]
      end
  end.

#[global] Instance Handler_eq_dec : EqDecision Handler.
Proof. solve_decision. Defined.

#[global] Instance Listener_eq_dec : EqDecision Listener.
Proof. solve_decision. Defined.

(** [addEventListener] and [removeEventListener] for a function that may be
    registered already: a listener with the same target, type and function
    is not added twice, and removing takes it out.  (The calls of [init]
    pass a function created for the call, or one added once; there
    [addEventListener] above is the same.) *)
Module EventTarget.
Definition addEventListener (this : Target) (type : string) (h : Handler) : JS unit :=
  modify (λ s,
    let x := {| listener_target := this; listener_type := type; listener_handler := h |} in
    if bool_decide (x ∈ listeners s) then s else set_listeners (listeners s ++ [x]) s).

Definition removeEventListener (this : Target) (type : string) (h : Handler) : JS unit :=
  modify (λ s,
    let x := {| listener_target := this; listener_type := type; listener_handler := h |} in
    set_listeners (filter (λ y, y ≠ x) (listeners s)) s).
End EventTarget.

(** Lines 66-68 and 73-75. *)
Definition addEvents (element : Target) (events : string) (handler : Handler) : JS unit :=
  forEach (split " " events) (λ event, EventTarget.addEventListener element event handler).

Definition removeEvents (element : Target) (events : string) (handler : Handler) : JS unit :=
  forEach (split " " events) (λ event, EventTarget.removeEventListener element event handler).

(** * Notions used to state the properties *)

(** ** The menu *)

(** The page after the menu is shown, or hidden. *)
Definition menu_shown (menu : nat) (s : Page) : Page :=
  set_body (with_style (<["overflow" := "hidden"]>) (body s))
    (set_nodes (alter (with_classList (DOMTokenList.add "active")) menu (nodes s)) s).

Definition menu_hidden (menu : nat) (s : Page) : Page :=
  set_body (with_style (delete "overflow") (body s))
    (set_nodes (alter (with_classList (DOMTokenList.remove "active")) menu (nodes s)) s).

(** ** Timers *)

(** What a callback does when it fires: it edits at most one element, and
    [LoaderFade] queues [LoaderHide]. *)
Definition edit (s : Page) (f : Callback) : option (nat * (Element → Element)) :=
  match f with
  | LoaderFade => (λ node, (node, with_style (<["opacity" := "0"]>))) <$> loader (DOM s)
  | LoaderHide => (λ node, (node, with_style (<["display" := "none"]>))) <$> loader (DOM s)
  | NavbarScroll =>
    (λ node, (node, with_classList
       (if exceeds (scrollY s) CONFIG.scrollThreshold
        then DOMTokenList.add "scrolled" else DOMTokenList.remove "scrolled")))
    <$> navbar (DOM s)
  | BackToTop =>
    (λ node, (node, with_classList
       (if exceeds (scrollY s) CONFIG.backToTopThreshold
        then DOMTokenList.add "visible" else DOMTokenList.remove "visible")))
    <$> backToTop (DOM s)
  | HideCard card => Some (card, with_style (<["display" := "none"]>))
  end.

(** The elements after the callback [f] has run. *)
Definition edited (s : Page) (f : Callback) : list Element :=
  match edit s f with
  | Some (node, g) => alter g node (nodes s)
  | None => nodes s
  end.

(** The timers that firing [t] queues. *)
Definition spawned (s : Page) (t : Timer) : list Timer :=
  match callback t, loader (DOM s) with
  | LoaderFade, Some _ =>
    [{| timer_id := next_timer s; due := Z.max (now s) (due t) + 300;
        callback := LoaderHide |}]
  | _, _ => []
  end.

(** ** The debounced handlers *)

(** Class membership of a node; a reference to no element has no class. *)
Definition has_class (token : string) (node : nat) (s : Page) : bool :=
  default false ((λ e, DOMTokenList.contains token (classList e)) <$> nodes s !! node).

(** The two debounced handlers side by side: the callback each one wraps,
    the class it toggles, on which element, past which threshold, and the
    delay it is debounced with (lines 118-126 and 260-268). *)
Definition debounced_callback (d : Debounced) : Callback :=
  match d with
  | ForNavbar => NavbarScroll
  | ForBackToTop => BackToTop
  end.

Definition debounced_token (d : Debounced) : string :=
  match d with
  | ForNavbar => "scrolled"
  | ForBackToTop => "visible"
  end.

Definition debounced_threshold (d : Debounced) : Z :=
  match d with
  | ForNavbar => CONFIG.scrollThreshold
  | ForBackToTop => CONFIG.backToTopThreshold
  end.

Definition debounced_element (d : Debounced) (s : Page) : option nat :=
  match d with
  | ForNavbar => navbar (DOM s)
  | ForBackToTop => backToTop (DOM s)
  end.

Definition debounced_wait (d : Debounced) : Z :=
  match d with
  | ForNavbar => 10
  | ForBackToTop => 100
  end.

(** ** The category filter *)

(** What the filter reads and writes. *)
Definition data_category (node : nat) (s : Page) : option string :=
  e ← nodes s !! node; attributes e !! "data-category".

(** The inline [display] of a node. *)
Definition display (node : nat) (s : Page) : option string :=
  e ← nodes s !! node; style e !! "display".

(** A card is visible unless its inline style says [display: none]. *)
Definition visible (node : nat) (s : Page) : Prop := display node s ≠ Some "none".

(** Line 216. *)
Definition shouldShow (category cardCategory : option string) : bool :=
  strict_eq category (Some "all") || strict_eq cardCategory category.

(** One turn of the loop of [filterBikes]. *)
Definition shown_style (e : Element) : Element :=
  with_style (<["transform" := "translateY(0)"]>)
    (with_style (<["opacity" := "1"]>) (with_style (<["display" := "block"]> ) e)).

Definition fading_style (e : Element) : Element :=
  with_style (<["transform" := "translateY(20px)"]>) (with_style (<["opacity" := "0"]>) e).

Definition filter_card (category : option string) (card : nat) (s : Page) : Page :=
  if shouldShow category (data_category card s) then
    set_nodes (alter shown_style card (nodes s)) s
  else
    set_next_timer (S (next_timer s))
      (set_timers (timers s ++
         [{| timer_id := next_timer s; due := now s + 300; callback := HideCard card |}])
         (set_nodes (alter fading_style card (nodes s)) s)).

(** The two class-list edits of the click listener (lines 243-244). *)
Definition deactivate (b : nat) (s : Page) : Page :=
  set_nodes (alter (with_classList (DOMTokenList.remove "active")) b (nodes s)) s.

Definition activate (b : nat) (s : Page) : Page :=
  set_nodes (alter (with_classList (DOMTokenList.add "active")) b (nodes s)) s.

Definition mark_active (this : nat) (btns : list nat) (s : Page) : Page :=
  activate this (foldl (λ s b, deactivate b s) s btns).

(** [stable s s']: from [s] to [s'] the cache, the set of nodes and every
    attribute are the same. *)
Definition stable (s s' : Page) : Prop :=
  DOM s' = DOM s ∧ length (nodes s') = length (nodes s) ∧
  ∀ node, attributes <$> nodes s' !! node = attributes <$> nodes s !! node.

(** The page after the click listener of a filter button. *)
Definition filter_clicked (this : nat) (btns : list nat) (s : Page) : Page :=
  let marked := mark_active this btns s in
  match bikeCards (DOM s) with
  | Some cards =>
    foldl (λ s card, filter_card (data_category this marked) card s) marked cards
  | None => marked
  end.

(** The page after a sequence of clicks on filter buttons. *)
Definition click_filters (clicks : list nat) (s : Page) : Page :=
  foldl (λ s this, page_of (filter_click this s)) s clicks.

(** The element a queued timer will set to [display: none], itself or, for
    [LoaderFade], through the timer it queues. *)
Definition hides (s : Page) (t : Timer) : option nat :=
  match callback t with
  | HideCard card => Some card
  | LoaderFade | LoaderHide => loader (DOM s)
  | NavbarScroll | BackToTop => None
  end.

(** The claim about a click on the filter button [this], [dt] ms later. *)
Definition filter_shows_exactly (s : Page) (this : nat) (cards : list nat) (dt : Z) : Prop :=
  let category := data_category this s in
  let s' := elapse dt (page_of (filter_click this s)) in
  ∀ card, card ∈ cards → is_Some (nodes s !! card) →
    data_category card s' = data_category card s ∧
    (visible card s' ↔ category = Some "all" ∨ data_category card s = category).

(** ** Lazy loading *)

(** What the lazy loader reads and writes. *)
Definition attribute (name : string) (node : nat) (s : Page) : option string :=
  e ← nodes s !! node; attributes e !! name.

Definition is_load (img : nat) (e : Effect) : bool :=
  match e with
  | SetSrc i _ => bool_decide (i = img)
  | _ => false
  end.

(** The assignments to the [src] of [img] so far. *)
Definition loads (img : nat) (s : Page) : list Effect :=
  filter (λ e, is_load img e) (effects s).

(** Lines 331-333. *)
Definition load_image (img : nat) (v : string) (s : Page) : Page :=
  let s1 := set_nodes (alter (with_attributes (<["src" := v]>)) img (nodes s)) s in
  let s2 := set_effects (effects s1 ++ [SetSrc img v]) s1 in
  let s3 := set_nodes (alter (with_attributes (delete "data-src")) img (nodes s2)) s2 in
  set_observed (filter (λ i, i ≠ img) (observed s3)) s3.

(** One turn of the loop of the observer callback. *)
Definition observe_entry (entry : IntersectionObserverEntry) (s : Page) : Page :=
  if isIntersecting entry then
    match attribute "data-src" (target entry) s with
    | Some v => if truthy_string (Some v) then load_image (target entry) v s else s
    | None => s
    end
  else s.

(** The page after the observer callback has run on each batch in turn. *)
Definition deliver (batches : list (list IntersectionObserverEntry)) (s : Page) : Page :=
  foldl (λ s entries, page_of (imageObserver_callback entries s)) s batches.

(** The claim about the image [img] whose deferred source is [v], for the
    batch [entries] and the batches delivered later. *)
Definition deferred_source_applied (s : Page) (img : nat) (v : string)
    (entries : list IntersectionObserverEntry)
    (later : list (list IntersectionObserverEntry)) : Prop :=
  let s' := page_of (imageObserver_callback entries s) in
  let s'' := deliver later s' in
  attribute "src" img s' = Some v ∧
  attribute "data-src" img s' = None ∧
  (img ∉ observed s') ∧
  loads img s' = loads img s ++ [SetSrc img v] ∧
  nodes s'' !! img = nodes s' !! img ∧
  (img ∉ observed s'') ∧
  loads img s'' = loads img s'.

(** ** The contact form and the in-page links *)

(** The page after the submit listener, when [f] is what happens to each
    control of the form. *)
Definition submitted (f : Control → Control) (form : nat) (s : Page) : Page :=
  set_nodes (alter (with_controls (fmap f)) form (nodes s))
    (set_effects (effects s ++ [Alert success_message]) (set_defaultPrevented true s)).

Definition clear_control (c : Control) : Control :=
  {| value := ""; defaultValue := defaultValue c |}.

(** The claim about a submit: default prevented, notification shown, every
    field empty, nothing else changed. *)
Definition submit_clears_fields (s : Page) (form : nat) : Prop :=
  contact_submit form s = Ok tt (submitted clear_control form s).

(** The page after a click on a link whose target resolves to [e]. *)
Definition scrolled_to (e : Element) (s : Page) : Page :=
  set_effects (effects s ++ [ScrollTo (offsetTop e - 80) "smooth"])
    (set_defaultPrevented true s).

(** The claim about a click on an in-page link, when [unresolved] is what
    the click does to the page if the selector selects nothing. *)
Definition anchor_click_claim (unresolved : Page → Page) (s : Page) (link : nat) : Prop :=
  ∀ href, attribute "href" link s = Some href → String.prefix "#" href = true →
    (∀ node e, querySelector s href = Match node → nodes s !! node = Some e →
       anchor_click link s = Ok tt (scrolled_to e s)) ∧
    (querySelector s href = NoMatch → anchor_click link s = Ok tt (unresolved s)).

(** ** Absent elements *)

(** What a visitor can tell of the page: the elements, the body, and what
    has left the page.  Queued timers and registered listeners are not part
    of it. *)
Definition page_state (s : Page) : list Element * Element * list Effect :=
  (nodes s, body s, effects s).

(** The operations of the script that depend on a cached element. *)
Inductive Guarded :=
  | LoaderFadeOut
  | NavbarScrollEffect
  | NavbarScrollDebounced
  | MenuToggle (show : bool)
  | MenuOutsideClick (e_target : Target)
  | NavigationInit
  | SmoothScrollInit
  | FilterCards (category : option string)
  | CategoryFilterInit
  | BackToTopEffect
  | BackToTopDebounced
  | BackToTopInit
  | ContactFormInit
  | LazyLoadingInit.

Definition operation (g : Guarded) : JS unit :=
  match g with
  | LoaderFadeOut => loader_fade
  | NavbarScrollEffect => navbar_scroll
  | NavbarScrollDebounced => handleNavbarScroll
  | MenuToggle show => toggleMobileMenu show
  | MenuOutsideClick e_target => menu_outside_click e_target
  | NavigationInit => initNavigation
  | SmoothScrollInit => initSmoothScroll
  | FilterCards category => filterBikes category
  | CategoryFilterInit => initCategoryFilter
  | BackToTopEffect => back_to_top
  | BackToTopDebounced => handleBackToTop
  | BackToTopInit => initBackToTop
  | ContactFormInit => initContactForm
  | LazyLoadingInit => initLazyLoading
  end.

Definition missing {A} (l : option (list A)) : Prop := l = None ∨ l = Some [].

(** The element an operation needs is absent: the cached reference is null,
    or the collection is null or empty. *)
Definition required_absent (g : Guarded) (s : Page) : Prop :=
  match g with
  | LoaderFadeOut => loader (DOM s) = None
  | NavbarScrollEffect | NavbarScrollDebounced => navbar (DOM s) = None
  | MenuToggle _ | MenuOutsideClick _ => mobileMenu (DOM s) = None
  | NavigationInit =>
    mobileToggle (DOM s) = None ∧ mobileClose (DOM s) = None ∧
    missing (mobileLinks (DOM s)) ∧ mobileMenu (DOM s) = None
  | SmoothScrollInit => missing (navLinks (DOM s))
  | FilterCards _ => missing (bikeCards (DOM s))
  | CategoryFilterInit => missing (filterBtns (DOM s))
  | BackToTopEffect | BackToTopDebounced | BackToTopInit => backToTop (DOM s) = None
  | ContactFormInit => contactForm (DOM s) = None
  | LazyLoadingInit =>
    hasIntersectionObserver s = false ∨ querySelectorAll s "img[data-src]" = []
  end.

(** The operations that, with their element absent, still queue a timer or
    add the scroll listener. *)
Definition bookkeeping (g : Guarded) : bool :=
  match g with
  | NavbarScrollDebounced | BackToTopDebounced | NavigationInit => true
  | _ => false
  end.

(** ** The script once started *)

Definition add_listeners (l : list Listener) (s : Page) : Page :=
  set_listeners (listeners s ++ l) s.

Definition on_click (h : Handler) (node : nat) : Listener :=
  {| listener_target := Node node; listener_type := "click"; listener_handler := h |}.

Definition on_window (type : string) (h : Handler) : Listener :=
  {| listener_target := Window; listener_type := type; listener_handler := h |}.

(** The listeners each part of [init] adds, read off the cache. *)
Definition loader_wiring : list Listener := [on_window "load" OnLoad].

Definition navigation_wiring (D : DOMCache) : list Listener :=
  [on_window "scroll" OnNavbarScroll] ++
  option_list (on_click OnMenuOpen <$> mobileToggle D) ++
  option_list (on_click OnMenuClose <$> mobileClose D) ++
  (on_click OnMenuClose <$> default [] (mobileLinks D)) ++
  option_list (on_click OnMenuOutside <$> mobileMenu D).

Definition smooth_scroll_wiring (D : DOMCache) : list Listener :=
  on_click OnAnchorClick <$> default [] (navLinks D).

Definition category_filter_wiring (D : DOMCache) : list Listener :=
  on_click OnFilterClick <$> default [] (filterBtns D).

Definition back_to_top_wiring (D : DOMCache) : list Listener :=
  match backToTop D with
  | Some node => [on_window "scroll" OnBackToTopScroll; on_click OnBackToTopClick node]
  | None => []
  end.

Definition contact_form_wiring (D : DOMCache) : list Listener :=
  option_list
    ((λ node, {| listener_target := Node node; listener_type := "submit";
                 listener_handler := OnSubmit |}) <$> contactForm D).

Definition wiring (D : DOMCache) : list Listener :=
  loader_wiring ++ navigation_wiring D ++ smooth_scroll_wiring D ++
  category_filter_wiring D ++ back_to_top_wiring D ++ contact_form_wiring D.

(** The cache [cacheDOMElements] fills in. *)
Definition cached (s : Page) : DOMCache := DOM (page_of (cacheDOMElements s)).

(** Timer identifiers are handed out in increasing order: every identifier
    in the queue or held by a debounced handler is below the next one. *)
Definition timers_fresh (s : Page) : Prop :=
  (∀ t, t ∈ timers s → (timer_id t < next_timer s)%nat) ∧
  (∀ d i, timeout d s = Some i → (i < next_timer s)%nat).

(** The script has started: the listeners are those of [init], and timer
    identifiers are fresh. *)
Definition started (s : Page) : Prop :=
  listeners s = wiring (DOM s) ∧ timers_fresh s.

(** What no listener, callback or timer changes. *)
Definition keeps (s s' : Page) : Prop :=
  listeners s' = listeners s ∧ DOM s' = DOM s ∧ (timers_fresh s → timers_fresh s').

(** A document on which nothing has run yet. *)
Definition untouched (s : Page) : Prop :=
  listeners s = [] ∧ timers s = [] ∧ navbar_timeout s = None ∧ backToTop_timeout s = None.

(** The listeners a scroll event runs. *)
Definition on_scroll (x : Listener) : Prop :=
  listener_target x = Window ∧ listener_type x = "scroll".

(** ** A page without the elements *)

(** A document with none of the elements the script looks for. *)
Definition bare_document : Page :=
  {| nodes := [element [] [] 0];
     body := element [] [] 0;
     getElementById := λ _, None;
     querySelectorAll := λ _, [];
     querySelector := λ _, NoMatch;
     scrollY := 0%Q;
     hasIntersectionObserver := true;
     now := 0;
     timers := [];
     next_timer := 1;
     listeners := [];
     DOM := DOM sample_document;
     navbar_timeout := None;
     backToTop_timeout := None;
     observed := [];
     defaultPrevented := false;
     effects := [] |}.

Definition bare : Page := page_of (init bare_document).


(** * Notions for the properties of the whole script *)

(** ** The pages the script can be in *)

(** A document the script has not run on: no listener, no timer, nothing
    observed, nothing sent out. *)
Definition pristine (s : Page) : Prop :=
  untouched s ∧ observed s = [] ∧ effects s = [].

(** [reachable s0 s]: the script started on the pristine document [s0] and
    the page is now [s].  After [init] the browser moves the page one call
    at a time: it changes the scroll offset, starts an event, advances the
    clock, calls a registered listener, fires the timer that is next, or
    delivers intersection entries for observed images.  Events ([step]) are
    sequences of such moves. *)
Inductive reachable (s0 : Page) : Page → Prop :=
  | reach_init :
      pristine s0 → reachable s0 (page_of (init s0))
  | reach_scroll y s :
      reachable s0 s → reachable s0 (set_scrollY y s)
  | reach_event s :
      reachable s0 s → reachable s0 (set_defaultPrevented false s)
  | reach_clock v s :
      reachable s0 s → reachable s0 (set_now v s)
  | reach_listener x e_target s :
      reachable s0 s → x ∈ listeners s →
      reachable s0 (page_of (handle (listener_handler x) (listener_target x) e_target s))
  | reach_timer t rest s :
      reachable s0 s → pop_earliest (timers s) = Some (t, rest) →
      reachable s0 (fire t (set_timers rest s))
  | reach_intersection entries s :
      reachable s0 s → (∀ entry, entry ∈ entries → target entry ∈ observed s) →
      reachable s0 (page_of (imageObserver_callback entries s)).

(** The page after a sequence of events. *)
Definition run_events (evs : list Event) (s : Page) : Page :=
  foldl (λ s ev, step ev s) s evs.

(** ** The timer queue *)

#[global] Instance Debounced_eq_dec : EqDecision Debounced.
Proof. solve_decision. Defined.

(** The queue is in order: identifiers are fresh and pairwise different, a
    queued debounced callback is the one its handler remembers, the timer a
    handler remembers is a call of its own function, and [LoaderHide] is
    queued only when there is a loader. *)
Definition timers_ok (s : Page) : Prop :=
  timers_fresh s ∧
  NoDup (timer_id <$> timers s) ∧
  (∀ d t, t ∈ timers s → callback t = debounced_callback d →
          timeout d s = Some (timer_id t)) ∧
  (∀ d t, t ∈ timers s → timeout d s = Some (timer_id t) →
          callback t = debounced_callback d) ∧
  (∀ t, t ∈ timers s → callback t = LoaderHide → is_Some (loader (DOM s))).

(** What [timers_ok] depends on. *)
Definition timer_view (s : Page) :
    list Timer * nat * option nat * option nat * option nat :=
  (timers s, next_timer s, navbar_timeout s, backToTop_timeout s, loader (DOM s)).

(** The queued calls of the function a debounced handler wraps. *)
Definition pending (d : Debounced) (s : Page) : list Timer :=
  filter (λ t, callback t = debounced_callback d) (timers s).


(** ** The loading screen *)

(** The inline [opacity] of a node. *)
Definition opacity (node : nat) (s : Page) : option string :=
  e ← nodes s !! node; style e !! "opacity".

(** ** Lazy loading *)

(** Adding to a list, in turn, each element that is not in it yet: what
    [observe] does with images and [EventTarget.addEventListener] with
    listeners. *)
Definition add_each {A} `{EqDecision A} (xs l : list A) : list A :=
  foldl (λ l x, if bool_decide (x ∈ l) then l else l ++ [x]) l xs.

(** The images observed once [initLazyLoading] has run. *)
Definition lazy_images (s : Page) : list nat :=
  if hasIntersectionObserver s
  then add_each (querySelectorAll s "img[data-src]") (observed s)
  else observed s.

(** The images that [init] on the document [s0] starts to observe. *)
Definition deferred (s0 : Page) (img : nat) : Prop :=
  hasIntersectionObserver s0 = true ∧ img ∈ querySelectorAll s0 "img[data-src]".

(** From [s] to [s'] no attribute has changed, no image has been loaded and
    the observed images are the same. *)
Definition same_images (s s' : Page) : Prop :=
  stable s s' ∧ observed s' = observed s ∧ ∀ img, loads img s' = loads img s.

(** Where an image stands on a page reached from [s0]: not loaded, with
    the attribute it had, or loaded once, with its deferred source, and no
    longer observed. *)
Definition image_state (s0 s : Page) (img : nat) : Prop :=
  (loads img s = [] ∧ attribute "data-src" img s = attribute "data-src" img s0) ∨
  (∃ v, loads img s = [SetSrc img v] ∧ v ≠ "" ∧ deferred s0 img ∧
        attribute "data-src" img s0 = Some v ∧
        attribute "src" img s = Some v ∧ attribute "data-src" img s = None ∧
        img ∉ observed s).

Definition images_ok (s0 s : Page) : Prop :=
  (∀ img, img ∈ observed s → deferred s0 img) ∧ ∀ img, image_state s0 s img.

(** ** Events on a started page *)

(** The listener [initContactForm] adds. *)
Definition on_submit (form : nat) : Listener :=
  {| listener_target := Node form; listener_type := "submit"; listener_handler := OnSubmit |}.

(** ** The utilities *)

(** The point [(x, y)] lies in the box, and in the window. *)
Definition inside (rect : DOMRect.t) (x y : Q) : Prop :=
  (DOMRect.left rect <= x)%Q ∧ (x <= DOMRect.right rect)%Q ∧
  (DOMRect.top rect <= y)%Q ∧ (y <= DOMRect.bottom rect)%Q.

Definition in_window (innerWidth innerHeight x y : Q) : Prop :=
  (0 <= x)%Q ∧ (x <= innerWidth)%Q ∧ (0 <= y)%Q ∧ (y <= innerHeight)%Q.

(** The listener that [addEvents] adds for one event type. *)
Definition listener_for (element : Target) (handler : Handler) (event : string) : Listener :=
  {| listener_target := element; listener_type := event; listener_handler := handler |}.

(** The listeners [addEvents] and [removeEvents] work on: one for each
    piece of [events]. *)
Definition listeners_for (element : Target) (events : string) (handler : Handler) :
    list Listener :=
  listener_for element handler <$> split " " events.

(** ** What a listener may edit *)

(** The elements of the feature a listener belongs to: the menu panel for
    the three menu listeners, the filter buttons and the cards for a click
    on a filter button, the form for a submit; the other listeners edit no
    element. *)
Definition footprint (h : Handler) (this : Target) (s : Page) : list nat :=
  match h, this with
  | (OnMenuOpen | OnMenuClose | OnMenuOutside), _ => option_list (mobileMenu (DOM s))
  | OnFilterClick, Node btn =>
    btn :: default [] (filterBtns (DOM s)) ++ default [] (bikeCards (DOM s))
  | OnSubmit, Node form => [form]
  | _, _ => []
  end.

(** The listeners that lock or unlock the scrolling of the page. *)
Definition menu_listener (h : Handler) : bool :=
  match h with
  | OnMenuOpen | OnMenuClose | OnMenuOutside => true
  | _ => false
  end.
(** * Properties *)

(** ** Token lists *)

Lemma contains_true (token : string) (l : list string) :
  DOMTokenList.contains token l = true ↔ token ∈ l.
Proof. unfold DOMTokenList.contains. apply bool_decide_eq_true. Qed.

Section token_lists.
Context (token : string) (l : list string).

Lemma contains_add : DOMTokenList.contains token (DOMTokenList.add token l) = true.
Proof.
  unfold DOMTokenList.add.
  destruct (DOMTokenList.contains token l) eqn:E; [exact E|].
  apply contains_true. rewrite elem_of_app, list_elem_of_singleton. by right.
Qed.

Lemma contains_remove : DOMTokenList.contains token (DOMTokenList.remove token l) = false.
Proof.
  unfold DOMTokenList.remove, DOMTokenList.contains.
  rewrite bool_decide_eq_false, list_elem_of_filter. tauto.
Qed.

Lemma add_add : DOMTokenList.add token (DOMTokenList.add token l) = DOMTokenList.add token l.
Proof. unfold DOMTokenList.add at 1. by rewrite contains_add. Qed.

Lemma remove_remove :
  DOMTokenList.remove token (DOMTokenList.remove token l) = DOMTokenList.remove token l.
Proof.
  unfold DOMTokenList.remove. rewrite list_filter_filter. apply list_filter_iff. tauto.
Qed.

Lemma contains_add_ne other :
  other ≠ token →
  DOMTokenList.contains other (DOMTokenList.add token l) = DOMTokenList.contains other l.
Proof.
  intros Hne. unfold DOMTokenList.add.
  destruct (DOMTokenList.contains token l); [done|].
  unfold DOMTokenList.contains. apply bool_decide_ext.
  rewrite elem_of_app, list_elem_of_singleton. tauto.
Qed.

Lemma contains_remove_ne other :
  other ≠ token →
  DOMTokenList.contains other (DOMTokenList.remove token l) = DOMTokenList.contains other l.
Proof.
  intros Hne. unfold DOMTokenList.remove, DOMTokenList.contains.
  apply bool_decide_ext. rewrite list_elem_of_filter. tauto.
Qed.

End token_lists.

(** ** Loops *)

(** A loop whose body never throws is a left fold of the body's effect. *)
Lemma forEach_fold {A} (f : A → JS unit) (g : A → Page → Page) (l : list A) :
  (∀ x s, f x s = Ok tt (g x s)) →
  ∀ s, forEach l f s = Ok tt (foldl (λ s x, g x s) s l).
Proof.
  intros Hf. induction l as [|x l IH]; intros s; [done|].
  cbn [forEach foldl]. unfold mbind, JS_bind. rewrite Hf. apply IH.
Qed.

(** ** The menu *)
Lemma toggleMobileMenu_eq show s menu :
  mobileMenu (DOM s) = Some menu →
  toggleMobileMenu show s = Ok tt (if show then menu_shown menu s else menu_hidden menu s).
Proof.
  intros H. unfold toggleMobileMenu, mbind, JS_bind, gets. rewrite H. by destruct show.
Qed.

Lemma toggleMobileMenu_absent show s :
  mobileMenu (DOM s) = None → toggleMobileMenu show s = Ok tt s.
Proof.
  intros H. unfold toggleMobileMenu, mbind, JS_bind, gets. by rewrite H.
Qed.

Lemma alter_twice {A} (f : A → A) i (l : list A) :
  (∀ x, f (f x) = f x) → alter f i (alter f i l) = alter f i l.
Proof.
  intros Hf. rewrite list_alter_alter_eq. apply list_alter_ext; [|done].
  intros x _. apply Hf.
Qed.

Lemma menu_shown_twice menu s : menu_shown menu (menu_shown menu s) = menu_shown menu s.
Proof.
  unfold menu_shown. cbn [nodes body set_nodes set_body].
  rewrite alter_twice.
  - unfold with_style at 1 2. cbn. by rewrite insert_insert_eq.
  - intros e. unfold with_classList. cbn. f_equal. apply add_add.
Qed.

Lemma menu_hidden_twice menu s : menu_hidden menu (menu_hidden menu s) = menu_hidden menu s.
Proof.
  unfold menu_hidden. cbn [nodes body set_nodes set_body].
  rewrite alter_twice.
  - unfold with_style at 1 2. cbn. by rewrite delete_delete_eq.
  - intros e. unfold with_classList. cbn. f_equal. apply remove_remove.
Qed.

(** C8. With the menu panel present, [toggleMobileMenu] returns normally,
    a second call with the same argument changes nothing, showing leaves
    the panel with the class active and the page scroll locked, hiding
    leaves it without the class and the scroll unlocked. *)
Theorem toggleMobileMenu_idempotent (show : bool) (s : Page) (menu : nat) (e : Element) :
  mobileMenu (DOM s) = Some menu →
  nodes s !! menu = Some e →
  let once := page_of (toggleMobileMenu show s) in
  let twice := page_of (toggleMobileMenu show once) in
  returns (toggleMobileMenu show s) = true ∧
  returns (toggleMobileMenu show once) = true ∧
  twice = once ∧
  (∃ e', nodes once !! menu = Some e' ∧
         DOMTokenList.contains "active" (classList e') = show) ∧
  style (body once) !! "overflow" = (if show then Some "hidden" else None).
Proof.
  intros Hmenu He once twice.
  assert (Honce : once = if show then menu_shown menu s else menu_hidden menu s).
  { unfold once. by rewrite (toggleMobileMenu_eq show s menu). }
  assert (Hdom : mobileMenu (DOM once) = Some menu).
  { rewrite Honce. by destruct show. }
  assert (Htwice : twice = if show then menu_shown menu once else menu_hidden menu once).
  { unfold twice. by rewrite (toggleMobileMenu_eq show once menu). }
  split; [by rewrite (toggleMobileMenu_eq show s menu)|].
  split; [by rewrite (toggleMobileMenu_eq show once menu)|].
  split; [|split].
  - rewrite Htwice, Honce.
    destruct show; [apply menu_shown_twice | apply menu_hidden_twice].
  - rewrite Honce. destruct show; cbn; rewrite list_lookup_alter_eq, He; cbn;
      eexists; (split; [done|]); cbn; [apply contains_add | apply contains_remove].
  - rewrite Honce. destruct show; cbn; [apply lookup_insert_eq | apply lookup_delete_eq].
Qed.

(** On the sample page: showing the menu twice is showing it once. *)
Lemma toggleMobileMenu_idempotent_witness :
  mobileMenu (DOM sample) = Some 2%nat ∧
  page_of (toggleMobileMenu true (page_of (toggleMobileMenu true sample)))
  = page_of (toggleMobileMenu true sample).
Proof.
  split; [reflexivity|].
  destruct (toggleMobileMenu_idempotent true sample 2%nat (element [] [("id", "mobile-menu")] 0))
    as (_ & _ & H & _).
  - reflexivity.
  - reflexivity.
  - exact H.
Defined.

(** ** Timers *)

Lemma pop_earliest_None l : pop_earliest l = None → l = [].
Proof.
  destruct l as [|x l]; [done|]. cbn [pop_earliest].
  destruct (pop_earliest l) as [[t' rest']|]; [|done].
  by destruct (due t' <? due x).
Qed.

Lemma pop_earliest_perm l t rest :
  pop_earliest l = Some (t, rest) → l ≡ₚ t :: rest.
Proof.
  revert t rest. induction l as [|x l IH]; intros t rest; [done|].
  cbn [pop_earliest]. destruct (pop_earliest l) as [[t' rest']|] eqn:E.
  - destruct (due t' <? due x); intros [= <- <-]; [|done].
    rewrite (IH t' rest' eq_refl). apply Permutation_swap.
  - by intros [= <- <-].
Qed.

Lemma pop_earliest_min l t rest x :
  pop_earliest l = Some (t, rest) → x ∈ l → due t ≤ due x.
Proof.
  revert t rest. induction l as [|y l IH]; intros t rest; [done|].
  cbn [pop_earliest]. destruct (pop_earliest l) as [[t' rest']|] eqn:E.
  - specialize (IH t' rest' eq_refl).
    destruct (Z.ltb_spec (due t') (due y)); intros [= <- <-];
      rewrite elem_of_cons; intros [->|Hx]; try lia.
    + by apply IH.
    + specialize (IH Hx). lia.
  - apply pop_earliest_None in E as ->.
    intros [= <- <-]. rewrite list_elem_of_singleton. by intros ->.
Qed.

Lemma pop_earliest_elem l t rest x :
  pop_earliest l = Some (t, rest) → x ∈ l ↔ x = t ∨ x ∈ rest.
Proof.
  intros H. apply pop_earliest_perm in H. rewrite H. apply elem_of_cons.
Qed.

Lemma fire_eq t s :
  fire t s =
  set_next_timer (next_timer s + length (spawned s t))
    (set_timers (timers s ++ spawned s t)
       (set_nodes (edited s (callback t))
          (set_now (Z.max (now s) (due t)) s))).
Proof.
  unfold fire, edited, spawned, edit.
  destruct (callback t); cbn [run_callback];
    unfold loader_fade, loader_hide, navbar_scroll, back_to_top, hide_card,
      mbind, JS_bind, gets; cbn [DOM set_now scrollY].
  1: destruct (loader (DOM s)); cbn.
  3: destruct (loader (DOM s)); cbn.
  5: destruct (navbar (DOM s)); cbn.
  5: destruct (exceeds _ _); cbn.
  8: destruct (backToTop (DOM s)); cbn.
  8: destruct (exceeds _ _); cbn.
  all: unfold set_next_timer, set_timers, set_nodes, set_now; cbn;
       rewrite ?app_nil_r, ?Nat.add_0_r, ?Nat.add_1_r; reflexivity.
Qed.
Lemma weight_pos t : (0 < weight t)%nat.
Proof. unfold weight. destruct (callback t); lia. Qed.

Lemma budget_spawned s t : (budget (spawned s t) < weight t)%nat.
Proof.
  unfold spawned, weight, budget.
  destruct (callback t); try (cbn; lia).
  destruct (loader (DOM s)); cbn; lia.
Qed.

(** Firing the next timer uses up budget. *)
Lemma budget_fire s t rest :
  pop_earliest (timers s) = Some (t, rest) →
  (budget (timers (fire t (set_timers rest s))) < budget (timers s))%nat.
Proof.
  intros Hpop. rewrite fire_eq. cbn.
  apply pop_earliest_perm in Hpop. unfold budget in *. rewrite Hpop.
  rewrite sum_list_with_app. cbn.
  pose proof (budget_spawned (set_timers rest s) t) as H. unfold budget in H. lia.
Qed.

(** A property kept by every firing is kept by [run]. *)
Lemma run_invariant (P : Page → Prop) (limit : Z) :
  (∀ s t rest, P s → pop_earliest (timers s) = Some (t, rest) → due t ≤ limit →
               P (fire t (set_timers rest s))) →
  ∀ fuel s, P s → P (run fuel limit s).
Proof.
  intros Hstep. induction fuel as [|fuel IH]; intros s Hs; [done|].
  cbn [run]. destruct (pop_earliest (timers s)) as [[t rest]|] eqn:Hpop; [|done].
  destruct (Z.leb_spec (due t) limit); [|done].
  apply IH. by apply Hstep.
Qed.

(** With the budget of the queue as fuel, [run] stops only when no timer is
    due any more. *)
Lemma run_drains (limit : Z) fuel s t :
  (budget (timers s) ≤ fuel)%nat →
  t ∈ timers (run fuel limit s) → limit < due t.
Proof.
  revert s. induction fuel as [|fuel IH]; intros s Hfuel.
  - cbn [run]. destruct (timers s) as [|x l] eqn:E; [by rewrite elem_of_nil|].
    unfold budget in Hfuel. cbn in Hfuel. pose proof (weight_pos x). lia.
  - cbn [run]. destruct (pop_earliest (timers s)) as [[t' rest]|] eqn:Hpop.
    + destruct (Z.leb_spec (due t') limit).
      * apply IH. pose proof (budget_fire s t' rest Hpop). lia.
      * intros Ht. pose proof (pop_earliest_min _ _ _ _ Hpop Ht). lia.
    + apply pop_earliest_None in Hpop. rewrite Hpop. by rewrite elem_of_nil.
Qed.

Lemma exceeds_true y threshold : exceeds y threshold = true ↔ (inject_Z threshold < y)%Q.
Proof.
  unfold exceeds. rewrite negb_true_iff, <- not_true_iff_false, Qle_bool_iff.
  split; [apply Qnot_le_lt | apply Qlt_not_le].
Qed.

Lemma exceeds_false y threshold : exceeds y threshold = false ↔ (y <= inject_Z threshold)%Q.
Proof. unfold exceeds. by rewrite negb_false_iff, Qle_bool_iff. Qed.

(** ** Debounced scroll handlers *)

Lemma debounce_eq d f wait s :
  debounce d f wait s =
  Ok tt (set_timeout d (Some (next_timer s))
    (set_next_timer (S (next_timer s))
      (set_timers
         (match timeout d s with
          | Some i => filter (λ t, timer_id t ≠ i) (timers s)
          | None => timers s
          end ++ [{| timer_id := next_timer s; due := now s + wait; callback := f |}]) s))).
Proof.
  unfold debounce, mbind, JS_bind, gets. by destruct (timeout d s), d.
Qed.

Section settles.
Context (d : Debounced) (node : nat).

Lemma has_class_edited s f :
  f ≠ debounced_callback d →
  has_class (debounced_token d) node (set_nodes (edited s f) s) = has_class (debounced_token d) node s.
Proof.
  intros Hf. unfold has_class, edited, edit. cbn [nodes set_nodes].
  destruct f; cbn.
  1, 2: destruct (loader (DOM s)) as [r|]; cbn; [|done].
  3: destruct (navbar (DOM s)) as [r|]; cbn; [|done].
  4: destruct (backToTop (DOM s)) as [r|]; cbn; [|done].
  5: rename card into r.
  all: destruct (decide (r = node)) as [->|Hne];
    [rewrite list_lookup_alter_eq | by rewrite list_lookup_alter_ne].
  all: destruct (nodes s !! node) as [e|]; cbn; [|done].
  all: try done.
  all: destruct d; try done; cbn.
  all: destruct (exceeds _ _); by rewrite ?contains_add_ne, ?contains_remove_ne.
Qed.

Lemma has_class_settled s :
  debounced_element d s = Some node →
  is_Some (nodes s !! node) →
  has_class (debounced_token d) node (set_nodes (edited s (debounced_callback d)) s)
  = exceeds (scrollY s) (debounced_threshold d).
Proof.
  intros Hel [e He]. unfold has_class, edited, edit. cbn [nodes set_nodes].
  destruct d; cbn in *; rewrite Hel; cbn; rewrite list_lookup_alter_eq, He; cbn.
  all: destruct (exceeds _ _); by rewrite ?contains_add, ?contains_remove.
Qed.

End settles.

Lemma edited_length s f : length (edited s f) = length (nodes s).
Proof. unfold edited. destruct (edit s f) as [[r g]|]; [apply length_alter|done]. Qed.

Lemma fire_DOM t s : DOM (fire t s) = DOM s.
Proof. by rewrite fire_eq. Qed.

Lemma fire_scrollY t s : scrollY (fire t s) = scrollY s.
Proof. by rewrite fire_eq. Qed.

Lemma fire_nodes t s : nodes (fire t s) = edited s (callback t).
Proof. by rewrite fire_eq. Qed.

Lemma fire_timers t s : timers (fire t s) = timers s ++ spawned s t.
Proof. by rewrite fire_eq. Qed.

Lemma fire_has_class token node t s :
  has_class token node (fire t s) = has_class token node (set_nodes (edited s (callback t)) s).
Proof. unfold has_class. by rewrite fire_nodes. Qed.

(** Once a debounced callback is queued, it has run by the time it is due,
    whatever else is queued, and the class it toggles then tells whether the
    scroll offset exceeds the threshold. *)
Lemma pending_settles d node s dt :
  debounced_element d s = Some node →
  is_Some (nodes s !! node) →
  (∃ t, t ∈ timers s ∧ callback t = debounced_callback d ∧ due t ≤ now s + dt) →
  has_class (debounced_token d) node (elapse dt s)
  = exceeds (scrollY s) (debounced_threshold d).
Proof.
  intros Hel Hnode Hpending. unfold elapse. set (limit := now s + dt) in *.
  set (Inv := λ s' : Page,
    debounced_element d s' = Some node ∧ is_Some (nodes s' !! node) ∧
    scrollY s' = scrollY s ∧
    (has_class (debounced_token d) node s' = exceeds (scrollY s) (debounced_threshold d) ∨
     ∃ t, t ∈ timers s' ∧ callback t = debounced_callback d ∧ due t ≤ limit)).
  assert (H1 : Inv s) by (unfold Inv; auto).
  assert (HF : Inv (run (budget (timers s)) limit s)).
  { apply run_invariant; [|done]. clear.
    intros s' t rest (Hel & Hnode & Hy & Hcls) Hpop Hdue.
    unfold Inv. rewrite fire_has_class, fire_nodes, fire_timers, fire_scrollY.
    repeat split.
    - destruct d; cbn in *; by rewrite fire_DOM.
    - apply lookup_lt_is_Some. rewrite edited_length. by apply lookup_lt_is_Some.
    - done.
    - destruct (decide (callback t = debounced_callback d)) as [Ht|Ht].
      + left. rewrite Ht, <- Hy.
        apply (has_class_settled d node (set_timers rest s')); done.
      + destruct Hcls as [Hcls|(t' & Hin & Hcb & Hdue')].
        * left. rewrite <- Hcls. by apply (has_class_edited d node (set_timers rest s')).
        * right. exists t'. split; [|done]. cbn.
          apply (pop_earliest_elem _ _ _ t') in Hpop.
          apply Hpop in Hin as [->|Hin]; [done|]. rewrite elem_of_app. by left. }
  destruct HF as (_ & _ & _ & [Hcls|(t & Hin & _ & Hdue)]).
  - exact Hcls.
  - apply run_drains in Hin; [lia|done].
Qed.

Lemma debounced_settles d node s dt :
  debounced_element d s = Some node →
  is_Some (nodes s !! node) →
  debounced_wait d ≤ dt →
  has_class (debounced_token d) node
    (elapse dt (page_of (debounce d (debounced_callback d) (debounced_wait d) s)))
  = exceeds (scrollY s) (debounced_threshold d).
Proof.
  intros Hel Hnode Hdt. rewrite debounce_eq. cbn [page_of].
  set (s1 := set_timeout _ _ _).
  assert (Hs1 : debounced_element d s1 = debounced_element d s ∧ nodes s1 = nodes s ∧
                scrollY s1 = scrollY s ∧ now s1 = now s) by by destruct d.
  destruct Hs1 as (Hel1 & Hnodes1 & Hy1 & Hnow1).
  rewrite <- Hy1. apply pending_settles.
  - by rewrite Hel1.
  - by rewrite Hnodes1.
  - eexists. split; [|split].
    + assert (Htimers : ∃ l, timers s1 = l ++
        [{| timer_id := next_timer s; due := now s + debounced_wait d;
            callback := debounced_callback d |}]) by (destruct d; eexists; reflexivity).
      destruct Htimers as [l ->]. rewrite elem_of_app, list_elem_of_singleton. by right.
    + done.
    + cbn. lia.
Qed.

(** C3. A call of the debounced navbar handler followed by at least 10 ms
    without another event leaves the navbar with the class scrolled if the
    scroll offset exceeds 50, and without it if the offset is at most 50. *)
Theorem navbar_scrolled_iff_past_threshold (s : Page) (node : nat) (dt : Z) :
  navbar (DOM s) = Some node →
  is_Some (nodes s !! node) →
  10 ≤ dt →
  let s' := elapse dt (page_of (handleNavbarScroll s)) in
  returns (handleNavbarScroll s) = true ∧
  ((inject_Z 50 < scrollY s)%Q → has_class "scrolled" node s' = true) ∧
  ((scrollY s <= inject_Z 50)%Q → has_class "scrolled" node s' = false).
Proof.
  intros Hnav Hnode Hdt s'.
  pose proof (debounced_settles ForNavbar node s dt Hnav Hnode Hdt) as H.
  change (has_class "scrolled" node s' = exceeds (scrollY s) 50) in H.
  split; [unfold handleNavbarScroll; by rewrite debounce_eq|].
  rewrite H. split; [apply exceeds_true | apply exceeds_false].
Qed.

(** On the sample page, scrolled to 51.5: the navbar is marked 10 ms after the
    handler has run. *)
Lemma navbar_scrolled_iff_past_threshold_witness :
  navbar (DOM (set_scrollY (103 # 2) sample)) = Some 1%nat ∧
  has_class "scrolled" 1
    (elapse 10 (page_of (handleNavbarScroll (set_scrollY (103 # 2) sample)))) = true.
Proof.
  split; [reflexivity|].
  apply (navbar_scrolled_iff_past_threshold (set_scrollY (103 # 2) sample) 1%nat 10).
  - reflexivity.
  - eexists. reflexivity.
  - lia.
  - reflexivity.
Defined.

(** C4. A call of the debounced back-to-top handler followed by at least
    100 ms without another event leaves the control with the class visible
    if the scroll offset exceeds 300, and without it if the offset is at
    most 300. *)
Theorem back_to_top_visible_iff_past_threshold (s : Page) (node : nat) (dt : Z) :
  backToTop (DOM s) = Some node →
  is_Some (nodes s !! node) →
  100 ≤ dt →
  let s' := elapse dt (page_of (handleBackToTop s)) in
  returns (handleBackToTop s) = true ∧
  ((inject_Z 300 < scrollY s)%Q → has_class "visible" node s' = true) ∧
  ((scrollY s <= inject_Z 300)%Q → has_class "visible" node s' = false).
Proof.
  intros Hbtn Hnode Hdt s'.
  pose proof (debounced_settles ForBackToTop node s dt Hbtn Hnode Hdt) as H.
  change (has_class "visible" node s' = exceeds (scrollY s) 300) in H.
  split; [unfold handleBackToTop; by rewrite debounce_eq|].
  rewrite H. split; [apply exceeds_true | apply exceeds_false].
Qed.

(** On the sample page, scrolled to 300 exactly: the control is not shown. *)
Lemma back_to_top_visible_iff_past_threshold_witness :
  backToTop (DOM (set_scrollY 300 sample)) = Some 9%nat ∧
  has_class "visible" 9
    (elapse 250 (page_of (handleBackToTop (set_scrollY 300 sample)))) = false.
Proof.
  split; [reflexivity|].
  apply (back_to_top_visible_iff_past_threshold (set_scrollY 300 sample) 9%nat 250).
  - reflexivity.
  - eexists. reflexivity.
  - lia.
  - discriminate.
Defined.

(** ** The category filter *)

Lemma foldl_invariant {A} (P : Page → Prop) (g : A → Page → Page) (l : list A) :
  (∀ x s, x ∈ l → P s → P (g x s)) →
  ∀ s, P s → P (foldl (λ s x, g x s) s l).
Proof.
  induction l as [|x l IH]; intros Hg s Hs; [done|]. cbn [foldl].
  apply IH.
  - intros y s' Hy. apply Hg. by right.
  - apply Hg; [by left|done].
Qed.

Lemma filterBikes_eq category s cards :
  bikeCards (DOM s) = Some cards →
  filterBikes category s = Ok tt (foldl (λ s card, filter_card category card s) s cards).
Proof.
  intros H. unfold filterBikes, mbind at 1, JS_bind at 1, gets. rewrite H. cbn [truthy negb].
  unfold mbind at 1, JS_bind at 1. cbn [deref mret JS_ret].
  apply forEach_fold. clear. intros card s.
  unfold filter_card, getAttribute, mbind at 1, JS_bind at 1, gets.
  fold (data_category card s). fold (shouldShow category (data_category card s)).
  destruct (shouldShow _ _).
  - unfold mbind, JS_bind, style_set, update, modify. cbn [nodes set_nodes].
    rewrite !list_alter_alter_eq. done.
  - unfold mbind, JS_bind, style_set, update, modify, setTimeout. cbn.
    rewrite !list_alter_alter_eq. done.
Qed.

Lemma filterBikes_absent category s :
  bikeCards (DOM s) = None → filterBikes category s = Ok tt s.
Proof. intros H. unfold filterBikes, mbind, JS_bind, gets. by rewrite H. Qed.

Lemma filter_click_eq this s btns :
  filterBtns (DOM s) = Some btns →
  filter_click this s =
  filterBikes (data_category this (mark_active this btns s)) (mark_active this btns s).
Proof.
  intros H. unfold filter_click, mbind at 1, JS_bind at 1, gets. rewrite H.
  unfold mbind at 1, JS_bind at 1. cbn [deref mret JS_ret].
  unfold mbind at 1, JS_bind at 1.
  rewrite (forEach_fold _ deactivate) by done.
  unfold mbind at 1, JS_bind at 1, classList_add, update, modify.
  fold (activate this (foldl (λ s b, deactivate b s) s btns)).
  fold (mark_active this btns s).
  unfold mbind at 1, JS_bind at 1, getAttribute, gets. done.
Qed.

Lemma filter_click_absent this s :
  filterBtns (DOM s) = None → filter_click this s = Throw TypeError s.
Proof. intros H. unfold filter_click, mbind, JS_bind, gets. by rewrite H. Qed.

(** Frame of the class-list edits. *)
Lemma has_class_alter_classList token g node b (l : list Element) s :
  has_class token node (set_nodes (alter (with_classList g) b l) s) =
  default false ((λ e, DOMTokenList.contains token
    (if decide (b = node) then g (classList e) else classList e)) <$> l !! node).
Proof.
  unfold has_class. cbn [nodes set_nodes]. rewrite list_lookup_alter.
  destruct (decide (b = node)) as [->|]; [by destruct (l !! node)|reflexivity].
Qed.

Lemma has_class_deactivate token node b s :
  has_class token node (deactivate b s) =
  if decide (b = node ∧ token = "active") then false else has_class token node s.
Proof.
  unfold deactivate. rewrite has_class_alter_classList. unfold has_class.
  destruct (nodes s !! node) as [e|]; cbn; [|by case_decide].
  destruct (decide (b = node)) as [->|]; [|by rewrite decide_False by tauto].
  destruct (decide (token = "active")) as [->|].
  - rewrite decide_True by done. apply contains_remove.
  - rewrite decide_False by tauto. by apply contains_remove_ne.
Qed.

Lemma has_class_activate token node b s :
  has_class token node (activate b s) =
  if decide (b = node ∧ token = "active") then bool_decide (is_Some (nodes s !! node))
  else has_class token node s.
Proof.
  unfold activate. rewrite has_class_alter_classList. unfold has_class.
  destruct (nodes s !! node) as [e|] eqn:E; cbn.
  2: { by case_decide. }
  destruct (decide (b = node)) as [->|]; [|by rewrite decide_False by tauto].
  destruct (decide (token = "active")) as [->|].
  - rewrite decide_True by done. by rewrite contains_add.
  - rewrite decide_False by tauto. by apply contains_add_ne.
Qed.

Lemma has_class_deactivate_all node btns s :
  has_class "active" node (foldl (λ s b, deactivate b s) s btns) =
  if decide (node ∈ btns) then false else has_class "active" node s.
Proof.
  revert s. induction btns as [|b btns IH]; intros s; cbn [foldl].
  - by rewrite decide_False by apply not_elem_of_nil.
  - rewrite IH, has_class_deactivate. 
    destruct (decide (node ∈ btns)).
    + by rewrite decide_True by by right.
    + destruct (decide (b = node)) as [->|].
      * rewrite decide_True by done. by rewrite decide_True by by left.
      * rewrite decide_False by tauto. rewrite decide_False; [done|].
        rewrite elem_of_cons. intros [?|?]; [congruence|done].
Qed.

Lemma valid_deactivate_all node btns s :
  is_Some (nodes (foldl (λ s b, deactivate b s) s btns) !! node) ↔ is_Some (nodes s !! node).
Proof.
  revert s. induction btns as [|b btns IH]; intros s; cbn [foldl]; [done|].
  rewrite IH. unfold deactivate. cbn. rewrite !lookup_lt_is_Some, length_alter. done.
Qed.

Lemma has_class_mark_active this btns node s :
  node ∈ btns → is_Some (nodes s !! this) →
  has_class "active" node (mark_active this btns s) = bool_decide (node = this).
Proof.
  intros Hin Hthis. unfold mark_active. rewrite has_class_activate.
  destruct (decide (this = node)) as [->|Hne].
  - rewrite decide_True by done. rewrite (bool_decide_eq_true_2 (node = node)) by done.
    apply bool_decide_eq_true. by apply valid_deactivate_all.
  - rewrite decide_False by tauto. rewrite has_class_deactivate_all.
    rewrite decide_True by done. symmetry. apply bool_decide_eq_false. congruence.
Qed.

Lemma has_class_filter_card token node category card s :
  has_class token node (filter_card category card s) = has_class token node s.
Proof.
  unfold filter_card, has_class.
  destruct (shouldShow _ _); cbn [nodes set_nodes set_timers set_next_timer];
    rewrite list_lookup_alter; case_decide; try done; subst;
    by destruct (nodes s !! node).
Qed.

Lemma has_class_filter_cards token node category cards s :
  has_class token node (foldl (λ s card, filter_card category card s) s cards) =
  has_class token node s.
Proof.
  apply (foldl_invariant (λ s', has_class token node s' = has_class token node s)); [|done].
  intros card s' _ <-. apply has_class_filter_card.
Qed.

Lemma stable_refl s : stable s s.
Proof. by repeat split. Qed.

Lemma stable_trans s1 s2 s3 : stable s1 s2 → stable s2 s3 → stable s1 s3.
Proof.
  intros (? & ? & H12) (? & ? & H23).
  do 2 (split; [congruence|]). intros node. by rewrite H23.
Qed.

Lemma stable_alter f node s :
  (∀ e, attributes (f e) = attributes e) →
  stable s (set_nodes (alter f node (nodes s)) s).
Proof.
  intros Hf. repeat split; cbn; [apply length_alter|]. intros r.
  rewrite list_lookup_alter. case_decide; [subst|done].
  destruct (nodes s !! r); cbn; [|done]. by rewrite Hf.
Qed.

Lemma stable_valid s s' node : stable s s' → is_Some (nodes s' !! node) ↔ is_Some (nodes s !! node).
Proof. intros (_ & Hlen & _). by rewrite !lookup_lt_is_Some, Hlen. Qed.

Lemma stable_data_category s s' node : stable s s' → data_category node s' = data_category node s.
Proof.
  intros (_ & _ & Hattr). unfold data_category. specialize (Hattr node).
  destruct (nodes s' !! node), (nodes s !! node); cbn in *; congruence.
Qed.

Lemma stable_foldl {A} (g : A → Page → Page) (l : list A) s :
  (∀ x s', stable s' (g x s')) → stable s (foldl (λ s x, g x s) s l).
Proof.
  intros Hg. apply (foldl_invariant (stable s)); [|apply stable_refl].
  intros x s' _ Hs'. eapply stable_trans; [exact Hs'|apply Hg].
Qed.

Lemma stable_deactivate b s : stable s (deactivate b s).
Proof. by apply stable_alter. Qed.

Lemma stable_activate b s : stable s (activate b s).
Proof. by apply stable_alter. Qed.

Lemma stable_mark_active this btns s : stable s (mark_active this btns s).
Proof.
  eapply stable_trans; [|apply stable_activate].
  apply stable_foldl. intros. apply stable_deactivate.
Qed.

Lemma stable_filter_card category card s : stable s (filter_card category card s).
Proof.
  unfold filter_card. destruct (shouldShow _ _).
  - by apply stable_alter.
  - destruct (stable_alter fading_style card s) as (? & ? & ?); [done|].
    by repeat split.
Qed.

Lemma stable_filter_clicked this btns s : stable s (filter_clicked this btns s).
Proof.
  unfold filter_clicked. destruct (bikeCards (DOM s)); [|apply stable_mark_active].
  eapply stable_trans; [apply stable_mark_active|].
  apply stable_foldl. intros. apply stable_filter_card.
Qed.

Lemma filter_click_ok this s btns :
  filterBtns (DOM s) = Some btns →
  filter_click this s = Ok tt (filter_clicked this btns s).
Proof.
  intros H. rewrite (filter_click_eq this s btns H). unfold filter_clicked.
  destruct (stable_mark_active this btns s) as (HDOM & _).
  destruct (bikeCards (DOM s)) as [cards|] eqn:E.
  - apply filterBikes_eq. by rewrite HDOM.
  - apply filterBikes_absent. by rewrite HDOM.
Qed.

Lemma has_class_filter_clicked this btns node s :
  node ∈ btns → is_Some (nodes s !! this) →
  has_class "active" node (filter_clicked this btns s) = bool_decide (node = this).
Proof.
  intros Hin Hthis. unfold filter_clicked. destruct (bikeCards (DOM s)).
  - rewrite has_class_filter_cards. by apply has_class_mark_active.
  - by apply has_class_mark_active.
Qed.

Lemma stable_click_filters clicks s :
  is_Some (filterBtns (DOM s)) → stable s (click_filters clicks s).
Proof.
  intros [btns Hbtns]. unfold click_filters.
  apply (foldl_invariant (stable s)); [|apply stable_refl].
  intros this s' _ Hs'. eapply stable_trans; [exact Hs'|].
  destruct Hs' as (HDOM & _).
  rewrite (filter_click_ok this s' btns) by by rewrite HDOM.
  apply stable_filter_clicked.
Qed.

(** C2. After any sequence of filter clicks, a filter button carries the
    class active exactly when it is the button clicked last; the listener
    of that click returned normally. *)
Theorem one_active_filter_button (s : Page) (btns clicks : list nat) (last : nat) :
  filterBtns (DOM s) = Some btns →
  last ∈ btns →
  is_Some (nodes s !! last) →
  let before := click_filters clicks s in
  let after := page_of (filter_click last before) in
  returns (filter_click last before) = true ∧
  after = click_filters (clicks ++ [last]) s ∧
  ∀ b, b ∈ btns → has_class "active" b after = bool_decide (b = last).
Proof.
  intros Hbtns Hlast Hnode before after.
  assert (Hst : stable s before) by (apply stable_click_filters; by rewrite Hbtns).
  assert (Hb : filterBtns (DOM before) = Some btns) by (destruct Hst as (-> & _); done).
  unfold after. rewrite (filter_click_ok last before btns Hb). cbn [returns page_of].
  split; [done|]. split.
  - unfold click_filters. rewrite foldl_app. cbn [foldl]. 
    fold (click_filters clicks s). fold before. by rewrite (filter_click_ok last before btns Hb).
  - intros b Hin. apply has_class_filter_clicked; [done|]. by apply (stable_valid s before).
Qed.

(** On the sample page, after clicks on trail, all, trail and sport: sport
    is active, trail is not. *)
Lemma one_active_filter_button_witness :
  filterBtns (DOM sample) = Some [3; 4; 5]%nat ∧
  has_class "active" 5 (page_of (filter_click 5 (click_filters [4; 3; 4]%nat sample))) = true ∧
  has_class "active" 4 (page_of (filter_click 5 (click_filters [4; 3; 4]%nat sample))) = false.
Proof.
  destruct (one_active_filter_button sample [3; 4; 5]%nat [4; 3; 4]%nat 5%nat)
    as (_ & _ & H).
  - reflexivity.
  - apply list_elem_of_In. cbn. tauto.
  - eexists. reflexivity.
  - split; [reflexivity|]. split.
    + apply (H 5%nat). apply list_elem_of_In. cbn. tauto.
    + apply (H 4%nat). apply list_elem_of_In. cbn. tauto.
Defined.

Lemma shouldShow_true category cardCategory :
  shouldShow category cardCategory = true ↔
  category = Some "all" ∨ cardCategory = category.
Proof.
  unfold shouldShow, strict_eq. rewrite orb_true_iff, !bool_decide_eq_true. done.
Qed.

Lemma display_alter f node r s :
  display r (set_nodes (alter f node (nodes s)) s) =
  if decide (node = r) then e ← nodes s !! r; style (f e) !! "display" else display r s.
Proof.
  unfold display. cbn [nodes set_nodes]. rewrite list_lookup_alter.
  case_decide; [subst|done]. by destruct (nodes s !! r).
Qed.

Section filter_cards.
Context (category : option string).

Lemma display_filter_card_shown card s :
  shouldShow category (data_category card s) = true →
  is_Some (nodes s !! card) →
  display card (filter_card category card s) = Some "block".
Proof.
  intros Hshow [e He]. unfold filter_card. rewrite Hshow, display_alter.
  rewrite decide_True by done. rewrite He. cbn. by simplify_map_eq.
Qed.

Lemma display_filter_card_other card r s :
  card ≠ r ∨ shouldShow category (data_category card s) = false →
  display r (filter_card category card s) = display r s.
Proof.
  intros H. unfold filter_card. destruct (shouldShow _ _) eqn:E.
  - destruct H as [H|H]; [|done]. rewrite display_alter. by rewrite decide_False.
  - unfold display. cbn [nodes set_nodes set_timers set_next_timer].
    rewrite list_lookup_alter. case_decide; [subst|done].
    destruct (nodes s !! r); [|done]. cbn. by simplify_map_eq.
Qed.

Lemma now_filter_card card s : now (filter_card category card s) = now s.
Proof. unfold filter_card. by destruct (shouldShow _ _). Qed.

Lemma timers_filter_card card s :
  timers (filter_card category card s) =
  timers s ++
  if shouldShow category (data_category card s) then []
  else [{| timer_id := next_timer s; due := now s + 300; callback := HideCard card |}].
Proof.
  unfold filter_card. destruct (shouldShow _ _); [|done]. by rewrite app_nil_r.
Qed.

(** The loop of [filterBikes]: the cards to show are displayed as blocks,
    every card to hide gets one timer, due in 300 ms, and nothing else
    changes how an element is displayed. *)
Lemma filter_cards_spec cards u :
  let v := foldl (λ s card, filter_card category card s) u cards in
  stable u v ∧ now v = now u ∧
  (∀ r, r ∈ cards → shouldShow category (data_category r u) = true →
        is_Some (nodes u !! r) → display r v = Some "block") ∧
  (∀ r, r ∉ cards ∨ shouldShow category (data_category r u) = false →
        display r v = display r u) ∧
  ∃ new, timers v = timers u ++ new ∧
    (∀ t, t ∈ new → ∃ card, card ∈ cards ∧ callback t = HideCard card ∧
          shouldShow category (data_category card u) = false ∧ due t = now u + 300) ∧
    (∀ card, card ∈ cards → shouldShow category (data_category card u) = false →
          ∃ t, t ∈ new ∧ callback t = HideCard card ∧ due t = now u + 300).
Proof.
  revert u. induction cards as [|x l IH]; intros u; cbn [foldl].
  { split; [apply stable_refl|]. split; [done|]. split; [by intros r ?%elem_of_nil|].
    split; [done|]. exists []. rewrite app_nil_r. split; [done|].
    split; [by intros t ?%elem_of_nil | by intros t ?%elem_of_nil]. }
  set (u' := filter_card category x u).
  assert (Hst : stable u u') by apply stable_filter_card.
  assert (Hcat : ∀ r, data_category r u' = data_category r u)
    by (intros r; by apply stable_data_category).
  assert (Hnow : now u' = now u) by apply now_filter_card.
  destruct (IH u') as (Hst' & Hnow' & Hshown & Hkeep & new & Htimers & Hnew & Hall).
  split; [by eapply stable_trans|]. split; [congruence|]. split; [|split].
  - intros r Hr Hshow Hvalid. destruct (decide (r ∈ l)) as [Hin|Hnin].
    + apply Hshown; [done|by rewrite Hcat|by apply (stable_valid u u')].
    + apply elem_of_cons in Hr as [->|?]; [|done].
      rewrite Hkeep by by left. by apply display_filter_card_shown.
  - intros r Hr. rewrite Hkeep; unfold u'; [rewrite display_filter_card_other|]; [done| |].
    + destruct Hr as [Hr|Hr]; [|destruct (decide (x = r)) as [->|]; [by right|by left]].
      left. intros ->. apply Hr. by left.
    + destruct Hr as [Hr|Hr]; [|right; by rewrite Hcat].
      left. intros ?. apply Hr. by right.
  - exists ((if shouldShow category (data_category x u) then []
             else [{| timer_id := next_timer u; due := now u + 300;
                      callback := HideCard x |}]) ++ new).
    split; [|split].
    + rewrite Htimers. unfold u'. by rewrite timers_filter_card, app_assoc.
    + intros t [Ht|Ht]%elem_of_app.
      * destruct (shouldShow _ _) eqn:E; [by apply elem_of_nil in Ht|].
        apply list_elem_of_singleton in Ht as ->. exists x. cbn.
        split; [by left|done].
      * destruct (Hnew t Ht) as (card & ? & ? & ? & ?). exists card.
        split; [by right|]. split; [done|]. split; [by rewrite <- Hcat|congruence].
    + intros card [->|Hin]%elem_of_cons Hhide.
      * rewrite Hhide. eexists. split; [apply elem_of_app; left; by left|done].
      * destruct (Hall card Hin) as (t & ? & ? & ?); [by rewrite Hcat|].
        exists t. split; [apply elem_of_app; by right|]. split; [done|congruence].
Qed.

End filter_cards.

(** How firing a timer changes what is displayed. *)
Lemma stable_fire t s : stable s (fire t s).
Proof.
  rewrite fire_eq. unfold edited.
  destruct (edit s (callback t)) as [[node g]|] eqn:E; [|by repeat split].
  assert (Hg : ∀ e, attributes (g e) = attributes e).
  { unfold edit in E. destruct (callback t); simplify_option_eq; done. }
  destruct (stable_alter g node s Hg) as (? & ? & ?). by repeat split.
Qed.

Lemma display_fire t r s :
  display r (fire t s) =
  if decide (hides s t = Some r ∧ callback t ≠ LoaderFade)
  then (λ _, "none") <$> nodes s !! r
  else display r s.
Proof.
  unfold display at 1. rewrite fire_nodes. unfold edited, edit, hides.
  destruct (callback t) eqn:Ecb.
  1, 2: destruct (loader (DOM s)) as [node|]; cbn.
  5: destruct (navbar (DOM s)) as [node|]; cbn.
  7: destruct (backToTop (DOM s)) as [node|]; cbn.
  9: rename card into node.
  all: try (rewrite decide_False by (intros [? ?]; congruence); reflexivity).
  all: rewrite list_lookup_alter; unfold display.
  all: destruct (decide (node = r)) as [->|Hne]; 
       [|rewrite decide_False by (intros [? ?]; congruence); reflexivity].
  all: try rewrite decide_True by (split; congruence).
  all: try (rewrite decide_False by (intros [? ?]; congruence)).
  all: destruct (nodes s !! r) as [e|]; cbn; try done.
  all: by simplify_map_eq.
Qed.

Lemma hides_spawned s t t' :
  t' ∈ spawned s t → hides s t' = hides s t ∧ callback t = LoaderFade.
Proof.
  unfold spawned, hides. destruct (callback t); try by intros ?%elem_of_nil.
  destruct (loader (DOM s)); [|by intros ?%elem_of_nil].
  by intros ->%list_elem_of_singleton.
Qed.

Lemma now_filter_clicked this btns s : now (filter_clicked this btns s) = now s.
Proof.
  unfold filter_clicked.
  assert (Hm : now (mark_active this btns s) = now s).
  { unfold mark_active, activate. cbn.
    by apply (foldl_invariant (λ s', now s' = now s)). }
  destruct (bikeCards (DOM s)); [|done].
  by destruct (filter_cards_spec (data_category this (mark_active this btns s)) l
                 (mark_active this btns s)) as (_ & -> & _).
Qed.

Lemma timers_mark_active this btns s : timers (mark_active this btns s) = timers s.
Proof.
  unfold mark_active, activate. cbn.
  by apply (foldl_invariant (λ s', timers s' = timers s)).
Qed.

(** C1, amended. A click on a filter button made while no timer is queued
    that would hide a card the click shows: once 300 ms have passed with no
    other event, the visible cards are exactly those whose category is the
    button's, and all of them when the button's category is all. *)
Theorem filter_shows_matching_cards (s : Page) (this : nat) (btns cards : list nat) (dt : Z) :
  filterBtns (DOM s) = Some btns →
  bikeCards (DOM s) = Some cards →
  (∀ t card, t ∈ timers s → hides s t = Some card → card ∈ cards →
     shouldShow (data_category this s) (data_category card s) = false) →
  300 ≤ dt →
  filter_shows_exactly s this cards dt.
Proof.
  intros Hbtns Hcards Hpending Hdt card Hcard Hvalid.
  rewrite (filter_click_ok this s btns Hbtns). cbn [page_of].
  set (s1 := filter_clicked this btns s).
  set (c := data_category this s).
  assert (Hst1 : stable s s1) by apply stable_filter_clicked.
  assert (Hnow1 : now s1 = now s) by apply now_filter_clicked.
  unfold elapse. rewrite Hnow1. set (limit := now s + dt).
  set (shown := λ r, shouldShow c (data_category r s)).
  set (Inv := λ s' : Page,
    stable s s' ∧
    (∀ r, r ∈ cards → shown r = true → is_Some (nodes s !! r) → display r s' = Some "block") ∧
    (∀ t r, t ∈ timers s' → hides s' t = Some r → r ∈ cards → shown r = false) ∧
    (∀ r, r ∈ cards → shown r = false → is_Some (nodes s !! r) →
       display r s' = Some "none" ∨
       ∃ t, t ∈ timers s' ∧ callback t = HideCard r ∧ due t ≤ limit)).
  assert (H1 : Inv s1).
  { unfold s1, filter_clicked. rewrite Hcards.
    set (u := mark_active this btns s).
    assert (Hu : stable s u) by apply stable_mark_active.
    assert (Hc : data_category this u = c) by by apply stable_data_category.
    rewrite Hc.
    destruct (filter_cards_spec c cards u) as (Hst & Hnow & Hshown & _ & new & Htm & Hnew & Hall).
    split; [by eapply stable_trans|]. split; [|split].
    - intros r Hr Hs Hv. apply Hshown; [done| |by apply (stable_valid s u)].
      by rewrite (stable_data_category s u).
    - intros t r. rewrite Htm. unfold u. rewrite timers_mark_active.
      intros [Ht|Ht]%elem_of_app Hh Hr.
      + apply (Hpending t r); [done| |done]. unfold hides in *.
        destruct Hst as (HD & _), Hu as (HD' & _). by rewrite <- HD', <- HD.
      + destruct (Hnew t Ht) as (card' & _ & Hcb & Hhide & _).
        unfold hides in Hh. rewrite Hcb in Hh. injection Hh as <-.
        unfold shown. by rewrite <- (stable_data_category s u).
    - intros r Hr Hs Hv. right.
      destruct (Hall r Hr) as (t & Ht & Hcb & Hdue).
      { by rewrite (stable_data_category s u). }
      exists t. split; [rewrite Htm, elem_of_app; by right|]. split; [done|].
      rewrite Hdue. unfold u, mark_active, activate. cbn.
      rewrite (foldl_invariant (λ s', now s' = now s)); [unfold limit; lia| |done].
      by intros. }
  assert (HF : Inv (run (budget (timers s1)) limit s1)).
  { apply run_invariant; [|done]. clear H1.
    intros s' t rest (Hst & Hshown & Htimers & Hhidden) Hpop Hdue.
    set (s'' := set_timers rest s').
    assert (HD : DOM s' = DOM s) by by destruct Hst.
    split; [|split; [|split]].
    - eapply stable_trans; [exact Hst|]. 
      eapply stable_trans; [|apply stable_fire]. by repeat split.
    - intros r Hr Hs Hv. rewrite display_fire.
      rewrite decide_False; [by apply Hshown|].
      intros [Hh _]. specialize (Htimers t r).
      rewrite Htimers in Hs; [done| |done|done].
      apply (pop_earliest_elem _ _ _ t) in Hpop. apply Hpop. by left.
    - intros t' r. rewrite fire_timers. cbn [timers set_timers].
      assert (Hhides : ∀ x, hides (fire t s'') x = hides s' x).
      { intros x. unfold hides. by rewrite fire_DOM. }
      rewrite Hhides. intros [Ht'|Ht']%elem_of_app Hh Hr.
      + apply (Htimers t' r); [|done|done].
        apply (pop_earliest_elem _ _ _ t') in Hpop. apply Hpop. by right.
      + apply hides_spawned in Ht' as [Heq _].
        apply (Htimers t r); [| |done].
        * apply (pop_earliest_elem _ _ _ t) in Hpop. apply Hpop. by left.
        * rewrite <- Hh. symmetry. exact Heq.
    - intros r Hr Hs Hv. rewrite display_fire.
      assert (Hv' : is_Some (nodes s' !! r)) by by apply (stable_valid s s').
      destruct Hv' as [e He].
      destruct (Hhidden r Hr Hs Hv) as [Hnone|(t' & Ht' & Hcb & Hdue')].
      + left. case_decide; [|done]. cbn. by rewrite He.
      + apply (pop_earliest_elem _ _ _ t') in Hpop. apply Hpop in Ht' as [->|Ht'].
        * left. rewrite decide_True; [cbn; by rewrite He|].
          unfold hides. rewrite Hcb. split; [done|congruence].
        * case_decide; [left; cbn; by rewrite He|].
          destruct (decide (display r s'' = Some "none")); [by left|].
          right. exists t'. rewrite fire_timers, elem_of_app. split; [by left|done]. }
  destruct HF as (Hst & Hshown & _ & Hhidden).
  split; [by apply stable_data_category|].
  fold c. rewrite <- shouldShow_true. fold (shown card). unfold visible.
  assert (Hd : ∀ x, display card (set_now x (run (budget (timers s1)) limit s1))
               = display card (run (budget (timers s1)) limit s1)) by done.
  rewrite Hd. destruct (shown card) eqn:Hs.
  - rewrite (Hshown card Hcard Hs Hvalid). split; [done|]. by intros _ [=].
  - destruct (Hhidden card Hcard Hs Hvalid) as [->|(t & Ht & _ & Hdue)].
    + split; [by intros []|done].
    + apply run_drains in Ht; [lia|done].
Qed.

(** On the sample page, where no timer is queued: a click on trail. *)
Lemma filter_shows_matching_cards_witness :
  bikeCards (DOM sample) = Some [6; 7; 8]%nat ∧
  timers sample = [] ∧
  filter_shows_exactly sample 4 [6; 7; 8]%nat 300.
Proof.
  split; [reflexivity|]. split; [reflexivity|].
  apply (filter_shows_matching_cards sample 4%nat [3; 4; 5]%nat [6; 7; 8]%nat 300).
  - reflexivity.
  - reflexivity.
  - intros t card Ht. inversion Ht.
  - lia.
Defined.

(** C1 as stated fails for a click made while cards are fading out: on the
    sample page the filter trail is clicked, and 100 ms later the filter all.
    The timer of the first click then hides the sport card 7, which the
    second click shows; 300 ms after the second click it is hidden. *)
Lemma filter_click_while_fading :
  let s := step (Elapse 100) (step (Click [4%nat]) sample) in
  filterBtns (DOM s) = Some [3; 4; 5]%nat ∧
  bikeCards (DOM s) = Some [6; 7; 8]%nat ∧
  data_category 3 s = Some "all" ∧
  display 7 (elapse 300 (page_of (filter_click 3 s))) = Some "none" ∧
  ¬ filter_shows_exactly s 3 [6; 7; 8]%nat 300.
Proof.
  intros s. split; [reflexivity|]. split; [reflexivity|]. split; [reflexivity|].
  assert (Hd : display 7 (elapse 300 (page_of (filter_click 3 s))) = Some "none")
    by (vm_compute; reflexivity).
  split; [exact Hd|]. intros H.
  destruct (H 7%nat) as (_ & _ & Hv).
  - apply list_elem_of_In. cbn. tauto.
  - eexists. reflexivity.
  - apply Hv; [by left|exact Hd].
Qed.

Lemma timers_filter_clicked this btns s t :
  t ∈ timers (filter_clicked this btns s) →
  t ∈ timers s ∨ ∃ card, callback t = HideCard card ∧ due t = now s + 300.
Proof.
  unfold filter_clicked. destruct (bikeCards (DOM s)) as [cards|].
  - destruct (filter_cards_spec (data_category this (mark_active this btns s)) cards
                (mark_active this btns s)) as (_ & _ & _ & _ & new & -> & Hnew & _).
    rewrite timers_mark_active.
    intros [Ht|Ht]%elem_of_app; [by left|]. right.
    destruct (Hnew t Ht) as (card & _ & Hcb & _ & Hdue). exists card. split; [done|].
    rewrite Hdue. f_equal. unfold mark_active, activate. cbn.
    by apply (foldl_invariant (λ s', now s' = now s)).
  - rewrite timers_mark_active. by left.
Qed.

(** X1. Once the delay has passed, the timers of a click are gone: if no
    timer that hides an element was queued before the click, none is queued
    300 ms after it, and a click made then finds no timer that would hide a
    card it shows. *)
Lemma hiding_timers_drained (s : Page) (this : nat) (btns : list nat) (dt : Z) :
  filterBtns (DOM s) = Some btns →
  (∀ t, t ∈ timers s → hides s t = None) →
  300 ≤ dt →
  let s' := elapse dt (page_of (filter_click this s)) in
  ∀ t, t ∈ timers s' → hides s' t = None.
Proof.
  intros Hbtns Hnone Hdt. rewrite (filter_click_ok this s btns Hbtns). cbn [page_of].
  set (s1 := filter_clicked this btns s).
  assert (Hnow1 : now s1 = now s) by apply now_filter_clicked.
  assert (HD1 : DOM s1 = DOM s) by apply stable_filter_clicked.
  unfold elapse. rewrite Hnow1. set (limit := now s + dt).
  set (Inv := λ s' : Page, DOM s' = DOM s ∧
    ∀ t, t ∈ timers s' →
      hides s' t = None ∨ ∃ card, callback t = HideCard card ∧ due t ≤ limit).
  assert (H1 : Inv s1).
  { split; [done|]. intros t [Ht|(card & Hcb & Hdue)]%timers_filter_clicked.
    - left. unfold hides. rewrite HD1. by apply Hnone.
    - right. exists card. split; [done|]. unfold limit. lia. }
  assert (HF : Inv (run (budget (timers s1)) limit s1)).
  { apply run_invariant; [|done]. clear H1.
    intros s' t rest (HD & Hq) Hpop Hdue. split; [by rewrite fire_DOM|].
    assert (Hsp : spawned (set_timers rest s') t = []).
    { assert (Ht : t ∈ timers s').
      { apply (pop_earliest_elem _ _ _ t) in Hpop. apply Hpop. by left. }
      unfold spawned. destruct (Hq t Ht) as [Hh|(card & Hcb & _)].
      - unfold hides in Hh. destruct (callback t); try done.
        change (DOM (set_timers rest s')) with (DOM s'). by rewrite Hh.
      - by rewrite Hcb. }
    intros x. rewrite fire_timers, Hsp, app_nil_r. cbn [timers set_timers]. intros Hx.
    assert (Hh : hides (fire t (set_timers rest s')) x = hides s' x).
    { unfold hides. by rewrite fire_DOM. }
    rewrite Hh. apply Hq.
    apply (pop_earliest_elem _ _ _ x) in Hpop. apply Hpop. by right. }
  destruct HF as (HD & Hq). intros t Ht.
  assert (Hh : hides (set_now limit (run (budget (timers s1)) limit s1)) t
             = hides (run (budget (timers s1)) limit s1) t) by done.
  rewrite Hh. destruct (Hq t Ht) as [Hn|(card & _ & Hdue)]; [done|].
  apply run_drains in Ht; [lia|done].
Qed.

(** ** Lazy loading *)

Lemma imageObserver_callback_eq entries s :
  imageObserver_callback entries s = Ok tt (foldl (λ s e, observe_entry e s) s entries).
Proof.
  apply forEach_fold. clear. intros entry s. unfold observe_entry.
  destruct (isIntersecting entry); [|done].
  unfold mbind at 1, JS_bind at 1, getAttribute, gets.
  fold (attribute "data-src" (target entry) s).
  destruct (attribute _ _ _) as [v|]; [|done].
  destruct (truthy_string (Some v)); done.
Qed.

Section one_image.
Context (img : nat).

(** An entry leaves alone an image that is not its target, and its target
    when the deferred source is missing or empty. *)
Lemma observe_entry_frame entry s :
  target entry ≠ img ∨ truthy_string (attribute "data-src" img s) = false →
  nodes (observe_entry entry s) !! img = nodes s !! img ∧
  (img ∈ observed (observe_entry entry s) ↔ img ∈ observed s) ∧
  loads img (observe_entry entry s) = loads img s.
Proof.
  intros H. unfold observe_entry. destruct (isIntersecting entry); [|done].
  destruct (attribute _ (target entry) s) as [v|] eqn:E; [|done].
  destruct (truthy_string (Some v)) eqn:Ev; [|done].
  destruct H as [H|H]; [|destruct (decide (target entry = img)) as [<-|H']].
  2: { rewrite E in H. congruence. }
  all: unfold load_image, loads; cbn.
  all: rewrite !list_lookup_alter_ne by done.
  all: rewrite list_elem_of_filter, filter_app; cbn.
  all: rewrite (bool_decide_eq_false_2 (target entry = img)) by done.
  all: split; [done|]; split; [|cbn; apply app_nil_r].
  all: split; [tauto|]; intros ?; split; [congruence|done].
Qed.

Lemma observe_entries_frame entries s :
  truthy_string (attribute "data-src" img s) = false →
  let s' := foldl (λ s e, observe_entry e s) s entries in
  nodes s' !! img = nodes s !! img ∧
  (img ∈ observed s' ↔ img ∈ observed s) ∧
  loads img s' = loads img s.
Proof.
  revert s. induction entries as [|entry entries IH]; intros s Hs; cbn [foldl]; [done|].
  destruct (observe_entry_frame entry s) as (Hn & Ho & Hl); [by right|].
  destruct (IH (observe_entry entry s)) as (Hn' & Ho' & Hl').
  { unfold attribute in *. by rewrite Hn. }
  cbn zeta in *. rewrite Hn', Ho', Hl'. done.
Qed.

End one_image.

Lemma truthy_string_nonempty v : v ≠ "" → truthy_string (Some v) = true.
Proof. intros H. cbn. by rewrite (proj2 (String.eqb_neq v "")). Qed.

Lemma load_image_spec img v s e :
  nodes s !! img = Some e →
  nodes (load_image img v s) !! img
    = Some (with_attributes (delete "data-src") (with_attributes (<["src" := v]>) e)) ∧
  (img ∉ observed (load_image img v s)) ∧
  loads img (load_image img v s) = loads img s ++ [SetSrc img v].
Proof.
  intros He. unfold load_image, loads. cbn. rewrite !list_lookup_alter_eq, He.
  split; [done|]. split.
  - rewrite list_elem_of_filter. tauto.
  - rewrite filter_app. cbn. by rewrite (bool_decide_eq_true_2 (img = img)).
Qed.

Lemma observe_entries_load img entries s e v :
  nodes s !! img = Some e →
  attributes e !! "data-src" = Some v →
  v ≠ "" →
  (∃ entry, entry ∈ entries ∧ target entry = img ∧ isIntersecting entry = true) →
  let s' := foldl (λ s e, observe_entry e s) s entries in
  nodes s' !! img
    = Some (with_attributes (delete "data-src") (with_attributes (<["src" := v]>) e)) ∧
  (img ∉ observed s') ∧
  loads img s' = loads img s ++ [SetSrc img v].
Proof.
  intros He Hv Hne. revert s He.
  induction entries as [|x l IH]; intros s He (entry & Hin & Htarget & Hint).
  { by apply elem_of_nil in Hin. }
  cbn [foldl].
  assert (Hattr : attribute "data-src" img s = Some v).
  { unfold attribute. by rewrite He. }
  destruct (decide (target x = img ∧ isIntersecting x = true)) as [[Ht Hi]|Hx].
  - assert (Hx : observe_entry x s = load_image img v s).
    { unfold observe_entry. by rewrite Hi, Ht, Hattr, truthy_string_nonempty. }
    rewrite Hx. destruct (load_image_spec img v s e He) as (Hn & Ho & Hl).
    destruct (observe_entries_frame img l (load_image img v s)) as (Hn' & Ho' & Hl').
    { unfold attribute. rewrite Hn. cbn. by rewrite lookup_delete_eq. }
    cbn zeta in *. by rewrite Hn', Ho', Hl'.
  - assert (Hx' : nodes (observe_entry x s) !! img = nodes s !! img ∧
                  (img ∈ observed (observe_entry x s) ↔ img ∈ observed s) ∧
                  loads img (observe_entry x s) = loads img s).
    { destruct (decide (target x = img)) as [Ht|Ht].
      - unfold observe_entry. destruct (isIntersecting x); [|done]. tauto.
      - apply observe_entry_frame. by left. }
    destruct Hx' as (Hn & Ho & Hl).
    destruct (IH (observe_entry x s)) as (Hn' & Ho' & Hl').
    + congruence.
    + exists entry. apply elem_of_cons in Hin as [->|Hin]; [tauto|done].
    + cbn zeta in *. by rewrite Hl' , Hl.
Qed.

Lemma deliver_frame img later s :
  truthy_string (attribute "data-src" img s) = false →
  nodes (deliver later s) !! img = nodes s !! img ∧
  (img ∈ observed (deliver later s) ↔ img ∈ observed s) ∧
  loads img (deliver later s) = loads img s.
Proof.
  intros Hs. unfold deliver.
  apply (foldl_invariant (λ s', nodes s' !! img = nodes s !! img ∧
    (img ∈ observed s' ↔ img ∈ observed s) ∧ loads img s' = loads img s)); [|done].
  intros entries s' _ (Hn & Ho & Hl). rewrite imageObserver_callback_eq. cbn [page_of].
  destruct (observe_entries_frame img entries s') as (Hn' & Ho' & Hl').
  { unfold attribute in *. by rewrite Hn. }
  cbn zeta in *. by rewrite Hn', Ho', Hl'.
Qed.

(** C5, amended. An image whose deferred source is not empty, in a batch
    with an intersecting entry for it: the callback assigns the deferred
    value to the source once, removes the deferred-source attribute and
    stops observing the image, and no later batch touches the image. *)
Theorem deferred_source_loaded_once (s : Page) (img : nat) (e : Element) (v : string)
    (entries : list IntersectionObserverEntry)
    (later : list (list IntersectionObserverEntry)) :
  nodes s !! img = Some e →
  attributes e !! "data-src" = Some v →
  (∃ entry, entry ∈ entries ∧ target entry = img ∧ isIntersecting entry = true) →
  v ≠ "" →
  deferred_source_applied s img v entries later.
Proof.
  intros He Hv Hentry Hne. unfold deferred_source_applied.
  rewrite imageObserver_callback_eq. cbn [page_of].
  destruct (observe_entries_load img entries s e v He Hv Hne Hentry) as (Hn & Ho & Hl).
  cbn zeta in *.
  set (s' := foldl _ s entries) in *.
  assert (Hsrc : attribute "src" img s' = Some v).
  { unfold attribute. rewrite Hn. cbn. by simplify_map_eq. }
  assert (Hdata : attribute "data-src" img s' = None).
  { unfold attribute. rewrite Hn. cbn. by simplify_map_eq. }
  destruct (deliver_frame img later s') as (Hn' & Ho' & Hl'); [by rewrite Hdata|].
  repeat split; try done. by rewrite Ho'.
Qed.

(** On the sample page: image 14 comes into view, and is reported again
    later. *)
Lemma deferred_source_loaded_once_witness :
  attribute "data-src" 14 sample = Some "img/trail.jpg" ∧
  deferred_source_applied sample 14 "img/trail.jpg"
    [{| isIntersecting := true; target := 14%nat |}]
    [[{| isIntersecting := true; target := 14%nat |}]].
Proof.
  split; [reflexivity|].
  apply (deferred_source_loaded_once sample 14%nat
           (element [] [("data-src", "img/trail.jpg")] 520)).
  - reflexivity.
  - reflexivity.
  - eexists. split; [by left|]. split; reflexivity.
  - discriminate.
Defined.

(** C5 as stated fails for an image whose deferred-source attribute is
    there and empty: image 15 of the sample page is observed, and an
    intersecting entry for it assigns nothing, keeps the attribute and keeps
    observing. *)
Lemma empty_deferred_source_not_loaded :
  let entries := [{| isIntersecting := true; target := 15%nat |}] in
  let s' := page_of (imageObserver_callback entries sample) in
  attribute "data-src" 15 sample = Some "" ∧
  15%nat ∈ observed sample ∧
  attribute "src" 15 s' = None ∧
  attribute "data-src" 15 s' = Some "" ∧
  15%nat ∈ observed s' ∧
  ¬ deferred_source_applied sample 15 "" entries [].
Proof.
  intros entries s'. split; [reflexivity|].
  split; [apply list_elem_of_In; vm_compute; tauto|]. split; [reflexivity|].
  split; [reflexivity|]. split; [apply list_elem_of_In; vm_compute; tauto|].
  intros (H & _). discriminate H.
Qed.

(** C10. An image without deferred source is left as it is by the
    callback, whatever the batch: its element is unchanged, its source is
    not assigned, and it is observed afterwards exactly if it was before. *)
Theorem image_without_deferred_source_untouched (s : Page) (img : nat) (e : Element)
    (entries : list IntersectionObserverEntry) :
  nodes s !! img = Some e →
  attributes e !! "data-src" = None →
  let s' := page_of (imageObserver_callback entries s) in
  returns (imageObserver_callback entries s) = true ∧
  nodes s' !! img = Some e ∧
  (img ∈ observed s' ↔ img ∈ observed s) ∧
  loads img s' = loads img s.
Proof.
  intros He Hv. rewrite imageObserver_callback_eq. cbn [page_of returns].
  split; [done|]. rewrite <- He. apply observe_entries_frame.
  unfold attribute. rewrite He. cbn. by rewrite Hv.
Qed.

(** On the sample page: the logo, image 16, has a source and no deferred
    source. *)
Lemma image_without_deferred_source_untouched_witness :
  attribute "data-src" 16 sample = None ∧
  nodes (page_of (imageObserver_callback
           [{| isIntersecting := true; target := 16%nat |}] sample)) !! 16%nat
  = Some (element [] [("src", "img/logo.png")] 10).
Proof.
  split; [reflexivity|].
  apply (image_without_deferred_source_untouched sample 16%nat
           (element [] [("src", "img/logo.png")] 10)
           [{| isIntersecting := true; target := 16%nat |}]).
  - reflexivity.
  - reflexivity.
Defined.

(** ** The contact form *)

(** C6, amended. The submit listener prevents the default, shows the
    notification and restores every field to its default value, so that a
    field is left empty when its default is empty; nothing else changes. *)
Theorem submit_resets_fields (s : Page) (form : nat) :
  contact_submit form s = Ok tt (submitted reset_control form s) ∧
  defaultPrevented (submitted reset_control form s) = true ∧
  effects (submitted reset_control form s) = effects s ++ [Alert success_message] ∧
  (∀ e, nodes s !! form = Some e →
     ∃ e', nodes (submitted reset_control form s) !! form = Some e' ∧
           controls e' = reset_control <$> controls e ∧
           ∀ c, c ∈ controls e' →
             value c = defaultValue c ∧ (defaultValue c = "" → value c = "")) ∧
  (∀ node, node ≠ form →
     nodes (submitted reset_control form s) !! node = nodes s !! node).
Proof.
  split; [done|]. split; [done|]. split; [done|]. split.
  - intros e He. eexists. unfold submitted. cbn. rewrite list_lookup_alter_eq, He.
    split; [done|]. split; [done|]. cbn.
    intros c (c0 & -> & _)%list_elem_of_fmap. cbn. split; [done|]. by intros ->.
  - intros node Hne. unfold submitted. cbn. by rewrite list_lookup_alter_ne.
Qed.

(** On the sample page: the form after a submit. *)
Lemma submit_resets_fields_witness :
  ∃ e', nodes (submitted reset_control 10 sample) !! 10%nat = Some e' ∧
        controls e' = [ {| value := ""; defaultValue := "" |};
                        {| value := "Votre message"; defaultValue := "Votre message" |} ].
Proof.
  destruct (submit_resets_fields sample 10) as (_ & _ & _ & H & _).
  destruct (H sample_form) as (e' & He' & Hc & _); [reflexivity|].
  exists e'. split; [exact He'|]. rewrite Hc. reflexivity.
Defined.

(** C6 as stated fails for a field whose default value is not empty: the
    second field of the sample form holds the text typed by the visitor
    and goes back to the text of the markup. *)
Lemma submit_restores_default_text :
  (controls <$> nodes sample !! 10%nat)
  = Some [ {| value := "Karim"; defaultValue := "" |};
           {| value := "Bonjour"; defaultValue := "Votre message" |} ] ∧
  (controls <$> nodes (page_of (contact_submit 10 sample)) !! 10%nat)
  = Some [ {| value := ""; defaultValue := "" |};
           {| value := "Votre message"; defaultValue := "Votre message" |} ] ∧
  ¬ submit_clears_fields sample 10.
Proof.
  split; [reflexivity|]. split; [reflexivity|].
  unfold submit_clears_fields. intros H.
  assert (H' : controls <$> nodes (page_of (contact_submit 10 sample)) !! 10%nat
             = controls <$> nodes (submitted clear_control 10 sample) !! 10%nat)
    by by rewrite H.
  vm_compute in H'. discriminate H'.
Qed.

(** ** Smooth scroll *)

Lemma anchor_click_eq link s href :
  attribute "href" link s = Some href →
  String.prefix "#" href = true →
  anchor_click link s =
  match querySelector s href with
  | Invalid => Throw SyntaxError (set_defaultPrevented true s)
  | NoMatch => Ok tt (set_defaultPrevented true s)
  | Match node =>
    Ok tt (set_effects
             (effects s ++ [ScrollTo (default 0 (offsetTop <$> nodes s !! node) - 80) "smooth"])
             (set_defaultPrevented true s))
  end.
Proof.
  intros Hattr Hprefix. unfold anchor_click, mbind at 1, JS_bind at 1, getAttribute, gets.
  fold (attribute "href" link s). rewrite Hattr.
  unfold mbind at 1, JS_bind at 1. cbn [deref mret JS_ret]. rewrite Hprefix.
  unfold mbind, JS_bind, preventDefault, modify, document_querySelector. cbn.
  by destruct (querySelector s href).
Qed.

(** C7, amended. A click on an in-page link whose selector resolves cancels
    the default jump and asks for a smooth scroll to the target's position
    minus 80; when the selector is valid and selects nothing, the default
    jump is cancelled all the same and nothing else happens. *)
Theorem anchor_click_scrolls_or_cancels (s : Page) (link : nat) :
  anchor_click_claim (set_defaultPrevented true) s link.
Proof.
  intros href Hattr Hprefix. rewrite (anchor_click_eq link s href Hattr Hprefix). split.
  - intros node e -> He. by rewrite He.
  - by intros ->.
Qed.

(** On the sample page: the link 11 points to the element 13, at offset 640. *)
Lemma anchor_click_scrolls_or_cancels_witness :
  attribute "href" 11 sample = Some "#bikes" ∧
  querySelector sample "#bikes" = Match 13 ∧
  page_of (anchor_click 11 sample) =
  set_effects [ScrollTo 560 "smooth"] (set_defaultPrevented true sample).
Proof.
  split; [reflexivity|]. split; [reflexivity|].
  destruct (anchor_click_scrolls_or_cancels sample 11 "#bikes") as [H _].
  - reflexivity.
  - reflexivity.
  - rewrite (H 13%nat (element [] [("id", "bikes")] 640)); reflexivity.
Defined.

(** C7 as stated fails when the selector selects nothing: the link 12 of
    the sample page points to no element, and a click on it is not a no-op,
    its default action is cancelled. *)
Lemma anchor_click_unresolved_cancels_default :
  attribute "href" 12 sample = Some "#nowhere" ∧
  querySelector sample "#nowhere" = NoMatch ∧
  defaultPrevented sample = false ∧
  defaultPrevented (page_of (anchor_click 12 sample)) = true ∧
  ¬ anchor_click_claim (λ s, s) sample 12.
Proof.
  split; [reflexivity|]. split; [reflexivity|]. split; [reflexivity|].
  split; [reflexivity|]. intros H.
  destruct (H "#nowhere") as [_ H']; [reflexivity|reflexivity|].
  specialize (H' eq_refl).
  assert (Hd : defaultPrevented (page_of (anchor_click 12 sample)) = defaultPrevented sample)
    by by rewrite H'.
  discriminate Hd.
Qed.

(** ** Absent elements *)

(** C9. With the element it needs absent, each guarded operation returns
    normally and leaves the page state as it was; apart from the debounced
    handlers, which still queue their timer, and the navigation set-up,
    which still adds the scroll listener, it changes nothing at all. *)
Theorem absent_element_is_silent (g : Guarded) (s : Page) :
  required_absent g s →
  returns (operation g s) = true ∧
  page_state (page_of (operation g s)) = page_state s ∧
  (bookkeeping g = false → operation g s = Ok tt s).
Proof.
  destruct g; cbn [required_absent operation bookkeeping]; intros H.
  - unfold loader_fade, mbind, JS_bind, gets. by rewrite H.
  - unfold navbar_scroll, mbind, JS_bind, gets. by rewrite H.
  - unfold handleNavbarScroll. rewrite debounce_eq. by repeat split.
  - by rewrite toggleMobileMenu_absent.
  - unfold menu_outside_click, mbind, JS_bind, gets. by rewrite H.
  - destruct H as (Ht & Hc & Hl & Hm).
    unfold initNavigation, mbind, JS_bind, gets, addEventListener, modify.
    cbn. rewrite Ht. cbn. rewrite Hc. cbn.
    destruct Hl as [Hl|Hl]; rewrite Hl; cbn; rewrite Hm; by repeat split.
  - unfold initSmoothScroll, mbind, JS_bind, gets. by destruct H as [->| ->].
  - unfold filterBikes, mbind, JS_bind, gets. by destruct H as [->| ->].
  - unfold initCategoryFilter, mbind, JS_bind, gets. by destruct H as [->| ->].
  - unfold back_to_top, mbind, JS_bind, gets. by rewrite H.
  - unfold handleBackToTop. rewrite debounce_eq. by repeat split.
  - unfold initBackToTop, mbind, JS_bind, gets. by rewrite H.
  - unfold initContactForm, mbind, JS_bind, gets. by rewrite H.
  - unfold initLazyLoading, mbind, JS_bind, gets. destruct H as [->| H]; [done|].
    destruct (hasIntersectionObserver s); [|done]. cbn. by rewrite H.
Qed.

(** On the page without the elements: a scroll and a call of
    [toggleMobileMenu]. *)
Lemma absent_element_is_silent_witness :
  navbar (DOM bare) = None ∧
  page_state (page_of (handleNavbarScroll bare)) = page_state bare ∧
  mobileMenu (DOM bare) = None ∧
  toggleMobileMenu true bare = Ok tt bare.
Proof.
  split; [reflexivity|]. split; [|split; [reflexivity|]].
  - apply (absent_element_is_silent NavbarScrollDebounced bare). reflexivity.
  - apply (absent_element_is_silent (MenuToggle true) bare); reflexivity.
Defined.

(** ** The script once started *)

Lemma forEach_addEventListener (l : list nat) (mk : nat → Listener) s :
  forEach l (λ node, addEventListener (listener_target (mk node)) (listener_type (mk node))
                       (listener_handler (mk node))) s
  = Ok tt (add_listeners (mk <$> l) s).
Proof.
  rewrite (forEach_fold _ (λ node, add_listeners [mk node])).
  2: { intros node s'. unfold addEventListener, modify, add_listeners. by destruct (mk node). }
  f_equal. revert s. induction l as [|x l IH]; intros s; cbn [foldl fmap list_fmap].
  - unfold add_listeners. rewrite app_nil_r. by destruct s.
  - rewrite IH. unfold add_listeners. cbn. by rewrite <- app_assoc.
Qed.

Lemma initLoader_eq s : initLoader s = Ok tt (add_listeners loader_wiring s).
Proof. done. Qed.

Lemma initNavigation_eq s :
  initNavigation s = Ok tt (add_listeners (navigation_wiring (DOM s)) s).
Proof.
  unfold initNavigation, navigation_wiring, mbind, JS_bind, gets, addEventListener, modify.
  cbn [DOM set_listeners].
  destruct (mobileToggle (DOM s)) as [toggle|]; cbn [truthy deref mret JS_ret DOM set_listeners];
  destruct (mobileClose (DOM s)) as [close|]; cbn [truthy deref mret JS_ret DOM set_listeners];
  destruct (mobileLinks (DOM s)) as [links|]; cbn [truthy deref mret JS_ret DOM set_listeners].
  all: try rewrite (forEach_addEventListener links (on_click OnMenuClose)).
  all: unfold add_listeners; cbn [DOM set_listeners listeners].
  all: destruct (mobileMenu (DOM s)) as [menu|]; cbn.
  all: rewrite <- ?app_assoc; cbn; rewrite ?app_nil_r; try reflexivity.
Qed.

Lemma initSmoothScroll_eq s :
  is_Some (navLinks (DOM s)) →
  initSmoothScroll s = Ok tt (add_listeners (smooth_scroll_wiring (DOM s)) s).
Proof.
  intros [l Hl]. unfold initSmoothScroll, smooth_scroll_wiring, mbind, JS_bind, gets.
  rewrite Hl. cbn [truthy negb deref mret JS_ret default].
  apply (forEach_addEventListener l (on_click OnAnchorClick)).
Qed.

Lemma initCategoryFilter_eq s :
  is_Some (filterBtns (DOM s)) →
  initCategoryFilter s = Ok tt (add_listeners (category_filter_wiring (DOM s)) s).
Proof.
  intros [l Hl]. unfold initCategoryFilter, category_filter_wiring, mbind, JS_bind, gets.
  rewrite Hl. cbn [truthy negb deref mret JS_ret default].
  apply (forEach_addEventListener l (on_click OnFilterClick)).
Qed.

Lemma add_listeners_nil s : add_listeners [] s = s.
Proof. unfold add_listeners. rewrite app_nil_r. by destruct s. Qed.

Lemma add_listeners_app l1 l2 s :
  add_listeners l2 (add_listeners l1 s) = add_listeners (l1 ++ l2) s.
Proof. unfold add_listeners. cbn. by rewrite app_assoc. Qed.

Lemma initBackToTop_eq s :
  initBackToTop s = Ok tt (add_listeners (back_to_top_wiring (DOM s)) s).
Proof.
  unfold initBackToTop, back_to_top_wiring, mbind, JS_bind, gets.
  destruct (backToTop (DOM s)); cbn; [|by rewrite add_listeners_nil].
  unfold addEventListener, modify, add_listeners. cbn. by rewrite <- app_assoc.
Qed.

Lemma initContactForm_eq s :
  initContactForm s = Ok tt (add_listeners (contact_form_wiring (DOM s)) s).
Proof.
  unfold initContactForm, contact_form_wiring, mbind, JS_bind, gets.
  destruct (contactForm (DOM s)); cbn; [done|]. by rewrite add_listeners_nil.
Qed.

Lemma initLazyLoading_eq s :
  ∃ o, initLazyLoading s = Ok tt (set_observed o s).
Proof.
  unfold initLazyLoading, mbind, JS_bind, gets.
  destruct (hasIntersectionObserver s); [|exists (observed s); by destruct s].
  rewrite (forEach_fold _ (λ img s, if bool_decide (img ∈ observed s) then s
                                     else set_observed (observed s ++ [img]) s)) by done.
  generalize (querySelectorAll s "img[data-src]"). intros l.
  assert (H : ∀ o, ∃ o', foldl (λ s x, if bool_decide (x ∈ observed s) then s
                 else set_observed (observed s ++ [x]) s) (set_observed o s) l
               = set_observed o' s).
  { induction l as [|x l IH]; intros o; cbn [foldl]; [by exists o|].
    cbn [observed set_observed]. destruct (bool_decide (x ∈ o)); [apply IH|].
    apply (IH (o ++ [x])). }
  destruct (H (observed s)) as [o' Ho']. exists o'. rewrite <- Ho'. by destruct s.
Qed.

(** [init] never throws; it fills the cache, adds the listeners and starts
    observing, and touches nothing else. *)
Lemma init_eq s :
  ∃ o, init s = Ok tt (set_observed o (add_listeners (wiring (cached s)) (set_DOM (cached s) s))).
Proof.
  unfold init. unfold mbind at 1, JS_bind at 1. unfold cacheDOMElements at 1, modify.
  fold (cached s). set (s0 := set_DOM _ s).
  assert (HD : DOM s0 = cached s) by done.
  unfold mbind at 1, JS_bind at 1. rewrite initLoader_eq.
  unfold mbind at 1, JS_bind at 1. rewrite initNavigation_eq.
  unfold mbind at 1, JS_bind at 1. rewrite initSmoothScroll_eq by done.
  unfold mbind at 1, JS_bind at 1. rewrite initCategoryFilter_eq by done.
  unfold mbind at 1, JS_bind at 1. rewrite initBackToTop_eq.
  unfold mbind at 1, JS_bind at 1. rewrite initContactForm_eq.
  rewrite !add_listeners_app. cbn [DOM add_listeners set_listeners]. rewrite HD.
  apply initLazyLoading_eq.
Qed.

Lemma keeps_refl s : keeps s s.
Proof. split; [done|]. split; [done|]. auto. Qed.

Lemma keeps_trans s1 s2 s3 : keeps s1 s2 → keeps s2 s3 → keeps s1 s3.
Proof.
  intros (? & ? & ?) (? & ? & ?). split; [congruence|]. split; [congruence|]. auto.
Qed.

Lemma keeps_started s s' : keeps s s' → started s → started s'.
Proof. intros (Hl & HD & Hf) (Hw & Hfresh). split; [by rewrite Hl, HD|auto]. Qed.

(** A page that differs only in elements, body, effects, the scroll offset,
    the clock, the observed images or the event flag. *)
Lemma keeps_same_timers s s' :
  listeners s' = listeners s → DOM s' = DOM s → timers s' = timers s →
  next_timer s' = next_timer s → navbar_timeout s' = navbar_timeout s →
  backToTop_timeout s' = backToTop_timeout s → keeps s s'.
Proof.
  intros Hl HD Ht Hn Hnt Hbt. split; [done|]. split; [done|].
  intros [Hq Hd]. split.
  - intros t. rewrite Ht, Hn. apply Hq.
  - intros d i. rewrite Hn. specialize (Hd d i).
    destruct d; cbn in *; rewrite ?Hnt, ?Hbt; exact Hd.
Qed.

Lemma timers_fresh_queue f due' s :
  timers_fresh s →
  timers_fresh (set_next_timer (S (next_timer s))
    (set_timers (timers s ++
       [{| timer_id := next_timer s; due := due'; callback := f |}]) s)).
Proof.
  intros [Hq Hd]. split; cbn.
  - intros t [Ht| ->%list_elem_of_singleton]%elem_of_app; [|cbn; lia].
    apply Hq in Ht. lia.
  - intros d i Hi. specialize (Hd d i). destruct d; cbn in *; specialize (Hd Hi); lia.
Qed.

Lemma keeps_setTimeout f wait s : keeps s (page_of (setTimeout f wait s)).
Proof. split; [done|]. split; [done|]. apply timers_fresh_queue. Qed.

Lemma timeout_set_timeout d d' v s :
  timeout d' (set_timeout d v s) = v ∨ timeout d' (set_timeout d v s) = timeout d' s.
Proof. destruct d, d'; cbn; auto. Qed.

Lemma keeps_debounce d f wait s : keeps s (page_of (debounce d f wait s)).
Proof.
  rewrite debounce_eq. cbn [page_of].
  set (q := match timeout d s with
            | Some i => filter (λ t, timer_id t ≠ i) (timers s)
            | None => timers s
            end).
  assert (Hq' : ∀ t, t ∈ q → t ∈ timers s).
  { unfold q. intros t. destruct (timeout d s); [|done].
    rewrite list_elem_of_filter. tauto. }
  split; [by destruct d|]. split; [by destruct d|].
  intros [Hq Hd]. split.
  - assert (Ht : ∀ v s', timers (set_timeout d v s') = timers s') by by destruct d.
    assert (Hn : ∀ v s', next_timer (set_timeout d v s') = next_timer s') by by destruct d.
    intros t. rewrite Ht, Hn. cbn.
    intros [Hin| ->%list_elem_of_singleton]%elem_of_app; [|cbn; lia].
    apply Hq', Hq in Hin. lia.
  - assert (Hn : ∀ v s', next_timer (set_timeout d v s') = next_timer s') by by destruct d.
    intros d' i. rewrite Hn. cbn.
    destruct (timeout_set_timeout d d' (Some (next_timer s))
      (set_next_timer (S (next_timer s)) (set_timers (q ++
         [{| timer_id := next_timer s; due := now s + wait; callback := f |}]) s)))
      as [-> | ->].
    + intros [= <-]. lia.
    + intros Hi. assert (Hi' : timeout d' s = Some i) by (by destruct d').
      apply Hd in Hi'. lia.
Qed.

Lemma keeps_toggleMobileMenu show s : keeps s (page_of (toggleMobileMenu show s)).
Proof.
  destruct (mobileMenu (DOM s)) as [menu|] eqn:E.
  - rewrite (toggleMobileMenu_eq show s menu E). by destruct show; apply keeps_same_timers.
  - rewrite (toggleMobileMenu_absent show s E). apply keeps_refl.
Qed.

Lemma keeps_anchor_click link s : keeps s (page_of (anchor_click link s)).
Proof.
  destruct (attribute "href" link s) as [href|] eqn:E.
  - destruct (String.prefix "#" href) eqn:Ep.
    + rewrite (anchor_click_eq link s href E Ep).
      by destruct (querySelector s href); apply keeps_same_timers.
    + unfold anchor_click, mbind, JS_bind, getAttribute, gets.
      fold (attribute "href" link s). rewrite E. cbn. rewrite Ep. apply keeps_refl.
  - unfold anchor_click, mbind, JS_bind, getAttribute, gets.
    fold (attribute "href" link s). rewrite E. apply keeps_refl.
Qed.

Lemma keeps_foldl {A} (g : A → Page → Page) (l : list A) s :
  (∀ x s', keeps s' (g x s')) → keeps s (foldl (λ s x, g x s) s l).
Proof.
  intros Hg. apply (foldl_invariant (keeps s)); [|apply keeps_refl].
  intros x s' _ Hs'. eapply keeps_trans; [exact Hs'|apply Hg].
Qed.

Lemma keeps_filter_card category card s : keeps s (filter_card category card s).
Proof.
  unfold filter_card. destruct (shouldShow _ _); [by apply keeps_same_timers|].
  split; [done|]. split; [done|]. intros Hfresh.
  apply (timers_fresh_queue (HideCard card) (now s + 300)
           (set_nodes (alter fading_style card (nodes s)) s)).
  exact Hfresh.
Qed.

Lemma keeps_filter_clicked this btns s : keeps s (filter_clicked this btns s).
Proof.
  assert (Hm : keeps s (mark_active this btns s)).
  { eapply keeps_trans; [|by apply keeps_same_timers].
    apply keeps_foldl. intros b s'. by apply keeps_same_timers. }
  unfold filter_clicked. destruct (bikeCards (DOM s)); [|done].
  eapply keeps_trans; [exact Hm|]. apply keeps_foldl. intros. apply keeps_filter_card.
Qed.

Lemma keeps_filter_click this s : keeps s (page_of (filter_click this s)).
Proof.
  destruct (filterBtns (DOM s)) as [btns|] eqn:E.
  - rewrite (filter_click_ok this s btns E). apply keeps_filter_clicked.
  - rewrite (filter_click_absent this s E). apply keeps_refl.
Qed.

Lemma keeps_handle h this e_target s : keeps s (page_of (handle h this e_target s)).
Proof.
  destruct h; cbn [handle].
  - apply keeps_setTimeout.
  - apply keeps_debounce.
  - apply keeps_toggleMobileMenu.
  - apply keeps_toggleMobileMenu.
  - unfold menu_outside_click, mbind, JS_bind, gets.
    destruct (bool_decide _); [apply keeps_toggleMobileMenu|apply keeps_refl].
  - destruct this; [apply keeps_refl|apply keeps_anchor_click].
  - destruct this; [apply keeps_refl|apply keeps_filter_click].
  - apply keeps_debounce.
  - by apply keeps_same_timers.
  - destruct this; [apply keeps_refl|by apply keeps_same_timers].
Qed.

Lemma keeps_dispatch_at this type e_target s : keeps s (dispatch_at this type e_target s).
Proof. unfold dispatch_at. apply keeps_foldl. intros. apply keeps_handle. Qed.

Lemma spawned_cases s t :
  spawned s t = [] ∨
  ∃ d, spawned s t = [{| timer_id := next_timer s; due := d; callback := LoaderHide |}].
Proof.
  unfold spawned. destruct (callback t); auto. destruct (loader (DOM s)); eauto.
Qed.

Lemma keeps_fire t rest s :
  (∀ x, x ∈ rest → x ∈ timers s) → keeps s (fire t (set_timers rest s)).
Proof.
  intros Hrest. rewrite fire_eq. split; [done|]. split; [done|].
  intros [Hq Hd]. split; cbn.
  - intros x [Hx|Hx]%elem_of_app.
    + apply Hrest, Hq in Hx. lia.
    + destruct (spawned_cases (set_timers rest s) t) as [Hs|[d Hs]]; rewrite Hs in *.
      * by apply elem_of_nil in Hx.
      * apply list_elem_of_singleton in Hx as ->. cbn. lia.
  - intros d i Hi. assert (Hi' : timeout d s = Some i) by by destruct d.
    apply Hd in Hi'. lia.
Qed.

Lemma keeps_elapse dt s : keeps s (elapse dt s).
Proof.
  unfold elapse. eapply keeps_trans; [|by apply keeps_same_timers].
  apply (run_invariant (keeps s)); [|apply keeps_refl].
  intros s' t rest Hs' Hpop _. eapply keeps_trans; [exact Hs'|].
  apply keeps_fire. intros x Hx. apply (pop_earliest_elem _ _ _ x) in Hpop.
  apply Hpop. by right.
Qed.

Lemma keeps_callback entries s : keeps s (page_of (imageObserver_callback entries s)).
Proof.
  rewrite imageObserver_callback_eq. cbn [page_of]. apply keeps_foldl.
  intros entry s'. unfold observe_entry. destruct (isIntersecting entry); [|apply keeps_refl].
  destruct (attribute _ _ _); [|apply keeps_refl].
  destruct (truthy_string _); [by apply keeps_same_timers|apply keeps_refl].
Qed.

(** Every event keeps the listeners, the cache and the freshness of timer
    identifiers. *)
Lemma keeps_step ev s : keeps s (step ev s).
Proof.
  destruct ev; cbn [step].
  - eapply keeps_trans; [|apply keeps_dispatch_at]. by apply keeps_same_timers.
  - destruct path as [|clicked path]; [apply keeps_refl|].
    eapply keeps_trans; [|apply keeps_dispatch_at].
    eapply keeps_trans; [|apply keeps_foldl; intros; apply keeps_dispatch_at].
    by apply keeps_same_timers.
  - eapply keeps_trans; [|apply keeps_dispatch_at]. by apply keeps_same_timers.
  - eapply keeps_trans; [|apply keeps_dispatch_at]. by apply keeps_same_timers.
  - apply keeps_elapse.
  - apply keeps_callback.
Qed.

Lemma init_started s : untouched s → started (page_of (init s)).
Proof.
  intros (Hl & Ht & Hn & Hb). destruct (init_eq s) as [o ->]. cbn [page_of].
  split.
  - cbn. by rewrite Hl.
  - split; cbn.
    + rewrite Ht. by intros t ?%elem_of_nil.
    + intros [] i; cbn; by rewrite ?Hn, ?Hb.
Qed.

(** The pages the script can be in: [init] on an untouched document, then
    any events. *)
Lemma started_run s evs :
  untouched s → started (foldl (λ s ev, step ev s) (page_of (init s)) evs).
Proof.
  intros Hs. apply (foldl_invariant started).
  - intros ev s' _. apply keeps_started, keeps_step.
  - by apply init_started.
Qed.

(** ** A scroll event, then quiet *)

Lemma on_scroll_on_click h (l : list nat) : filter on_scroll (on_click h <$> l) = [].
Proof.
  induction l as [|x l IH]; [done|]. rewrite fmap_cons.
  rewrite filter_cons_False; [exact IH|]. by intros [? _].
Qed.

Lemma on_scroll_option (mk : nat → Listener) (o : option nat) :
  (∀ node, listener_target (mk node) ≠ Window) →
  filter on_scroll (option_list (mk <$> o)) = [].
Proof.
  intros H. destruct o as [node|]; [|done]. change (filter on_scroll [mk node] = []).
  rewrite filter_cons_False; [done|]. intros [? _]. by apply (H node).
Qed.

(** The scroll listeners of a started page: the navbar handler, and the
    back-to-top handler when the control is there. *)
Lemma registered_scroll s :
  started s →
  registered Window "scroll" s =
  OnNavbarScroll :: match backToTop (DOM s) with
                    | Some _ => [OnBackToTopScroll]
                    | None => []
                    end.
Proof.
  intros [Hw _]. unfold registered. rewrite Hw. fold on_scroll.
  unfold wiring, loader_wiring, navigation_wiring, smooth_scroll_wiring,
    category_filter_wiring, back_to_top_wiring, contact_form_wiring.
  rewrite !filter_app, !on_scroll_on_click.
  rewrite !on_scroll_option by done.
  destruct (backToTop (DOM s)); reflexivity.
Qed.

Lemma debounce_queues d f wait s :
  let s' := page_of (debounce d f wait s) in
  nodes s' = nodes s ∧ DOM s' = DOM s ∧ scrollY s' = scrollY s ∧ now s' = now s ∧
  {| timer_id := next_timer s; due := now s + wait; callback := f |} ∈ timers s' ∧
  (∀ t, t ∈ timers s → timeout d s ≠ Some (timer_id t) → t ∈ timers s').
Proof.
  rewrite debounce_eq. cbn [page_of].
  assert (Ht : ∀ v s', timers (set_timeout d v s') = timers s') by by destruct d.
  do 4 (split; [by destruct d|]). rewrite Ht. cbn. split.
  - rewrite elem_of_app, list_elem_of_singleton. by right.
  - intros t Hin Hne. rewrite elem_of_app. left.
    destruct (timeout d s) as [i|]; [|done]. rewrite list_elem_of_filter.
    split; [congruence|done].
Qed.

(** X2. A scroll event on a started page, then [dt] ms without another
    event: both debounced handlers have settled if [dt] is at least their
    delay.  The back-to-top handler, which runs second on the event, does
    not cancel the timer the navbar handler has just queued. *)
Theorem scroll_event_settles (s : Page) (y : Q) (dt : Z) :
  started s →
  let s' := step (Elapse dt) (step (Scroll y) s) in
  (∀ node, navbar (DOM s) = Some node → is_Some (nodes s !! node) → 10 ≤ dt →
     has_class "scrolled" node s' = exceeds y CONFIG.scrollThreshold) ∧
  (∀ node, backToTop (DOM s) = Some node → is_Some (nodes s !! node) → 100 ≤ dt →
     has_class "visible" node s' = exceeds y CONFIG.backToTopThreshold).
Proof.
  intros Hs. cbn [step].
  set (sy := set_defaultPrevented false (set_scrollY y s)).
  assert (Hsy : started sy).
  { apply (keeps_started s); [|done]. by apply keeps_same_timers. }
  unfold dispatch_at. rewrite (registered_scroll sy Hsy).
  change (DOM sy) with (DOM s). cbn [foldl handle].
  destruct (debounce_queues ForNavbar NavbarScroll 10 sy)
    as (Hn1 & HD1 & Hy1 & Hnow1 & Hq1 & _).
  fold handleNavbarScroll in *. set (s1 := page_of (handleNavbarScroll sy)) in *.
  destruct (backToTop (DOM s)) as [btn|] eqn:Hbtn; cbn [foldl handle]; split.
  - intros node Hnav Hnode Hdt.
    destruct (debounce_queues ForBackToTop BackToTop 100 s1)
      as (Hn2 & HD2 & Hy2 & Hnow2 & _ & Hkeep).
    fold handleBackToTop in *. set (s2 := page_of (handleBackToTop s1)) in *.
    assert (Hy : scrollY s2 = y) by (rewrite Hy2, Hy1; done).
    rewrite <- Hy. apply (pending_settles ForNavbar).
    + cbn. by rewrite HD2, HD1.
    + by rewrite Hn2, Hn1.
    + eexists. split; [apply Hkeep; [exact Hq1|]|].
      * cbn. intros Hold.
        destruct Hsy as [_ [_ Hfresh]].
        assert (Hold' : timeout ForBackToTop sy = Some (next_timer sy)).
        { cbn. rewrite <- Hold. unfold s1, handleNavbarScroll. by rewrite debounce_eq. }
        apply Hfresh in Hold'. lia.
      * cbn. split; [done|]. rewrite Hnow2, Hnow1. cbn. lia.
  - intros node [= <-] Hnode Hdt.
    assert (Hy : scrollY s1 = y) by (rewrite Hy1; done).
    rewrite <- Hy. apply (debounced_settles ForBackToTop).
    + cbn. by rewrite HD1.
    + by rewrite Hn1.
    + done.
  - intros node Hnav Hnode Hdt. apply (debounced_settles ForNavbar node sy dt); done.
  - by intros node [=].
Qed.

(** ** The sample page, event by event *)

Example sample_document_untouched : untouched sample_document.
Proof. by repeat split. Qed.

Example sample_started : started sample.
Proof. apply init_started, sample_document_untouched. Qed.

(** On the sample page each event runs the listener the script registered
    for it. *)
Example sample_click_on_filter :
  step (Click [4%nat]) sample = page_of (filter_click 4 sample).
Proof. vm_compute. reflexivity. Qed.

Example sample_submit :
  step (Submit 10) sample = page_of (contact_submit 10 sample).
Proof. vm_compute. reflexivity. Qed.

Example sample_scroll :
  step (Scroll (103 # 2)) sample =
  page_of (handleBackToTop (page_of (handleNavbarScroll (set_scrollY (103 # 2) sample)))).
Proof. vm_compute. reflexivity. Qed.

Example sample_click_on_anchor :
  step (Click [11%nat]) sample = page_of (anchor_click 11 sample).
Proof. vm_compute. reflexivity. Qed.

(** The link 19 is a menu link and an in-page link at once, inside the menu
    panel 2: a click on it closes the menu, then scrolls. *)
Example sample_click_on_menu_link :
  step (Click [19; 2]%nat) (page_of (toggleMobileMenu true sample)) =
  page_of (anchor_click 19 (page_of (toggleMobileMenu false
    (page_of (toggleMobileMenu true sample))))).
Proof. vm_compute. reflexivity. Qed.

(** The loader fades 800 ms after the load event and is gone 300 ms later. *)
Example sample_loader :
  let s := step (Elapse 1100) (step PageLoad sample) in
  (style <$> nodes s !! 0%nat) = Some {[ "opacity" := "0"; "display" := "none" ]} ∧
  timers s = [].
Proof. split; vm_compute; reflexivity. Qed.

(** * Properties of the whole script *)

(** ** Witnesses for the properties of the timers *)

(** On the sample page: scrolling to 60 px sets the class on the navbar
    10 ms later, and not yet the class of the back-to-top control. *)
Lemma scroll_event_settles_witness :
  started sample ∧
  navbar (DOM sample) = Some 1%nat ∧
  has_class "scrolled" 1 (step (Elapse 10) (step (Scroll 60) sample)) = true.
Proof.
  split; [apply sample_started|]. split; [reflexivity|].
  destruct (scroll_event_settles sample 60 10 sample_started) as [H _].
  rewrite (H 1%nat); [vm_compute; reflexivity|reflexivity|by eexists|lia].
Defined.

(** On the sample page: 300 ms after a click on the filter button 4, the
    timers that hid the cards of the other category are gone. *)
Lemma hiding_timers_drained_witness :
  filterBtns (DOM sample) = Some [3; 4; 5]%nat ∧
  timers sample = [] ∧
  Forall (λ t, hides (elapse 300 (page_of (filter_click 4 sample))) t = None)
    (timers (elapse 300 (page_of (filter_click 4 sample)))).
Proof.
  split; [reflexivity|]. split; [reflexivity|].
  apply Forall_forall.
  apply (hiding_timers_drained sample 4 [3; 4; 5]%nat 300).
  - reflexivity.
  - by intros t ?%elem_of_nil.
  - lia.
Defined.

(** ** [init] in closed form *)

Section add_each.
Context {A : Type} `{EqDecision A}.
Implicit Types xs l : list A.

Lemma elem_of_add_each xs l y : y ∈ add_each xs l ↔ y ∈ l ∨ y ∈ xs.
Proof.
  unfold add_each. revert l. induction xs as [|x xs IH]; intros l; cbn [foldl].
  - rewrite elem_of_nil. tauto.
  - rewrite IH, elem_of_cons. case_bool_decide as Hx.
    + split; [tauto|]. intros [?|[->|?]]; auto.
    + rewrite elem_of_app, list_elem_of_singleton. tauto.
Qed.

Lemma NoDup_add_each xs l : NoDup l → NoDup (add_each xs l).
Proof.
  unfold add_each. revert l. induction xs as [|x xs IH]; intros l Hl; cbn [foldl]; [done|].
  apply IH. case_bool_decide as Hx; [done|].
  apply NoDup_app. split; [done|]. split; [|apply NoDup_singleton].
  by intros y Hy ->%list_elem_of_singleton.
Qed.

(** Elements that are all there already add nothing. *)
Lemma add_each_present xs l : (∀ x, x ∈ xs → x ∈ l) → add_each xs l = l.
Proof.
  unfold add_each. induction xs as [|x xs IH]; intros Hin; cbn [foldl]; [done|].
  rewrite bool_decide_eq_true_2 by (apply Hin; by left).
  apply IH. intros y Hy. apply Hin. by right.
Qed.

(** A filter that rejects the elements added does not see them. *)
Lemma filter_add_each (P : A → Prop) `{∀ x, Decision (P x)} xs l :
  (∀ x, x ∈ xs → ¬ P x) → filter P (add_each xs l) = filter P l.
Proof.
  unfold add_each. revert l. induction xs as [|x xs IH]; intros l Hxs; cbn [foldl]; [done|].
  rewrite IH by (intros y Hy; apply Hxs; by right).
  case_bool_decide; [done|].
  rewrite filter_app, filter_cons_False, filter_nil, app_nil_r; [done|].
  apply Hxs. by left.
Qed.

End add_each.

Lemma initLazyLoading_observed s :
  initLazyLoading s = Ok tt (set_observed (lazy_images s) s).
Proof.
  unfold initLazyLoading, lazy_images, mbind, JS_bind, gets.
  destruct (hasIntersectionObserver s); [|by destruct s].
  rewrite (forEach_fold _ (λ img s, if bool_decide (img ∈ observed s) then s
                                     else set_observed (observed s ++ [img]) s)) by done.
  f_equal. generalize (querySelectorAll s "img[data-src]"). intros l.
  assert (H : ∀ o, foldl (λ s x, if bool_decide (x ∈ observed s) then s
                 else set_observed (observed s ++ [x]) s) (set_observed o s) l
               = set_observed (add_each l o) s).
  { unfold add_each. induction l as [|x l IH]; intros o; cbn [foldl]; [done|].
    cbn [observed set_observed]. destruct (bool_decide (x ∈ o)); apply IH. }
  rewrite <- H. by destruct s.
Qed.

Lemma init_closed s :
  init s = Ok tt (set_observed (lazy_images s)
                    (add_listeners (wiring (cached s)) (set_DOM (cached s) s))).
Proof.
  destruct (init_eq s) as [o Ho]. rewrite Ho. do 2 f_equal.
  assert (H : observed (page_of (init s)) = lazy_images s).
  { unfold init. unfold mbind at 1, JS_bind at 1. unfold cacheDOMElements at 1, modify.
    fold (cached s). set (s0 := set_DOM _ s).
    assert (HD : DOM s0 = cached s) by done.
    unfold mbind at 1, JS_bind at 1. rewrite initLoader_eq.
    unfold mbind at 1, JS_bind at 1. rewrite initNavigation_eq.
    unfold mbind at 1, JS_bind at 1. rewrite initSmoothScroll_eq by done.
    unfold mbind at 1, JS_bind at 1. rewrite initCategoryFilter_eq by done.
    unfold mbind at 1, JS_bind at 1. rewrite initBackToTop_eq.
    unfold mbind at 1, JS_bind at 1. rewrite initContactForm_eq.
    by rewrite initLazyLoading_observed. }
  by rewrite Ho in H.
Qed.

(** X3. [init] returns normally on every document, whatever elements are
    missing.  On a document without listeners it leaves the elements, the
    body, the timers and what has left the page as they are, fills the
    cache from the queries, registers exactly the listeners of [wiring],
    and observes the images selected by [img[data-src]] when the browser
    has [IntersectionObserver], and none otherwise. *)
Theorem init_wires_the_page (s : Page) :
  listeners s = [] →
  let s' := page_of (init s) in
  returns (init s) = true ∧
  page_state s' = page_state s ∧
  timers s' = timers s ∧
  DOM s' = cached s ∧
  listeners s' = wiring (cached s) ∧
  ∀ img, img ∈ observed s' ↔
         img ∈ observed s ∨
         (hasIntersectionObserver s = true ∧ img ∈ querySelectorAll s "img[data-src]").
Proof.
  intros Hl. rewrite init_closed. cbn.
  do 4 (split; [done|]). split; [by rewrite Hl|].
  intros img. unfold lazy_images. destruct (hasIntersectionObserver s).
  - rewrite elem_of_add_each. tauto.
  - split; [tauto|]. by intros [?|[? _]].
Qed.

(** On the sample document and on the document without the elements. *)
Lemma init_wires_the_page_witness :
  listeners sample_document = [] ∧
  listeners sample = wiring (cached sample_document) ∧
  length (listeners sample) = 15%nat ∧
  observed sample = [14; 15]%nat ∧
  listeners bare = [on_window "load" OnLoad; on_window "scroll" OnNavbarScroll].
Proof.
  split; [reflexivity|].
  destruct (init_wires_the_page sample_document eq_refl) as (_ & _ & _ & _ & Hw & _).
  split; [exact Hw|]. split; [reflexivity|]. split; reflexivity.
Defined.

(** ** The timer queue *)

Lemma timers_ok_view s s' : timer_view s' = timer_view s → timers_ok s → timers_ok s'.
Proof.
  intros [= Ht Hn Hnt Hbt Hl] ((Hq & Hd) & Hnd & Hdeb & Hown & Hhide).
  assert (Hto : ∀ d, timeout d s' = timeout d s) by (intros []; done).
  split; [split|split; [|split; [|split]]].
  - intros t. rewrite Ht, Hn. apply Hq.
  - intros d i. rewrite Hto, Hn. apply Hd.
  - by rewrite Ht.
  - intros d t. rewrite Ht, Hto. apply Hdeb.
  - intros d t. rewrite Ht, Hto. apply Hown.
  - intros t. rewrite Ht, Hl. apply Hhide.
Qed.

Lemma timers_ok_queue f due' s :
  timers_ok s →
  (∀ d, f ≠ debounced_callback d) →
  (f = LoaderHide → is_Some (loader (DOM s))) →
  timers_ok (set_next_timer (S (next_timer s))
    (set_timers (timers s ++
       [{| timer_id := next_timer s; due := due'; callback := f |}]) s)).
Proof.
  intros (Hfresh & Hnd & Hdeb & Hown & Hhide) Hf Hl.
  split; [by apply timers_fresh_queue|]. split; [|split; [|split]]; cbn.
  - rewrite fmap_app. apply NoDup_app. split; [done|]. split; [|apply NoDup_singleton].
    intros i (t & -> & Ht)%list_elem_of_fmap Hi%list_elem_of_singleton.
    apply Hfresh in Ht. cbn in Hi. lia.
  - intros d t [Ht| ->%list_elem_of_singleton]%elem_of_app Hcb.
    + assert (Hto : timeout d s = Some (timer_id t)) by by apply Hdeb.
      by destruct d.
    + by destruct (Hf d).
  - intros d t [Ht| ->%list_elem_of_singleton]%elem_of_app Hto.
    + apply Hown; [done|]. by destruct d.
    + exfalso. assert (Hto' : timeout d s = Some (next_timer s)) by by destruct d.
      apply Hfresh in Hto'. lia.
  - intros t [Ht| ->%list_elem_of_singleton]%elem_of_app Hcb; [by apply (Hhide t)|].
    by apply Hl.
Qed.

Lemma timers_ok_debounce d wait s :
  timers_ok s → timers_ok (page_of (debounce d (debounced_callback d) wait s)).
Proof.
  intros (Hfresh & Hnd & Hdeb & Hown & Hhide).
  split; [by apply keeps_debounce|].
  rewrite debounce_eq. cbn [page_of].
  set (q := match timeout d s with
            | Some i => filter (λ t, timer_id t ≠ i) (timers s)
            | None => timers s
            end).
  assert (Hq : ∀ t, t ∈ q → t ∈ timers s ∧ callback t ≠ debounced_callback d).
  { unfold q. intros t Ht. destruct (timeout d s) as [i|] eqn:Ei.
    - apply list_elem_of_filter in Ht as [Hne Ht]. split; [done|].
      intros Hcb. apply (Hdeb d t Ht) in Hcb. congruence.
    - split; [done|]. intros Hcb. apply (Hdeb d t Ht) in Hcb. congruence. }
  assert (Hsub : sublist q (timers s)).
  { unfold q. destruct (timeout d s); [apply sublist_filter|done]. }
  assert (Ht : ∀ v s', timers (set_timeout d v s') = timers s') by by destruct d.
  assert (HD : ∀ v s', DOM (set_timeout d v s') = DOM s') by by destruct d.
  rewrite Ht, HD. cbn [timers set_timers set_next_timer DOM]. split; [|split; [|split]].
  - rewrite fmap_app. apply NoDup_app. split; [|split; [|apply NoDup_singleton]].
    + exact (sublist_NoDup _ _ Hnd (fmap_sublist timer_id _ _ Hsub)).
    + intros i (t & -> & Hin)%list_elem_of_fmap Hi%list_elem_of_singleton.
      apply Hq in Hin as [Hin _]. apply Hfresh in Hin. cbn in Hi. lia.
  - intros d' t [Hin| ->%list_elem_of_singleton]%elem_of_app Hcb.
    + apply Hq in Hin as [Hin Hne].
      assert (Hdd : d' ≠ d) by (intros ->; done).
      pose proof (Hdeb d' t Hin Hcb) as Hto. by destruct d, d'.
    + cbn in *. assert (d' = d) as -> by (by destruct d, d'). by destruct d.
  - intros d' t [Hin| ->%list_elem_of_singleton]%elem_of_app Hto.
    + apply Hq in Hin as [Hin Hne]. pose proof (proj1 Hfresh t Hin) as Hlt.
      destruct (decide (d' = d)) as [->|Hdd].
      * exfalso. assert (Some (next_timer s) = Some (timer_id t)) as [= Heq];
          [by destruct d|lia].
      * apply Hown; [done|]. by destruct d, d'.
    + cbn in *. destruct (decide (d' = d)) as [->|Hdd]; [done|exfalso].
      assert (Hto' : timeout d' s = Some (next_timer s)) by by destruct d, d'.
      apply Hfresh in Hto'. lia.
  - intros t [Hin| ->%list_elem_of_singleton]%elem_of_app Hcb.
    + apply Hq in Hin as [Hin _]. by apply (Hhide t).
    + cbn in Hcb. by destruct d.
Qed.

Lemma timers_ok_same s s' :
  timers s' = timers s → next_timer s' = next_timer s →
  navbar_timeout s' = navbar_timeout s → backToTop_timeout s' = backToTop_timeout s →
  DOM s' = DOM s → timers_ok s → timers_ok s'.
Proof.
  intros Ht Hn Hnt Hbt HD. apply timers_ok_view. unfold timer_view. congruence.
Qed.

Lemma timers_ok_foldl {A} (g : A → Page → Page) (l : list A) s :
  (∀ x s', timers_ok s' → timers_ok (g x s')) →
  timers_ok s → timers_ok (foldl (λ s x, g x s) s l).
Proof. intros Hg. apply (foldl_invariant timers_ok). intros x s' _. apply Hg. Qed.

Lemma timers_ok_toggleMobileMenu show s :
  timers_ok s → timers_ok (page_of (toggleMobileMenu show s)).
Proof.
  destruct (mobileMenu (DOM s)) as [menu|] eqn:E.
  - rewrite (toggleMobileMenu_eq show s menu E). by destruct show; apply timers_ok_same.
  - by rewrite (toggleMobileMenu_absent show s E).
Qed.

Lemma timers_ok_anchor_click link s :
  timers_ok s → timers_ok (page_of (anchor_click link s)).
Proof.
  destruct (attribute "href" link s) as [href|] eqn:E.
  - destruct (String.prefix "#" href) eqn:Ep.
    + rewrite (anchor_click_eq link s href E Ep).
      by destruct (querySelector s href); apply timers_ok_same.
    + unfold anchor_click, mbind, JS_bind, getAttribute, gets.
      fold (attribute "href" link s). rewrite E. cbn. by rewrite Ep.
  - unfold anchor_click, mbind, JS_bind, getAttribute, gets.
    fold (attribute "href" link s). by rewrite E.
Qed.

Lemma timers_ok_filter_card category card s :
  timers_ok s → timers_ok (filter_card category card s).
Proof.
  unfold filter_card. destruct (shouldShow _ _); [by apply timers_ok_same|].
  intros Hs.
  apply (timers_ok_queue (HideCard card) (now s + 300)
           (set_nodes (alter fading_style card (nodes s)) s)).
  - revert Hs. by apply timers_ok_same.
  - by intros [].
  - done.
Qed.

Lemma timers_ok_filter_click this s :
  timers_ok s → timers_ok (page_of (filter_click this s)).
Proof.
  destruct (filterBtns (DOM s)) as [btns|] eqn:E.
  - rewrite (filter_click_ok this s btns E). cbn [page_of]. intros Hs.
    assert (Hm : timers_ok (mark_active this btns s)).
    { unfold mark_active, activate.
      apply (timers_ok_same (foldl (λ s b, deactivate b s) s btns)); try done.
      apply timers_ok_foldl; [|done]. intros b s'. by apply timers_ok_same. }
    unfold filter_clicked. destruct (bikeCards (DOM s)); [|done].
    apply timers_ok_foldl; [|done]. intros. by apply timers_ok_filter_card.
  - by rewrite (filter_click_absent this s E).
Qed.

Lemma timers_ok_handle h this e_target s :
  timers_ok s → timers_ok (page_of (handle h this e_target s)).
Proof.
  destruct h; cbn [handle].
  - intros Hs. by apply (timers_ok_queue LoaderFade (now s + CONFIG.loadingDelay) s); [|intros []|].
  - apply (timers_ok_debounce ForNavbar).
  - apply timers_ok_toggleMobileMenu.
  - apply timers_ok_toggleMobileMenu.
  - unfold menu_outside_click, mbind, JS_bind, gets.
    destruct (bool_decide _); [apply timers_ok_toggleMobileMenu|done].
  - destruct this; [done|apply timers_ok_anchor_click].
  - destruct this; [done|apply timers_ok_filter_click].
  - apply (timers_ok_debounce ForBackToTop).
  - by apply timers_ok_same.
  - destruct this; [done|by apply timers_ok_same].
Qed.

Lemma timers_ok_fire t rest s :
  timers_ok s → pop_earliest (timers s) = Some (t, rest) →
  timers_ok (fire t (set_timers rest s)).
Proof.
  intros (Hfresh & Hnd & Hdeb & Hown & Hhide) Hpop.
  pose proof (pop_earliest_perm _ _ _ Hpop) as Hperm.
  assert (Hin : ∀ x, x ∈ rest → x ∈ timers s).
  { intros x Hx. rewrite Hperm. by right. }
  assert (Hrest : timers_ok (set_timers rest s)).
  { split; [|split; [|split; [|split]]]; cbn.
    - destruct Hfresh as [Hq Hd]. split; [|exact Hd].
      intros x Hx. cbn. by apply Hq, Hin.
    - rewrite Hperm, fmap_cons in Hnd. by apply NoDup_cons in Hnd as [_ ?].
    - intros d x Hx Hcb. assert (timeout d s = Some (timer_id x)) by by apply Hdeb; auto.
      by destruct d.
    - intros d x Hx Hto. apply Hown; [auto|]. by destruct d.
    - intros x Hx. apply Hhide. auto. }
  rewrite fire_eq.
  destruct (spawned_cases (set_timers rest s) t) as [Hs|[d Hs]]; rewrite Hs.
  - revert Hrest. apply timers_ok_same; cbn; rewrite ?app_nil_r; try done; lia.
  - cbn [length]. replace (next_timer (set_timers rest s) + 1)%nat
      with (S (next_timer (set_timers rest s))) by lia.
    assert (Hl : is_Some (loader (DOM s))).
    { unfold spawned in Hs. destruct (callback t); try done.
      cbn in Hs. by destruct (loader (DOM s)). }
    pose proof (timers_ok_queue LoaderHide d
      (set_nodes (edited (set_timers rest s) (callback t))
         (set_now (Z.max (now (set_timers rest s)) (due t)) (set_timers rest s)))) as Hq.
    apply Hq; [|by intros []|done].
    revert Hrest. by apply timers_ok_same.
Qed.

Lemma timers_ok_callback entries s :
  timers_ok s → timers_ok (page_of (imageObserver_callback entries s)).
Proof.
  rewrite imageObserver_callback_eq. cbn [page_of]. apply timers_ok_foldl.
  intros entry s'. unfold observe_entry. destruct (isIntersecting entry); [|done].
  destruct (attribute _ _ _); [|done].
  destruct (truthy_string _); [by apply timers_ok_same|done].
Qed.

Lemma timers_ok_init s : pristine s → timers_ok (page_of (init s)).
Proof.
  intros ((Hl & Ht & Hn & Hb) & _). destruct (init_eq s) as [o ->]. cbn [page_of].
  split; [|split; [|split; [|split]]]; cbn; rewrite ?Ht.
  - split; cbn; [rewrite Ht; by intros t ?%elem_of_nil|].
    intros [] i; cbn; by rewrite ?Hn, ?Hb.
  - constructor.
  - by intros d t ?%elem_of_nil.
  - by intros d t ?%elem_of_nil.
  - by intros t ?%elem_of_nil.
Qed.

(** ** Reachable pages *)

Lemma pop_earliest_rest l t rest x :
  pop_earliest l = Some (t, rest) → x ∈ rest → x ∈ l.
Proof. intros Hpop Hx. apply (pop_earliest_elem _ _ _ x) in Hpop. apply Hpop. by right. Qed.

Lemma pop_earliest_first l t rest : pop_earliest l = Some (t, rest) → t ∈ l.
Proof. intros Hpop. apply (pop_earliest_elem _ _ _ t) in Hpop. apply Hpop. by left. Qed.






Lemma reachable_timers_ok s0 s : reachable s0 s → timers_ok s.
Proof.
  induction 1 as [Hs0|y s _ IH|s _ IH|v s _ IH|x e s _ IH Hx|t rest s _ IH Hpop
                  |entries s _ IH He].
  - by apply timers_ok_init.
  - revert IH. by apply timers_ok_same.
  - revert IH. by apply timers_ok_same.
  - revert IH. by apply timers_ok_same.
  - by apply timers_ok_handle.
  - by apply timers_ok_fire.
  - by apply timers_ok_callback.
Qed.

(** Events are sequences of such moves. *)
Lemma registered_listener this type s h :
  h ∈ registered this type s →
  ∃ x, x ∈ listeners s ∧ listener_target x = this ∧ listener_handler x = h.
Proof.
  unfold registered. intros (x & -> & Hx)%list_elem_of_fmap.
  apply list_elem_of_filter in Hx as [[Ht _] Hx]. by exists x.
Qed.

Lemma reachable_dispatch_at s0 this type e_target s :
  reachable s0 s → reachable s0 (dispatch_at this type e_target s).
Proof.
  intros Hs. unfold dispatch_at.
  apply (foldl_invariant (λ s', reachable s0 s' ∧ listeners s' = listeners s)); [|done].
  intros h s' Hh [Hs' Hl]. apply registered_listener in Hh as (x & Hx & <- & <-).
  split.
  - apply reach_listener; [done|]. by rewrite Hl.
  - rewrite <- Hl. apply keeps_handle.
Qed.

Lemma reachable_elapse s0 dt s : reachable s0 s → reachable s0 (elapse dt s).
Proof.
  intros Hs. unfold elapse. apply reach_clock.
  apply (run_invariant (reachable s0)); [|done].
  intros s' t rest Hs' Hpop _. by apply reach_timer.
Qed.

Lemma reachable_step s0 ev s : reachable s0 s → reachable s0 (step ev s).
Proof.
  intros Hs. destruct ev; cbn [step].
  - by apply reachable_dispatch_at, reach_event, reach_scroll.
  - destruct path as [|clicked path]; [done|].
    apply reachable_dispatch_at.
    apply (foldl_invariant (reachable s0)); [|by apply reach_event].
    intros node s' _. apply reachable_dispatch_at.
  - by apply reachable_dispatch_at, reach_event.
  - by apply reachable_dispatch_at, reach_event.
  - by apply reachable_elapse.
  - apply reach_intersection; [done|]. by intros entry [? _]%list_elem_of_filter.
Qed.

Lemma reachable_run_events s0 evs s : reachable s0 s → reachable s0 (run_events evs s).
Proof.
  intros Hs. apply (foldl_invariant (reachable s0)); [|done].
  intros ev s' _. apply reachable_step.
Qed.

(** ** What holds on every reachable page *)



Lemma sample_document_pristine : pristine sample_document.
Proof. by repeat split. Qed.


(** A list without duplicates under [f] whose elements all have the same
    image has at most one element. *)
Lemma NoDup_fmap_constant {A B} (f : A → B) (b : B) (l : list A) :
  NoDup (f <$> l) → (∀ x, x ∈ l → f x = b) → l = [] ∨ ∃ x, l = [x].
Proof.
  destruct l as [|x [|y l]]; [by left|right; by exists x|].
  intros Hnd Hall. exfalso.
  rewrite !fmap_cons in Hnd. apply NoDup_cons in Hnd as [Hx _]. apply Hx.
  rewrite (Hall x), <- (Hall y); [left| |]; rewrite ?elem_of_cons; auto.
Qed.

(** X5. Debouncing leaves at most one call pending: on every reachable
    page the queue holds at most one timer for the function a debounced
    handler wraps, and it is the timer the handler remembers. *)
Theorem debounce_one_pending (s0 s : Page) (d : Debounced) :
  reachable s0 s →
  pending d s = [] ∨ ∃ t, pending d s = [t] ∧ timeout d s = Some (timer_id t).
Proof.
  intros (_ & Hnd & Hdeb & _ & _)%reachable_timers_ok.
  assert (Hp : ∀ t, t ∈ pending d s → timeout d s = Some (timer_id t)).
  { intros t [Hcb Ht]%list_elem_of_filter. by apply Hdeb. }
  destruct (timeout d s) as [i|] eqn:Ei.
  - destruct (NoDup_fmap_constant timer_id i (pending d s)) as [?|[t Ht]]; [| |by left|].
    + apply (sublist_NoDup _ (timer_id <$> timers s)); [done|].
      apply fmap_sublist, sublist_filter.
    + intros t Ht. apply Hp in Ht. congruence.
    + right. exists t. split; [done|]. f_equal. symmetry.
      assert (Some i = Some (timer_id t)) as [=]; [|done].
      apply Hp. rewrite Ht. by left.
  - left. destruct (pending d s) as [|t l] eqn:E; [done|].
    exfalso. assert (None = Some (timer_id t)) as [=]. apply Hp. by left.
Qed.

(** On the sample page, after three scroll events 5 ms apart. *)
Lemma debounce_one_pending_witness :
  let s := run_events [Scroll 10; Elapse 5; Scroll 60; Elapse 5; Scroll 400] sample in
  reachable sample_document s ∧
  (length (pending ForNavbar s) ≤ 1)%nat.
Proof.
  intros s.
  assert (Hs : reachable sample_document s).
  { apply reachable_run_events, reach_init, sample_document_pristine. }
  split; [exact Hs|].
  destruct (debounce_one_pending sample_document s ForNavbar Hs) as [->|(t & -> & _)];
    cbn; lia.
Defined.

(** ** Exceptions *)

(** X6. The listener of an in-page link throws in two cases only: the link
    has no [href] (reading [startsWith] of null, a [TypeError], before
    anything is done), or the [href] starts with # and is not a valid
    selector (a [SyntaxError] from [querySelector], after the default action
    has been cancelled). *)
Theorem anchor_click_throws (link : nat) (s s' : Page) (ex : Exception) :
  anchor_click link s = Throw ex s' ↔
  (attribute "href" link s = None ∧ ex = TypeError ∧ s' = s) ∨
  (∃ href, attribute "href" link s = Some href ∧ String.prefix "#" href = true ∧
           querySelector s href = Invalid ∧
           ex = SyntaxError ∧ s' = set_defaultPrevented true s).
Proof.
  destruct (attribute "href" link s) as [href|] eqn:E.
  - destruct (String.prefix "#" href) eqn:Ep.
    + rewrite (anchor_click_eq link s href E Ep). split.
      * destruct (querySelector s href) eqn:Eq; intros [= <- <-].
        right. by exists href.
      * intros [(? & _)|(href' & [= <-] & _ & -> & -> & ->)]; done.
    + assert (H : anchor_click link s = Ok tt s).
      { unfold anchor_click, mbind, JS_bind, getAttribute, gets.
        fold (attribute "href" link s). rewrite E. cbn. by rewrite Ep. }
      rewrite H. split; [done|].
      intros [(? & _)|(href' & [= <-] & ? & _)]; congruence.
  - assert (H : anchor_click link s = Throw TypeError s).
    { unfold anchor_click, mbind, JS_bind, getAttribute, gets.
      fold (attribute "href" link s). by rewrite E. }
    rewrite H. split.
    + intros [= <- <-]. by left.
    + intros [(_ & -> & ->)|(href' & [=] & _)]. done.
Qed.






(** ** Scroll events in a row *)








(** ** Timers are not cancelled *)

Lemma timers_toggleMobileMenu show s : timers (page_of (toggleMobileMenu show s)) = timers s.
Proof.
  destruct (mobileMenu (DOM s)) as [menu|] eqn:E.
  - rewrite (toggleMobileMenu_eq show s menu E). by destruct show.
  - by rewrite (toggleMobileMenu_absent show s E).
Qed.

Lemma timers_anchor_click link s : timers (page_of (anchor_click link s)) = timers s.
Proof.
  destruct (attribute "href" link s) as [href|] eqn:E.
  - destruct (String.prefix "#" href) eqn:Ep.
    + rewrite (anchor_click_eq link s href E Ep). by destruct (querySelector s href).
    + unfold anchor_click, mbind, JS_bind, getAttribute, gets.
      fold (attribute "href" link s). rewrite E. cbn. by rewrite Ep.
  - unfold anchor_click, mbind, JS_bind, getAttribute, gets.
    fold (attribute "href" link s). by rewrite E.
Qed.

Lemma timers_filter_click this s t :
  t ∈ timers s → t ∈ timers (page_of (filter_click this s)).
Proof.
  intros Ht. destruct (filterBtns (DOM s)) as [btns|] eqn:E.
  - rewrite (filter_click_ok this s btns E). cbn [page_of]. unfold filter_clicked.
    assert (Hm : t ∈ timers (mark_active this btns s)) by by rewrite timers_mark_active.
    destruct (bikeCards (DOM s)) as [cards|]; [|done].
    apply (foldl_invariant (λ s', t ∈ timers s')); [|done].
    intros card s' _ Hs'. rewrite timers_filter_card. apply elem_of_app. by left.
  - by rewrite (filter_click_absent this s E).
Qed.

(** A listener leaves in the queue every timer that is not a debounced
    call. *)
Lemma handle_keeps_timer h this e_target s t :
  timers_ok s → t ∈ timers s → (∀ d, callback t ≠ debounced_callback d) →
  t ∈ timers (page_of (handle h this e_target s)).
Proof.
  intros (_ & _ & _ & Hown & _) Ht Hcb.
  assert (Hdeb : ∀ d f wait, t ∈ timers (page_of (debounce d f wait s))).
  { intros d f wait. destruct (debounce_queues d f wait s) as (_ & _ & _ & _ & _ & Hkeep).
    apply Hkeep; [done|]. intros Hto. by apply (Hcb d), Hown. }
  destruct h; cbn [handle].
  - cbn. apply elem_of_app. by left.
  - apply Hdeb.
  - by rewrite timers_toggleMobileMenu.
  - by rewrite timers_toggleMobileMenu.
  - unfold menu_outside_click, mbind, JS_bind, gets.
    destruct (bool_decide _); [by rewrite timers_toggleMobileMenu|done].
  - destruct this; [done|]. cbn. by rewrite timers_anchor_click.
  - destruct this; [done|]. by apply timers_filter_click.
  - apply Hdeb.
  - done.
  - by destruct this.
Qed.

Lemma dispatch_at_keeps_timer this type e_target s t :
  timers_ok s → t ∈ timers s → (∀ d, callback t ≠ debounced_callback d) →
  timers_ok (dispatch_at this type e_target s) ∧
  t ∈ timers (dispatch_at this type e_target s).
Proof.
  intros Hok Ht Hcb. unfold dispatch_at.
  apply (foldl_invariant (λ s', timers_ok s' ∧ t ∈ timers s')); [|done].
  intros h s' _ [Hok' Ht']. split; [by apply timers_ok_handle|by apply handle_keeps_timer].
Qed.

Lemma elapse_keeps_timer dt s t :
  t ∈ timers s → t ∈ timers (elapse dt s) ↔ now s + dt < due t.
Proof.
  intros Ht. unfold elapse. cbn [timers set_now]. split.
  - intros Hin. by apply run_drains in Hin.
  - intros Hdue.
    assert (HF : t ∈ timers (run (budget (timers s)) (now s + dt) s)); [|done].
    apply (run_invariant (λ s', t ∈ timers s')); [|done].
    intros s' t' rest Ht' Hpop Hle. rewrite fire_timers. cbn [timers set_timers].
    apply elem_of_app. left.
    apply (pop_earliest_elem _ _ _ t) in Hpop. apply Hpop in Ht' as [->|?]; [lia|done].
Qed.

(** X9. A timer, once queued, cannot be cancelled unless it is a debounced
    call: on a reachable page a timer queued by the load listener, by the
    fading loader or by the filter (to hide a card) is still queued after
    every event other than the passing of time, and it stays queued as time
    passes exactly until it is due. *)
Theorem queued_timer_stays_until_due (s0 s : Page) (t : Timer) :
  reachable s0 s →
  t ∈ timers s →
  (∀ d, callback t ≠ debounced_callback d) →
  (∀ ev, (∀ dt, ev ≠ Elapse dt) → t ∈ timers (step ev s)) ∧
  (∀ dt, t ∈ timers (step (Elapse dt) s) ↔ now s + dt < due t).
Proof.
  intros Hok%reachable_timers_ok Ht Hcb. split; [|intros dt; by apply elapse_keeps_timer].
  intros ev Hev. destruct ev; cbn [step].
  - apply dispatch_at_keeps_timer; [|done..]. revert Hok. by apply timers_ok_same.
  - destruct path as [|clicked path]; [done|].
    assert (H : timers_ok (foldl (λ s node, dispatch_at (Node node) "click" (Node clicked) s)
                             (set_defaultPrevented false s) (clicked :: path)) ∧
                t ∈ timers (foldl (λ s node, dispatch_at (Node node) "click" (Node clicked) s)
                             (set_defaultPrevented false s) (clicked :: path))).
    { apply (foldl_invariant (λ s', timers_ok s' ∧ t ∈ timers s')
               (λ node s, dispatch_at (Node node) "click" (Node clicked) s)).
      - intros node s' _ [Hok' Ht']. by apply dispatch_at_keeps_timer.
      - split; [|done]. revert Hok. by apply timers_ok_same. }
    destruct H as [Hok' Ht']. by apply dispatch_at_keeps_timer.
  - apply dispatch_at_keeps_timer; [|done..]. revert Hok. by apply timers_ok_same.
  - apply dispatch_at_keeps_timer; [|done..]. revert Hok. by apply timers_ok_same.
  - by destruct (Hev dt).
  - rewrite imageObserver_callback_eq. cbn [page_of].
    apply (foldl_invariant (λ s', t ∈ timers s')); [|done].
    intros entry s' _ Hs'. unfold observe_entry. destruct (isIntersecting entry); [|done].
    destruct (attribute _ _ _); [|done]. by destruct (truthy_string _).
Qed.

(** On the sample page: the timer that hides card 7 after a click on the
    filter button 4 is still queued after a scroll event, a click on
    another button and 299 ms, and gone after 300 ms. *)
Lemma queued_timer_stays_until_due_witness :
  let t := {| timer_id := 1; due := 300; callback := HideCard 7 |} in
  let s := step (Click [4%nat]) sample in
  reachable sample_document s ∧
  timers s = [t] ∧
  t ∈ timers (step (Elapse 299) (step (Click [5%nat]) (step (Scroll 400) s))) ∧
  (t ∉ timers (step (Elapse 300) s)).
Proof.
  intros t s.
  assert (Hs : reachable sample_document s).
  { apply reachable_step, reach_init, sample_document_pristine. }
  assert (Hnd : ∀ d, callback t ≠ debounced_callback d) by (by intros []).
  split; [exact Hs|]. split; [vm_compute; reflexivity|].
  assert (Ht : t ∈ timers s) by (apply list_elem_of_In; vm_compute; tauto).
  destruct (queued_timer_stays_until_due sample_document s t Hs Ht Hnd) as [Hev Hdt].
  split.
  - pose proof (Hev (Scroll 400) ltac:(discriminate)) as H1.
    assert (Hs1 : reachable sample_document (step (Scroll 400) s))
      by (by apply reachable_step).
    destruct (queued_timer_stays_until_due sample_document _ t Hs1 H1 Hnd) as [Hev1 _].
    pose proof (Hev1 (Click [5%nat]) ltac:(discriminate)) as H2.
    assert (Hs2 : reachable sample_document (step (Click [5%nat]) (step (Scroll 400) s)))
      by (by apply reachable_step).
    destruct (queued_timer_stays_until_due sample_document _ t Hs2 H2 Hnd) as [_ Hdt2].
    apply (Hdt2 299). vm_compute. reflexivity.
  - intros Hin. apply (Hdt 300) in Hin. vm_compute in Hin. discriminate Hin.
Defined.

(** ** Passive listeners *)

(** X10. The scroll listeners are passive in fact: on a started page a
    scroll event never cancels the default action, edits no element and
    sends nothing out; all it does is queue the debounced calls. *)
Theorem scroll_listeners_are_passive (s : Page) (y : Q) :
  started s →
  let s' := step (Scroll y) s in
  defaultPrevented s' = false ∧
  nodes s' = nodes s ∧ body s' = body s ∧ effects s' = effects s ∧
  scrollY s' = y.
Proof.
  intros Hst. cbn [step].
  set (sy := set_defaultPrevented false (set_scrollY y s)).
  assert (Hsy : started sy).
  { apply (keeps_started s); [|done]. by apply keeps_same_timers. }
  unfold dispatch_at. rewrite (registered_scroll sy Hsy).
  destruct (backToTop (DOM sy)); cbn [foldl handle];
    unfold handleNavbarScroll, handleBackToTop; rewrite !debounce_eq; done.
Qed.

(** On the sample page. *)
Lemma scroll_listeners_are_passive_witness :
  started sample ∧ defaultPrevented (step (Scroll 400) sample) = false.
Proof.
  split; [apply sample_started|].
  by destruct (scroll_listeners_are_passive sample 400 sample_started) as [H _].
Defined.

(** ** The loading screen *)

Lemma filter_window_on_click type h (l : list nat) :
  filter (λ x, listener_target x = Window ∧ listener_type x = type) (on_click h <$> l) = [].
Proof.
  induction l as [|x l IH]; [done|]. rewrite fmap_cons.
  rewrite filter_cons_False; [exact IH|]. by intros [? _].
Qed.

Lemma filter_window_option type (mk : nat → Listener) (o : option nat) :
  (∀ node, listener_target (mk node) ≠ Window) →
  filter (λ x, listener_target x = Window ∧ listener_type x = type) (option_list (mk <$> o)) = [].
Proof.
  intros H. destruct o as [node|]; [|done].
  change (filter (λ x, listener_target x = Window ∧ listener_type x = type) [mk node] = []).
  rewrite filter_cons_False; [done|]. intros [? _]. by apply (H node).
Qed.

(** The one load listener of a started page. *)
Lemma registered_load s : started s → registered Window "load" s = [OnLoad].
Proof.
  intros [Hw _]. unfold registered. rewrite Hw.
  unfold wiring, loader_wiring, navigation_wiring, smooth_scroll_wiring,
    category_filter_wiring, back_to_top_wiring, contact_form_wiring.
  rewrite !filter_app, !filter_window_on_click.
  rewrite !filter_window_option by done.
  destruct (backToTop (DOM s)); reflexivity.
Qed.

Lemma opacity_fire t r s :
  opacity r (fire t s) =
  if decide (callback t = LoaderFade ∧ loader (DOM s) = Some r)
  then (λ _, "0") <$> nodes s !! r
  else opacity r s.
Proof.
  unfold opacity at 1. rewrite fire_nodes. unfold edited, edit.
  destruct (callback t) eqn:Ecb.
  1, 2: destruct (loader (DOM s)) as [node|]; cbn.
  5: destruct (navbar (DOM s)) as [node|]; cbn.
  7: destruct (backToTop (DOM s)) as [node|]; cbn.
  9: rename card into node.
  all: try (rewrite decide_False by (intros [? ?]; congruence); reflexivity).
  all: rewrite list_lookup_alter; unfold opacity.
  all: destruct (decide (node = r)) as [->|Hne];
       [|rewrite decide_False by (intros [? ?]; congruence); reflexivity].
  all: try rewrite decide_True by (split; congruence).
  all: try (rewrite decide_False by (intros [? ?]; congruence)).
  all: destruct (nodes s !! r) as [e|]; cbn; try done.
  all: by simplify_map_eq.
Qed.

Lemma fire_valid t s node : is_Some (nodes (fire t s) !! node) ↔ is_Some (nodes s !! node).
Proof. by rewrite fire_nodes, !lookup_lt_is_Some, edited_length. Qed.

(** X11. The loading screen goes away: on a started page with a loader, a
    load event followed by at least 1100 ms (the 800 ms of
    [CONFIG.loadingDelay], then the 300 ms of the fade) leaves the loader
    with opacity 0 and [display: none], whatever other timers are queued. *)
Theorem loader_removed_after_load (s : Page) (node : nat) (dt : Z) :
  started s →
  loader (DOM s) = Some node →
  is_Some (nodes s !! node) →
  1100 ≤ dt →
  let s' := step (Elapse dt) (step PageLoad s) in
  opacity node s' = Some "0" ∧ display node s' = Some "none".
Proof.
  intros Hst Hl Hnode Hdt. cbn [step].
  set (sy := set_defaultPrevented false s).
  assert (Hsy : started sy).
  { apply (keeps_started s); [|done]. by apply keeps_same_timers. }
  unfold dispatch_at. rewrite (registered_load sy Hsy). cbn [foldl handle].
  set (tA := {| timer_id := next_timer s; due := now s + 800; callback := LoaderFade |}).
  set (s1 := set_next_timer (S (next_timer s)) (set_timers (timers s ++ [tA]) sy)).
  change (page_of (on_load sy)) with s1.
  unfold elapse. change (now s1) with (now s). set (limit := now s + dt).
  set (Inv := λ s' : Page,
    DOM s' = DOM s ∧ is_Some (nodes s' !! node) ∧
    ((now s' ≤ now s + 800 ∧
      ∃ t, t ∈ timers s' ∧ callback t = LoaderFade ∧ due t ≤ now s + 800) ∨
     (opacity node s' = Some "0" ∧
      (display node s' = Some "none" ∨
       ∃ t, t ∈ timers s' ∧ callback t = LoaderHide ∧ due t ≤ limit)))).
  assert (H1 : Inv s1).
  { split; [done|]. split; [done|]. left. split; [cbn; lia|].
    exists tA. split; [|done]. cbn. rewrite elem_of_app, list_elem_of_singleton. by right. }
  assert (HF : Inv (run (budget (timers s1)) limit s1)).
  { apply run_invariant; [|done]. clear H1.
    intros s' t rest (HD & Hv & Hphase) Hpop Hdue.
    set (s'' := set_timers rest s').
    assert (HD'' : loader (DOM s'') = Some node) by (cbn; by rewrite HD).
    assert (Hv'' : is_Some (nodes s'' !! node)) by done.
    split; [by rewrite fire_DOM|]. split; [by apply fire_valid|].
    destruct Hphase as [(Hnow & tF & HtF & HcbF & HdueF)|(Hop & Hdis)].
    - pose proof (pop_earliest_min _ _ _ tF Hpop HtF) as Hmin.
      destruct (decide (callback t = LoaderFade)) as [Hcb|Hcb].
      + right. split.
        * rewrite opacity_fire, decide_True by done. by destruct Hv'' as [e ->].
        * right. eexists. split; [|split].
          -- rewrite fire_timers. apply elem_of_app. right.
             unfold spawned. rewrite Hcb, HD''. by left.
          -- done.
          -- cbn. unfold limit. lia.
      + left. split; [rewrite fire_eq; cbn; lia|].
        exists tF. split; [|done]. rewrite fire_timers. apply elem_of_app. left.
        apply (pop_earliest_elem _ _ _ tF) in Hpop. apply Hpop in HtF as [->|?]; done.
    - right. split.
      + rewrite opacity_fire. case_decide; [by destruct Hv'' as [e ->]|done].
      + destruct (decide (callback t = LoaderHide)) as [Hcb|Hcb].
        * left. rewrite display_fire, decide_True; [by destruct Hv'' as [e ->]|].
          unfold hides. rewrite Hcb. split; [done|congruence].
        * destruct Hdis as [Hnone|(tH & HtH & HcbH & HdueH)].
          -- left. rewrite display_fire. case_decide; [by destruct Hv'' as [e ->]|done].
          -- right. exists tH. split; [|done].
             rewrite fire_timers. apply elem_of_app. left.
             apply (pop_earliest_elem _ _ _ tH) in Hpop.
             apply Hpop in HtH as [->|?]; done. }
  destruct HF as (_ & _ & Hphase).
  set (s2 := run (budget (timers s1)) limit s1) in *.
  change (opacity node s2 = Some "0" ∧ display node s2 = Some "none").
  assert (Hdrained : ∀ t, t ∈ timers s2 → limit < due t).
  { intros t Ht. by apply run_drains in Ht. }
  destruct Hphase as [(_ & tF & HtF & _ & HdueF)|(Hop & [Hnone|(tH & HtH & _ & HdueH)])].
  - apply Hdrained in HtF. unfold limit in HtF. lia.
  - done.
  - apply Hdrained in HtH. lia.
Qed.

(** On the sample page. *)
Lemma loader_removed_after_load_witness :
  started sample ∧
  loader (DOM sample) = Some 0%nat ∧
  display 0 (step (Elapse 1100) (step PageLoad sample)) = Some "none".
Proof.
  split; [apply sample_started|]. split; [reflexivity|].
  apply (loader_removed_after_load sample 0 1100).
  - apply sample_started.
  - reflexivity.
  - by eexists.
  - lia.
Defined.

Lemma style_fire t r s :
  hides s t ≠ Some r → style <$> nodes (fire t s) !! r = style <$> nodes s !! r.
Proof.
  rewrite fire_nodes. unfold edited, edit, hides. intros Hh.
  destruct (callback t) eqn:Ecb.
  1, 2: destruct (loader (DOM s)) as [node|]; cbn; [|done].
  3: destruct (navbar (DOM s)) as [node|]; cbn; [|done].
  4: destruct (backToTop (DOM s)) as [node|]; cbn; [|done].
  5: rename card into node; cbn.
  all: rewrite list_lookup_alter; destruct (decide (node = r)) as [->|Hne]; [|done].
  all: try congruence.
  all: by destruct (nodes s !! r).
Qed.

(** X12. The loading screen stays for the delay: on a started page with a
    loader and no queued timer that hides it, a load event followed by less
    than 800 ms leaves the inline style of the loader as it was. *)
Theorem loader_stays_before_delay (s : Page) (node : nat) (dt : Z) :
  started s →
  loader (DOM s) = Some node →
  (∀ t, t ∈ timers s → hides s t ≠ Some node) →
  dt < 800 →
  let s' := step (Elapse dt) (step PageLoad s) in
  style <$> nodes s' !! node = style <$> nodes s !! node.
Proof.
  intros Hst Hl Hquiet Hdt. cbn [step].
  set (sy := set_defaultPrevented false s).
  assert (Hsy : started sy).
  { apply (keeps_started s); [|done]. by apply keeps_same_timers. }
  unfold dispatch_at. rewrite (registered_load sy Hsy). cbn [foldl handle].
  set (tA := {| timer_id := next_timer s; due := now s + 800; callback := LoaderFade |}).
  set (s1 := set_next_timer (S (next_timer s)) (set_timers (timers s ++ [tA]) sy)).
  change (page_of (on_load sy)) with s1.
  unfold elapse. change (now s1) with (now s). set (limit := now s + dt).
  set (Inv := λ s' : Page,
    DOM s' = DOM s ∧ style <$> nodes s' !! node = style <$> nodes s !! node ∧
    ∀ t, t ∈ timers s' → hides s' t = Some node → limit < due t).
  assert (HF : Inv (run (budget (timers s1)) limit s1)).
  { apply run_invariant.
    - intros s' t rest (HD & Hsty & Hq) Hpop Hdue.
      assert (Hh : hides (set_timers rest s') t ≠ Some node).
      { intros Hh. apply (Hq t) in Hh; [lia|]. by apply (pop_earliest_first _ _ rest). }
      split; [by rewrite fire_DOM|]. split; [by rewrite style_fire|].
      intros x. rewrite fire_timers. cbn [timers set_timers].
      assert (Hhx : hides (fire t (set_timers rest s')) x = hides s' x).
      { unfold hides. by rewrite fire_DOM. }
      rewrite Hhx. intros [Hx|Hx]%elem_of_app Hnode.
      + apply Hq; [|done]. by apply (pop_earliest_rest _ t rest).
      + apply hides_spawned in Hx as [Hx _]. exfalso. apply Hh.
        rewrite <- Hx. exact Hnode.
    - split; [done|]. split; [done|].
      intros t. cbn. intros [Ht| ->%list_elem_of_singleton]%elem_of_app Hh.
      + by apply Hquiet in Ht.
      + cbn. unfold limit. lia. }
  by destruct HF as (_ & Hsty & _).
Qed.

(** On the sample page, 799 ms after the load event. *)
Lemma loader_stays_before_delay_witness :
  started sample ∧
  timers sample = [] ∧
  style <$> nodes (step (Elapse 799) (step PageLoad sample)) !! 0%nat = Some ∅.
Proof.
  split; [apply sample_started|]. split; [reflexivity|].
  etrans; [|reflexivity].
  apply (loader_stays_before_delay sample 0 799).
  - apply sample_started.
  - reflexivity.
  - by intros t ?%elem_of_nil.
  - lia.
Defined.

(** ** Lazy loading, whatever else happens *)

Lemma same_images_refl s : same_images s s.
Proof. split; [apply stable_refl|done]. Qed.

Lemma same_images_trans s1 s2 s3 : same_images s1 s2 → same_images s2 s3 → same_images s1 s3.
Proof.
  intros (H1 & Ho1 & Hl1) (H2 & Ho2 & Hl2). split; [by eapply stable_trans|].
  split; [congruence|]. intros img. by rewrite Hl2, Hl1.
Qed.

(** A page that differs in nothing the lazy loader reads or writes. *)
Lemma same_images_fields s s' :
  nodes s' = nodes s → DOM s' = DOM s → observed s' = observed s → effects s' = effects s →
  same_images s s'.
Proof.
  intros Hn HD Ho He. split; [|split; [done|]].
  - split; [done|]. by rewrite Hn.
  - intros img. unfold loads. by rewrite He.
Qed.

Lemma same_images_alter f node s :
  (∀ e, attributes (f e) = attributes e) →
  same_images s (set_nodes (alter f node (nodes s)) s).
Proof. intros Hf. split; [by apply stable_alter|done]. Qed.

Lemma same_images_emit e s :
  (∀ img, is_load img e = false) →
  same_images s (set_effects (effects s ++ [e]) s).
Proof.
  intros He. split; [by split|]. split; [done|].
  intros img. unfold loads. cbn. rewrite filter_app, filter_cons_False, filter_nil, app_nil_r; [done|].
  rewrite He. by intros [].
Qed.

Lemma same_images_foldl {A} (g : A → Page → Page) (l : list A) s :
  (∀ x s', same_images s' (g x s')) → same_images s (foldl (λ s x, g x s) s l).
Proof.
  intros Hg. apply (foldl_invariant (same_images s)); [|apply same_images_refl].
  intros x s' _ Hs'. eapply same_images_trans; [exact Hs'|apply Hg].
Qed.

Lemma same_images_toggleMobileMenu show s :
  same_images s (page_of (toggleMobileMenu show s)).
Proof.
  destruct (mobileMenu (DOM s)) as [menu|] eqn:E.
  - rewrite (toggleMobileMenu_eq show s menu E). cbn [page_of].
    destruct show; unfold menu_shown, menu_hidden.
    + eapply same_images_trans; [by apply (same_images_alter
        (with_classList (DOMTokenList.add "active")) menu)|].
      by apply same_images_fields.
    + eapply same_images_trans; [by apply (same_images_alter
        (with_classList (DOMTokenList.remove "active")) menu)|].
      by apply same_images_fields.
  - rewrite (toggleMobileMenu_absent show s E). apply same_images_refl.
Qed.

Lemma same_images_anchor_click link s : same_images s (page_of (anchor_click link s)).
Proof.
  destruct (attribute "href" link s) as [href|] eqn:E.
  - destruct (String.prefix "#" href) eqn:Ep.
    + rewrite (anchor_click_eq link s href E Ep).
      destruct (querySelector s href); cbn [page_of]; try by apply same_images_fields.
      eapply same_images_trans; [|by apply (same_images_emit _ (set_defaultPrevented true s))].
      by apply same_images_fields.
    + unfold anchor_click, mbind, JS_bind, getAttribute, gets.
      fold (attribute "href" link s). rewrite E. cbn. rewrite Ep. apply same_images_refl.
  - unfold anchor_click, mbind, JS_bind, getAttribute, gets.
    fold (attribute "href" link s). rewrite E. apply same_images_refl.
Qed.

Lemma same_images_filter_card category card s : same_images s (filter_card category card s).
Proof.
  unfold filter_card. destruct (shouldShow _ _).
  - by apply same_images_alter.
  - eapply same_images_trans; [by apply (same_images_alter fading_style card)|].
    by apply same_images_fields.
Qed.

Lemma same_images_filter_click this s : same_images s (page_of (filter_click this s)).
Proof.
  destruct (filterBtns (DOM s)) as [btns|] eqn:E.
  - rewrite (filter_click_ok this s btns E). cbn [page_of].
    assert (Hm : same_images s (mark_active this btns s)).
    { eapply same_images_trans; [|by apply same_images_alter].
      apply same_images_foldl. intros b s'. by apply same_images_alter. }
    unfold filter_clicked. destruct (bikeCards (DOM s)); [|done].
    eapply same_images_trans; [exact Hm|].
    apply same_images_foldl. intros. apply same_images_filter_card.
  - rewrite (filter_click_absent this s E). apply same_images_refl.
Qed.

Lemma same_images_handle h this e_target s :
  same_images s (page_of (handle h this e_target s)).
Proof.
  destruct h; cbn [handle].
  - by apply same_images_fields.
  - unfold handleNavbarScroll. rewrite debounce_eq. by apply same_images_fields.
  - apply same_images_toggleMobileMenu.
  - apply same_images_toggleMobileMenu.
  - unfold menu_outside_click, mbind, JS_bind, gets.
    destruct (bool_decide _); [apply same_images_toggleMobileMenu|apply same_images_refl].
  - destruct this; [apply same_images_refl|apply same_images_anchor_click].
  - destruct this; [apply same_images_refl|apply same_images_filter_click].
  - unfold handleBackToTop. rewrite debounce_eq. by apply same_images_fields.
  - by apply (same_images_emit (ScrollTo 0 "smooth")).
  - destruct this as [|form]; [apply same_images_refl|].
    change (page_of (on_element (Node form) contact_submit s))
      with (submitted reset_control form s). unfold submitted.
    eapply same_images_trans;
      [|by apply (same_images_alter _ _
                    (set_effects (effects s ++ [Alert success_message])
                       (set_defaultPrevented true s)))].
    eapply same_images_trans;
      [|by apply (same_images_emit _ (set_defaultPrevented true s))].
    by apply same_images_fields.
Qed.

Lemma same_images_fire t s : same_images s (fire t s).
Proof. split; [apply stable_fire|]. by rewrite fire_eq. Qed.

Lemma stable_attribute name s s' node : stable s s' → attribute name node s' = attribute name node s.
Proof.
  intros (_ & _ & H). unfold attribute. specialize (H node).
  destruct (nodes s' !! node), (nodes s !! node); cbn in *; congruence.
Qed.

Lemma images_ok_same s0 s s' : same_images s s' → images_ok s0 s → images_ok s0 s'.
Proof.
  intros (Hst & Ho & Hl) [Hobs Himg]. split; [by rewrite Ho|].
  intros img. unfold image_state.
  rewrite Hl, Ho, !(stable_attribute _ s s') by done. apply Himg.
Qed.

Lemma images_ok_init s0 : pristine s0 → images_ok s0 (page_of (init s0)).
Proof.
  intros (_ & Ho & He). rewrite init_closed. cbn [page_of]. split.
  - intros img. cbn. unfold lazy_images, deferred. rewrite Ho.
    destruct (hasIntersectionObserver s0); [|by intros ?%elem_of_nil].
    rewrite elem_of_add_each. intros [?%elem_of_nil|?]; done.
  - intros img. left. split; [|done]. unfold loads. cbn. by rewrite He.
Qed.

Lemma loads_load_image_ne img other v s :
  other ≠ img → loads other (load_image img v s) = loads other s.
Proof.
  intros Hne. unfold loads, load_image. cbn.
  rewrite filter_app, filter_cons_False, filter_nil, app_nil_r; [done|].
  cbn. rewrite bool_decide_eq_false_2; [by intros []|congruence].
Qed.

Lemma attribute_load_image_ne name img other v s :
  other ≠ img → attribute name other (load_image img v s) = attribute name other s.
Proof.
  intros Hne. unfold attribute, load_image. cbn.
  by rewrite !list_lookup_alter_ne by done.
Qed.

Lemma images_ok_entry s0 entry s :
  deferred s0 (target entry) → images_ok s0 s → images_ok s0 (observe_entry entry s).
Proof.
  intros Hdef [Hobs Himg]. unfold observe_entry.
  destruct (isIntersecting entry); [|done].
  set (img := target entry) in *.
  destruct (attribute "data-src" img s) as [v|] eqn:Ea; [|done].
  destruct (truthy_string (Some v)) eqn:Ev; [|done].
  assert (Hv : v ≠ "") by (intros ->; done).
  assert (He : ∃ e, nodes s !! img = Some e).
  { unfold attribute in Ea. destruct (nodes s !! img) as [e|]; [by exists e|done]. }
  destruct He as [e He].
  destruct (load_image_spec img v s e He) as (Hn' & Ho' & Hl').
  split.
  - intros other. unfold load_image. cbn. intros [_ ?]%list_elem_of_filter. auto.
  - intros other. destruct (decide (other = img)) as [->|Hne].
    + right. exists v. destruct (Himg img) as [[Hl Hd]|(v' & _ & _ & _ & _ & _ & Hnone & _)].
      * split; [by rewrite Hl', Hl|]. split; [done|]. split; [done|].
        split; [by rewrite <- Hd|].
        unfold attribute. rewrite Hn'. cbn. by simplify_map_eq.
      * congruence.
    + destruct (Himg other) as [[Hl Hd]|(v' & Hl & ? & ? & ? & Hs & Hd & Ho)].
      * left. by rewrite loads_load_image_ne, attribute_load_image_ne.
      * right. exists v'. rewrite loads_load_image_ne, !attribute_load_image_ne by done.
        do 6 (split; [done|]). unfold load_image. cbn.
        by intros [_ ?]%list_elem_of_filter.
Qed.

Lemma images_ok_callback s0 entries s :
  (∀ entry, entry ∈ entries → target entry ∈ observed s) →
  images_ok s0 s → images_ok s0 (page_of (imageObserver_callback entries s)).
Proof.
  intros He Hs. rewrite imageObserver_callback_eq. cbn [page_of].
  apply (foldl_invariant (images_ok s0)); [|done].
  intros entry s' Hin. apply images_ok_entry. destruct Hs as [Hobs _]. auto.
Qed.

Lemma reachable_images_ok s0 s : reachable s0 s → images_ok s0 s.
Proof.
  induction 1 as [Hs0|y s _ IH|s _ IH|v s _ IH|x e s _ IH Hx|t rest s _ IH Hpop
                  |entries s _ IH He].
  - by apply images_ok_init.
  - revert IH. apply images_ok_same. by apply same_images_fields.
  - revert IH. apply images_ok_same. by apply same_images_fields.
  - revert IH. apply images_ok_same. by apply same_images_fields.
  - revert IH. apply images_ok_same, same_images_handle.
  - revert IH. apply images_ok_same.
    eapply same_images_trans; [|apply same_images_fire]. by apply same_images_fields.
  - by apply images_ok_callback.
Qed.

(** X13. Whatever events happen and in whatever order, an image is loaded
    at most once.  On every reachable page an image either has not been
    loaded and has the [data-src] it had before [init], or it has been
    loaded exactly once: then the browser has [IntersectionObserver], the
    image was selected by [img[data-src]] at [init], the source assigned is
    the non-empty [data-src] it had, its [src] is that source, the [data-src]
    attribute is gone and the image is no longer observed.  So without
    [IntersectionObserver] no deferred image is ever loaded. *)
Theorem image_loaded_at_most_once (s0 s : Page) (img : nat) :
  reachable s0 s →
  (loads img s = [] ∧ attribute "data-src" img s = attribute "data-src" img s0) ∨
  (∃ v, loads img s = [SetSrc img v] ∧ v ≠ "" ∧
        hasIntersectionObserver s0 = true ∧
        img ∈ querySelectorAll s0 "img[data-src]" ∧
        attribute "data-src" img s0 = Some v ∧
        attribute "src" img s = Some v ∧
        attribute "data-src" img s = None ∧
        img ∉ observed s).
Proof.
  intros [_ Himg]%reachable_images_ok.
  destruct (Himg img) as [?|(v & ? & ? & [? ?] & ?)]; [by left|].
  right. by exists v.
Qed.

(** On the sample page the image 14 comes into view twice, with a click
    and a scroll event in between. *)
Lemma image_loaded_at_most_once_witness :
  let entry := {| isIntersecting := true; target := 14%nat |} in
  let s := run_events [Intersection [entry]; Click [4%nat]; Scroll 700;
                       Intersection [entry; entry]; Elapse 300] sample in
  reachable sample_document s ∧
  loads 14 s = [SetSrc 14 "img/trail.jpg"].
Proof.
  intros entry s.
  assert (Hs : reachable sample_document s).
  { apply reachable_run_events, reach_init, sample_document_pristine. }
  split; [exact Hs|].
  destruct (image_loaded_at_most_once sample_document s 14 Hs)
    as [[_ Hd]|(v & Hl & _ & _ & _ & Hv & _)].
  - exfalso. vm_compute in Hd. discriminate Hd.
  - rewrite Hl. f_equal. f_equal. vm_compute in Hv. congruence.
Defined.

(** ** The menu *)

Lemma filter_all {A} (P : A → Prop) `{∀ x, Decision (P x)} (l : list A) :
  (∀ x, x ∈ l → P x) → filter P l = l.
Proof.
  induction l as [|x l IH]; intros Hall; [done|].
  rewrite filter_cons_True by (apply Hall; by left).
  f_equal. apply IH. intros y Hy. apply Hall. by right.
Qed.





(** ** Clicks and submits on a started page *)

Lemma filter_none {A} (P : A → Prop) `{∀ x, Decision (P x)} (l : list A) :
  (∀ x, x ∈ l → ¬ P x) → filter P l = [].
Proof.
  induction l as [|x l IH]; intros Hnone; [done|].
  rewrite filter_cons_False by (apply Hnone; by left).
  apply IH. intros y Hy. apply Hnone. by right.
Qed.

(** The listeners [init] adds are for load and scroll events on the window,
    for clicks on elements, and for submits on the contact form. *)
Lemma wiring_cases D x :
  x ∈ wiring D →
  (listener_target x = Window ∧ (listener_type x = "load" ∨ listener_type x = "scroll")) ∨
  (∃ node, listener_target x = Node node ∧ listener_type x = "click") ∨
  (∃ form, contactForm D = Some form ∧ x = on_submit form).
Proof.
  unfold wiring, loader_wiring, navigation_wiring, smooth_scroll_wiring,
    category_filter_wiring, back_to_top_wiring, contact_form_wiring.
  rewrite !elem_of_app, !list_elem_of_fmap, !list_elem_of_singleton.
  intros H.
  repeat match goal with
  | H : _ ∨ _ |- _ => destruct H as [H|H]
  | H : ∃ _, _ ∧ _ |- _ => destruct H as (? & -> & _)
  | H : x = _ |- _ => rewrite H in *; clear H
  end; cbn in *; eauto.
  - destruct (mobileToggle D); cbn in H; [|by apply elem_of_nil in H].
    apply list_elem_of_singleton in H as ->. eauto.
  - destruct (mobileClose D); cbn in H; [|by apply elem_of_nil in H].
    apply list_elem_of_singleton in H as ->. eauto.
  - destruct (mobileMenu D); cbn in H; [|by apply elem_of_nil in H].
    apply list_elem_of_singleton in H as ->. eauto.
  - destruct (backToTop D); [|by apply elem_of_nil in H].
    apply elem_of_cons in H as [->| ->%list_elem_of_singleton]; eauto.
  - destruct (contactForm D) as [form|]; cbn in H; [|by apply elem_of_nil in H].
    apply list_elem_of_singleton in H as ->. right. right. by exists form.
Qed.


(** The one submit listener of a started page is on the contact form. *)
Lemma registered_submit s node :
  started s →
  registered (Node node) "submit" s =
  if decide (contactForm (DOM s) = Some node) then [OnSubmit] else [].
Proof.
  intros [Hw _]. unfold registered. rewrite Hw. unfold wiring.
  rewrite !app_assoc, filter_app.
  rewrite filter_none.
  - unfold contact_form_wiring. destruct (contactForm (DOM s)) as [form|]; cbn.
    + change (listener_handler <$>
        filter (λ l, listener_target l = Node node ∧ listener_type l = "submit")
          [on_submit form]
        = if decide (Some form = Some node) then [OnSubmit] else []).
      destruct (decide (form = node)) as [->|Hne].
      * by rewrite filter_cons_True, decide_True.
      * rewrite filter_cons_False, decide_False; [done|congruence|].
        intros [[=] _]. done.
    + by rewrite decide_False.
  - intros x Hx [Ht Hty].
    assert (Hin : x ∈ wiring (DOM s)).
    { unfold wiring. rewrite !app_assoc. apply elem_of_app. by left. }
    rewrite <- !app_assoc in Hx.
    destruct (wiring_cases _ _ Hin) as [(? & _)|[(? & _ & ?)|(form & _ & ->)]];
      [congruence|congruence|].
    (* a submit listener is not one of the others *)
    unfold loader_wiring, navigation_wiring, smooth_scroll_wiring,
      category_filter_wiring, back_to_top_wiring in Hx.
    rewrite !elem_of_app, !list_elem_of_fmap, !list_elem_of_singleton in Hx.
    repeat match goal with
    | H : _ ∨ _ |- _ => destruct H as [H|H]
    | H : ∃ _, _ ∧ _ |- _ => destruct H as (? & ? & _)
    end; try discriminate.
    + destruct (mobileToggle (DOM s)); cbn in Hx; [|by apply elem_of_nil in Hx].
      by apply list_elem_of_singleton in Hx.
    + destruct (mobileClose (DOM s)); cbn in Hx; [|by apply elem_of_nil in Hx].
      by apply list_elem_of_singleton in Hx.
    + destruct (mobileMenu (DOM s)); cbn in Hx; [|by apply elem_of_nil in Hx].
      by apply list_elem_of_singleton in Hx.
    + destruct (backToTop (DOM s)); [|by apply elem_of_nil in Hx].
      by apply elem_of_cons in Hx as [?|?%list_elem_of_singleton].
Qed.

(** X15. A submit event on a started page: on the contact form it runs
    the submit listener once (default action cancelled, one notification,
    every control back to its default value); on any other form the script
    does nothing and the default action goes ahead. *)
Theorem submit_event_reaches_contact_form (s : Page) (form : nat) :
  started s →
  step (Submit form) s =
  if decide (contactForm (DOM s) = Some form)
  then submitted reset_control form (set_defaultPrevented false s)
  else set_defaultPrevented false s.
Proof.
  intros Hst. cbn [step].
  set (sy := set_defaultPrevented false s).
  assert (Hsy : started sy).
  { apply (keeps_started s); [|done]. by apply keeps_same_timers. }
  unfold dispatch_at. rewrite (registered_submit sy form Hsy).
  change (DOM sy) with (DOM s). by case_decide.
Qed.

(** On the sample page: the contact form is node 10; node 13 is not. *)
Lemma submit_event_reaches_contact_form_witness :
  started sample ∧
  effects (step (Submit 10) sample) = [Alert success_message] ∧
  defaultPrevented (step (Submit 10) sample) = true ∧
  step (Submit 13) sample = sample.
Proof.
  split; [apply sample_started|].
  rewrite !(submit_event_reaches_contact_form sample _ sample_started).
  split; [vm_compute; reflexivity|]. split; vm_compute; reflexivity.
Defined.



(** ** What a listener edits *)

Lemma nodes_toggleMobileMenu show s node :
  mobileMenu (DOM s) ≠ Some node →
  nodes (page_of (toggleMobileMenu show s)) !! node = nodes s !! node.
Proof.
  intros Hne. destruct (mobileMenu (DOM s)) as [menu|] eqn:E.
  - rewrite (toggleMobileMenu_eq show s menu E).
    destruct show; cbn; rewrite list_lookup_alter_ne; congruence.
  - by rewrite (toggleMobileMenu_absent show s E).
Qed.

Lemma body_anchor_click link s :
  body (page_of (anchor_click link s)) = body s ∧
  nodes (page_of (anchor_click link s)) = nodes s.
Proof.
  destruct (attribute "href" link s) as [href|] eqn:E.
  - destruct (String.prefix "#" href) eqn:Ep.
    + rewrite (anchor_click_eq link s href E Ep). by destruct (querySelector s href).
    + unfold anchor_click, mbind, JS_bind, getAttribute, gets.
      fold (attribute "href" link s). rewrite E. cbn. by rewrite Ep.
  - unfold anchor_click, mbind, JS_bind, getAttribute, gets.
    fold (attribute "href" link s). by rewrite E.
Qed.

Lemma body_filter_clicked this btns s :
  body (filter_clicked this btns s) = body s.
Proof.
  assert (Hm : body (mark_active this btns s) = body s).
  { unfold mark_active, activate. cbn.
    by apply (foldl_invariant (λ s', body s' = body s)). }
  unfold filter_clicked. destruct (bikeCards (DOM s)); [|done].
  rewrite <- Hm. apply (foldl_invariant (λ s', body s' = body (mark_active this btns s)));
    [|done].
  intros card s' _ <-. unfold filter_card. by destruct (shouldShow _ _).
Qed.

Lemma nodes_filter_clicked this btns s node :
  node ≠ this → node ∉ btns → node ∉ default [] (bikeCards (DOM s)) →
  nodes (filter_clicked this btns s) !! node = nodes s !! node.
Proof.
  intros Hthis Hbtns Hcards.
  assert (Hm : nodes (mark_active this btns s) !! node = nodes s !! node).
  { unfold mark_active, activate. cbn. rewrite list_lookup_alter_ne by done.
    apply (foldl_invariant (λ s', nodes s' !! node = nodes s !! node)); [|done].
    intros b s' Hb <-. unfold deactivate. cbn. apply list_lookup_alter_ne.
    by intros ->. }
  unfold filter_clicked. destruct (bikeCards (DOM s)) as [cards|]; [|done].
  rewrite <- Hm.
  apply (foldl_invariant
           (λ s', nodes s' !! node = nodes (mark_active this btns s) !! node)); [|done].
  intros card s' Hcard <-. unfold filter_card.
  destruct (shouldShow _ _); cbn; apply list_lookup_alter_ne; by intros ->.
Qed.

(** X17. Each listener edits only the elements of its own feature: an
    element outside the footprint of the listener is the same after the
    listener has run, and only the three menu listeners change the body. *)
Theorem listener_edits_only_its_feature (h : Handler) (this e_target : Target)
    (s : Page) (node : nat) :
  node ∉ footprint h this s →
  let s' := page_of (handle h this e_target s) in
  nodes s' !! node = nodes s !! node ∧
  (menu_listener h = false → body s' = body s).
Proof.
  intros Hout. destruct h; cbn [handle menu_listener].
  - done.
  - unfold handleNavbarScroll. by rewrite debounce_eq.
  - split; [|done]. apply nodes_toggleMobileMenu. intros Hm. apply Hout.
    cbn. rewrite Hm. by left.
  - split; [|done]. apply nodes_toggleMobileMenu. intros Hm. apply Hout.
    cbn. rewrite Hm. by left.
  - split; [|done]. unfold menu_outside_click, mbind, JS_bind, gets.
    destruct (bool_decide _); [|done].
    apply nodes_toggleMobileMenu. intros Hm. apply Hout. cbn. rewrite Hm. by left.
  - destruct this as [|link]; [done|]. cbn.
    destruct (body_anchor_click link s) as [Hb Hn]. by rewrite Hb, Hn.
  - destruct this as [|btn]; [done|]. cbn in *.
    destruct (filterBtns (DOM s)) as [btns|] eqn:E.
    + rewrite (filter_click_ok btn s btns E). cbn [page_of].
      rewrite not_elem_of_cons, not_elem_of_app in Hout. destruct Hout as (? & ? & ?).
      split; [by apply nodes_filter_clicked|]. intros _. apply body_filter_clicked.
    + by rewrite (filter_click_absent btn s E).
  - unfold handleBackToTop. by rewrite debounce_eq.
  - done.
  - destruct this as [|form]; [done|]. cbn in *. split; [|done].
    apply list_lookup_alter_ne. intros ->. apply Hout. by left.
Qed.

(** On the sample page: a click on the filter button 4 leaves the navbar,
    node 1, as it was. *)
Lemma listener_edits_only_its_feature_witness :
  footprint OnFilterClick (Node 4) sample = [4; 3; 4; 5; 6; 7; 8]%nat ∧
  nodes (page_of (handle OnFilterClick (Node 4) (Node 4) sample)) !! 1%nat
  = nodes sample !! 1%nat.
Proof.
  split; [reflexivity|].
  apply (listener_edits_only_its_feature OnFilterClick (Node 4) (Node 4) sample 1).
  apply (bool_decide_unpack _). vm_compute. exact I.
Defined.

(** ** The utilities *)

Lemma isInViewport_true rect w h :
  isInViewport rect w h = true ↔
  (0 <= DOMRect.top rect)%Q ∧ (0 <= DOMRect.left rect)%Q ∧
  (DOMRect.bottom rect <= h)%Q ∧ (DOMRect.right rect <= w)%Q.
Proof. unfold isInViewport. rewrite !andb_true_iff, !Qle_bool_iff. tauto. Qed.

(** X18. [isInViewport] is true exactly when the whole box of the element
    lies in the window: for a box as the browser reports it (left edge not
    right of the right edge, top edge not below the bottom edge), the
    function returns true iff every point of the box is a point of the
    window. *)
Theorem isInViewport_iff_whole_box_visible (rect : DOMRect.t) (innerWidth innerHeight : Q) :
  (DOMRect.left rect <= DOMRect.right rect)%Q →
  (DOMRect.top rect <= DOMRect.bottom rect)%Q →
  isInViewport rect innerWidth innerHeight = true ↔
  ∀ x y, inside rect x y → in_window innerWidth innerHeight x y.
Proof.
  intros Hlr Htb. rewrite isInViewport_true. unfold inside, in_window. split.
  - intros (Ht & Hl & Hb & Hr) x y (? & ? & ? & ?). repeat split; lra.
  - intros H.
    destruct (H (DOMRect.left rect) (DOMRect.top rect)) as (? & ? & ? & ?);
      [repeat split; lra|].
    destruct (H (DOMRect.right rect) (DOMRect.bottom rect)) as (? & ? & ? & ?);
      [repeat split; lra|].
    repeat split; lra.
Qed.

(** A box of 200 by 100 at (10, 20) in a window of 1280 by 720. *)
Lemma isInViewport_iff_whole_box_visible_witness :
  let rect := {| DOMRect.top := 20; DOMRect.left := 10;
                 DOMRect.bottom := 120; DOMRect.right := 210 |} in
  isInViewport rect 1280 720 = true ∧
  in_window 1280 720 (21 # 2) 120.
Proof.
  intros rect. split; [reflexivity|].
  apply (isInViewport_iff_whole_box_visible rect 1280 720).
  - cbn. lra.
  - cbn. lra.
  - reflexivity.
  - unfold inside. cbn. repeat split; lra.
Defined.

(** X19. An element taller or wider than the window is never in the
    viewport, wherever it is scrolled to. *)
Theorem isInViewport_false_when_larger (rect : DOMRect.t) (innerWidth innerHeight : Q) :
  (innerHeight < DOMRect.bottom rect - DOMRect.top rect)%Q ∨
  (innerWidth < DOMRect.right rect - DOMRect.left rect)%Q →
  isInViewport rect innerWidth innerHeight = false.
Proof.
  intros H. apply not_true_iff_false. rewrite isInViewport_true.
  intros (? & ? & ? & ?). destruct H; lra.
Qed.

(** A section of 900 px in a window of 720 px, with its top at the top of
    the window. *)
Lemma isInViewport_false_when_larger_witness :
  isInViewport {| DOMRect.top := 0; DOMRect.left := 0;
                  DOMRect.bottom := 900; DOMRect.right := 1280 |} 1280 720 = false.
Proof.
  apply isInViewport_false_when_larger. left. cbn. lra.
Defined.

Lemma addEvents_eq element events handler s :
  addEvents element events handler s =
  Ok tt (set_listeners (add_each (listeners_for element events handler) (listeners s)) s).
Proof.
  unfold addEvents, listeners_for.
  rewrite (forEach_fold _ (λ event s,
    if bool_decide (listener_for element handler event ∈ listeners s) then s
    else set_listeners (listeners s ++ [listener_for element handler event]) s)) by done.
  f_equal. generalize (split " " events). intros evs. revert s.
  induction evs as [|ev evs IH]; intros s; cbn [foldl fmap list_fmap].
  - by destruct s.
  - rewrite IH. unfold add_each. cbn [foldl].
    by destruct (bool_decide (listener_for element handler ev ∈ listeners s)).
Qed.

Lemma filter_each {A} `{EqDecision A} (xs l : list A) :
  foldl (λ l x, filter (λ y, y ≠ x) l) l xs = filter (λ y, y ∉ xs) l.
Proof.
  revert l. induction xs as [|x xs IH]; intros l; cbn [foldl].
  - symmetry. apply filter_all. intros y _. apply not_elem_of_nil.
  - rewrite IH, list_filter_filter. apply list_filter_iff.
    intros y. rewrite not_elem_of_cons. tauto.
Qed.

Lemma removeEvents_eq element events handler s :
  removeEvents element events handler s =
  Ok tt (set_listeners
           (filter (λ y, y ∉ listeners_for element events handler) (listeners s)) s).
Proof.
  unfold removeEvents, listeners_for.
  rewrite (forEach_fold _ (λ event s,
    set_listeners (filter (λ y, y ≠ listener_for element handler event) (listeners s)) s))
    by done.
  f_equal. rewrite <- filter_each.
  generalize (split " " events). intros evs. revert s.
  induction evs as [|ev evs IH]; intros s; cbn [foldl fmap list_fmap].
  - by destruct s.
  - by rewrite IH.
Qed.

Example split_pieces :
  split " " "click touchstart" = ["click"; "touchstart"] ∧
  split " " "click  touchstart " = ["click"; ""; "touchstart"; ""] ∧
  split " " "" = [""].
Proof. by repeat split. Qed.

(** [split] gives at least one piece. *)
Lemma split_nonempty separator s : split separator s ≠ [].
Proof.
  destruct s as [|c s]; cbn; [done|].
  destruct (Ascii.eqb c separator); [done|]. by destruct (split separator s).
Qed.

(** X20. [addEvents] registers the handler for every piece of the events
    string: afterwards the handler is among the listeners of the element
    for each of these event types, the listeners are those there were and
    these, at least one is registered (for the empty string, a listener for
    the empty event type), no listener is there twice if none was, a second
    call with the same arguments changes nothing, and no call throws. *)
Theorem addEvents_registers_each_type (element : Target) (events : string)
    (handler : Handler) (s : Page) :
  let s' := page_of (addEvents element events handler s) in
  returns (addEvents element events handler s) = true ∧
  (∀ event, event ∈ split " " events → handler ∈ registered element event s') ∧
  (∀ x, x ∈ listeners s' ↔ x ∈ listeners s ∨ x ∈ listeners_for element events handler) ∧
  (∃ event, listener_for element handler event ∈ listeners s') ∧
  (events = "" → listener_for element handler "" ∈ listeners s') ∧
  (NoDup (listeners s) → NoDup (listeners s')) ∧
  addEvents element events handler s' = Ok tt s'.
Proof.
  rewrite addEvents_eq. cbn [page_of returns].
  set (xs := listeners_for element events handler).
  set (s' := set_listeners (add_each xs (listeners s)) s).
  assert (Hin : ∀ x, x ∈ listeners s' ↔ x ∈ listeners s ∨ x ∈ xs).
  { intros x. apply elem_of_add_each. }
  assert (Hev : ∀ event, event ∈ split " " events →
                  listener_for element handler event ∈ listeners s').
  { intros event Hev. apply Hin. right. unfold xs, listeners_for.
    apply list_elem_of_fmap. by exists event. }
  split; [done|]. split; [|split; [done|split; [|split; [|split]]]].
  - intros event Hevent. unfold registered. apply list_elem_of_fmap.
    exists (listener_for element handler event). split; [done|].
    apply list_elem_of_filter. split; [done|]. by apply Hev.
  - destruct (split " " events) as [|event evs] eqn:E; [by apply split_nonempty in E|].
    exists event. apply Hev. by left.
  - intros Hempty. apply Hev. rewrite Hempty. by left.
  - apply NoDup_add_each.
  - rewrite addEvents_eq. f_equal. fold xs. rewrite add_each_present; [by destruct s|].
    intros x Hx. apply Hin. by right.
Qed.

(** X21. [removeEvents] undoes [addEvents]: after [addEvents] with the
    same arguments it leaves the listeners [removeEvents] alone would
    leave, and when none of the listeners was registered before, the page
    is the one before [addEvents]. *)
Theorem removeEvents_undoes_addEvents (element : Target) (events : string)
    (handler : Handler) (s : Page) :
  let added := page_of (addEvents element events handler s) in
  removeEvents element events handler added = removeEvents element events handler s ∧
  ((∀ event, event ∈ split " " events → listener_for element handler event ∉ listeners s) →
   removeEvents element events handler added = Ok tt s).
Proof.
  rewrite addEvents_eq. cbn [page_of]. rewrite !removeEvents_eq.
  cbn [listeners set_listeners].
  set (xs := listeners_for element events handler).
  assert (Hf : filter (λ y, y ∉ xs) (add_each xs (listeners s))
               = filter (λ y, y ∉ xs) (listeners s)).
  { apply filter_add_each. intros x Hx Hn. by apply Hn. }
  rewrite Hf. split; [done|].
  intros Hnew. f_equal. rewrite filter_all; [by destruct s|].
  intros x Hx (event & -> & Hev)%list_elem_of_fmap. by apply (Hnew event).
Qed.

(** On the sample page: a handler added for two event types of the toggle
    button, 17, and removed again. *)
Lemma removeEvents_undoes_addEvents_witness :
  let added := page_of (addEvents (Node 17) "click touchstart" OnMenuOpen
                          (page_of (removeEvents (Node 17) "click" OnMenuOpen sample))) in
  split " " "click touchstart" = ["click"; "touchstart"] ∧
  registered (Node 17) "touchstart" added = [OnMenuOpen] ∧
  page_of (removeEvents (Node 17) "click touchstart" OnMenuOpen added)
  = page_of (removeEvents (Node 17) "click" OnMenuOpen sample).
Proof.
  intros added. split; [reflexivity|]. split; [vm_compute; reflexivity|].
  destruct (removeEvents_undoes_addEvents (Node 17) "click touchstart" OnMenuOpen
              (page_of (removeEvents (Node 17) "click" OnMenuOpen sample))) as [_ H].
  fold added in H. rewrite H; [reflexivity|].
  intros event Hev. apply list_elem_of_In in Hev. cbn in Hev.
  destruct Hev as [<-|[<-|[]]]; apply (bool_decide_unpack _); vm_compute; exact I.
Defined.
